(** * HTTP/3 framing codec and header-decode verifier (proxygen)

    A shallow embedding of
      - proxygen/lib/http/codec/HQFramer.cpp        (framer and per-frame parsers),
      - proxygen/lib/http/codec/HQFramedCodec.cpp   (the resumable frame parser),
      - proxygen/lib/http/codec/HeaderDecodeInfo.cpp (the header verifier),
    together with the properties the specification states about them.

    Conventions.  A [uint64_t] is a [Z] with the wrap-around written
    out ([u64]); a byte is [Init.Byte.byte]; an [IOBufQueue] and a
    [Cursor] are the list of bytes they hold, resp. the list of bytes still
    ahead; output parameters are passed in and returned. *)

From Stdlib Require Import Bool String Ascii ZArith List Lia.
From coqutil Require Import Byte.
Import ListNotations.
Local Open Scope Z_scope.

(** ** Machine integers and byte buffers *)

Definition u64 (x : Z) : Z := x mod 2 ^ 64.
Definition u8 (x : Z) : Z := x mod 2 ^ 8.

Definition IOBuf := list byte.
Definition IOBufQueue := list byte.
Definition Cursor := list byte.

Definition computeChainDataLength (data : IOBuf) : Z := Z.of_nat (length data).
Definition totalLength (c : Cursor) : Z := Z.of_nat (length c).

(** [Cursor::canAdvance(n)]. *)
Definition canAdvance (c : Cursor) (n : Z) : bool := n <=? totalLength c.

(** [Cursor::clone(out, n)]: the next [n] bytes and the advanced cursor. *)
Definition clone (c : Cursor) (n : Z) : IOBuf * Cursor :=
  (firstn (Z.to_nat n) c, skipn (Z.to_nat n) c).

(** [Cursor::skip(n)]. *)
Definition skip (c : Cursor) (n : Z) : Cursor := skipn (Z.to_nat n) c.

(** [folly::Expected<T, E>]. *)
Inductive Expected (T E : Type) : Type :=
| Ok (v : T)
| Unexpected (e : E).
Arguments Ok {T E} v.
Arguments Unexpected {T E} e.

Definition hasError {T E} (r : Expected T E) : bool :=
  match r with Ok _ => false | Unexpected _ => true end.

(** Big-endian byte strings of a fixed width. *)
Fixpoint be_split (n : nat) (w : Z) : list byte :=
  match n with
  | O => []
  | S m => byte.of_Z (w / 2 ^ (8 * Z.of_nat m)) :: be_split m w
  end.

Definition be_combine (bs : list byte) : Z :=
  fold_left (fun acc b => acc * 256 + byte.unsigned b) bs 0.

(** ** The QUIC variable-length integer codec *)

Module quic.

Inductive TransportErrorCode := INTERNAL_ERROR.

Definition kOneByteLimit : Z := 0x3F.
Definition kTwoByteLimit : Z := 0x3FFF.
Definition kFourByteLimit : Z := 0x3FFFFFFF.
Definition kEightByteLimit : Z := 0x3FFFFFFFFFFFFFFF.

(** Modelled from the spec: [quic::getQuicIntegerSize] of
    quic/codec/QuicInteger.h, which is not under src/ (section 4.A,
    [sizeOf]): the smallest of the four length classes that fits, and
    [TooLarge] from 2^62 on. *)
Definition getQuicIntegerSize (value : Z) : Expected Z TransportErrorCode :=
  if value <=? kOneByteLimit then Ok 1
  else if value <=? kTwoByteLimit then Ok 2
  else if value <=? kFourByteLimit then Ok 4
  else if value <=? kEightByteLimit then Ok 8
  else Unexpected INTERNAL_ERROR.

(** Modelled from the spec: [quic::encodeQuicInteger] (section 4.A,
    [encode]): the top two bits of the first byte carry the length class,
    the other bits the value, most significant byte first.  Nothing is
    appended when the value is too large. *)
Definition encodeQuicInteger (value : Z) (appender : IOBufQueue)
  : Expected Z TransportErrorCode * IOBufQueue :=
  if value <=? kOneByteLimit then (Ok 1, appender ++ be_split 1 value)
  else if value <=? kTwoByteLimit then
    (Ok 2, appender ++ be_split 2 (Z.lor value 0x4000))
  else if value <=? kFourByteLimit then
    (Ok 4, appender ++ be_split 4 (Z.lor value 0x80000000))
  else if value <=? kEightByteLimit then
    (Ok 8, appender ++ be_split 8 (Z.lor value 0xC000000000000000))
  else (Unexpected INTERNAL_ERROR, appender).

(** Modelled from the spec: [quic::decodeQuicInteger(cursor, atMost)]
    (section 4.A, [decode]): [None], with the cursor where it was, when
    fewer bytes than the class of the first byte asks for are ahead or
    when they would go beyond [atMost]; otherwise the value, the number
    of bytes read, and the advanced cursor. *)
Definition decodeQuicInteger (cursor : Cursor) (atMost : Z)
  : option (Z * Z) * Cursor :=
  match cursor with
  | [] => (None, cursor)
  | firstByte :: _ =>
      if atMost =? 0 then (None, cursor)
      else
        let varintType := Z.shiftr (byte.unsigned firstByte) 6 in
        let bytesExpected := Z.shiftl 1 varintType in
        if negb (canAdvance cursor bytesExpected) || (atMost <? bytesExpected)
        then (None, cursor)
        else
          let n := Z.to_nat bytesExpected in
          (Some (Z.land (be_combine (firstn n cursor))
                        (Z.ones (8 * bytesExpected - 2)),
                 bytesExpected),
           skipn n cursor)
  end.

(** The one-argument overload: [atMost] defaults to [sizeof(uint64_t)]. *)
Definition decodeQuicInteger1 (cursor : Cursor) : option (Z * Z) * Cursor :=
  decodeQuicInteger cursor 8.

End quic.

Definition WriteResult := Expected Z quic.TransportErrorCode.

(** The bytes and the size of the encoding of a value that fits. *)
Definition varint_bytes (v : Z) : list byte := snd (quic.encodeQuicInteger v []).
Definition varint_size (v : Z) : Z :=
  match quic.getQuicIntegerSize v with Ok n => n | Unexpected _ => 0 end.

(** ** Declarations of HQFramer.h *)

Module HTTP3.
(** The error codes named in the sources; [HTTP_ERROR code] stands for
    the other codes of the enumeration (the [HTTP_WRONG_STREAM] family a
    [checkFrameAllowed] may answer with). *)
Inductive ErrorCode :=
| HTTP_MALFORMED_FRAME_DATA
| HTTP_MALFORMED_FRAME_HEADERS
| HTTP_MALFORMED_FRAME_PRIORITY
| HTTP_MALFORMED_FRAME_CANCEL_PUSH
| HTTP_MALFORMED_FRAME_SETTINGS
| HTTP_MALFORMED_FRAME_PUSH_PROMISE
| HTTP_MALFORMED_FRAME_GOAWAY
| HTTP_MALFORMED_FRAME_MAX_PUSH_ID
| HTTP_ERROR (code : Z).
End HTTP3.
Import HTTP3.

(** [ParseResult] is [folly::Optional<HTTP3::ErrorCode>]: [None] is success. *)
Definition ParseResult := option ErrorCode.

(** Modelled from the spec: the enumeration [PriorityElementType] of
    HQFramer.h (not under src/), with the enumerators in the order the data
    model lists them; they are the values of a two-bit field. *)
Inductive PriorityElementType :=
| REQUEST_STREAM | PUSH_STREAM | PLACEHOLDER | TREE_ROOT.

Definition PriorityElementType_to_Z (t : PriorityElementType) : Z :=
  match t with
  | REQUEST_STREAM => 0 | PUSH_STREAM => 1 | PLACEHOLDER => 2 | TREE_ROOT => 3
  end.

(** [static_cast<PriorityElementType>] of a two-bit value. *)
Definition PriorityElementType_of_Z (z : Z) : PriorityElementType :=
  match z with
  | 0 => REQUEST_STREAM | 1 => PUSH_STREAM | 2 => PLACEHOLDER | _ => TREE_ROOT
  end.

Definition PriorityElementType_eqb (a b : PriorityElementType) : bool :=
  PriorityElementType_to_Z a =? PriorityElementType_to_Z b.

Record PriorityUpdate := mkPriorityUpdate {
  prioritizedType : PriorityElementType;
  dependencyType : PriorityElementType;
  exclusive : bool;
  prioritizedElementId : Z;
  elementDependencyId : Z;
  weight : Z
}.

Definition PushId := Z.
Definition SettingId := Z.
Definition SettingValue := Z.
Definition SettingPair := (SettingId * SettingValue)%type.
Definition FrameType := Z.

Module FrameHeader.
Record t := mk { type : FrameType; length : Z }.
End FrameHeader.

(** The constants, macros and enumerator values that HQFramer.h declares.
    The header is not under src/, so the development takes them as a
    parameter; [draft_constants] below is one assignment. *)
Record HQConstants := mkHQConstants {
  kPushIdMask : Z;
  kUnframedDataFrameLen : Z;
  kSessionStreamId : Z;
  PRIORITIZED_TYPE_POS : Z;
  DEPENDENCY_TYPE_POS : Z;
  PRIORITY_EMPTY_POS : Z;
  PRIORITY_EXCLUSIVE_MASK : Z;
  DATA : FrameType;
  HEADERS : FrameType;
  PRIORITY : FrameType;
  CANCEL_PUSH : FrameType;
  SETTINGS : FrameType;
  PUSH_PROMISE : FrameType;
  GOAWAY : FrameType;
  MAX_PUSH_ID : FrameType;
  HEADER_TABLE_SIZE : SettingId;
  NUM_PLACEHOLDERS : SettingId;
  MAX_HEADER_LIST_SIZE : SettingId;
  QPACK_BLOCKED_STREAMS : SettingId
}.

(** The frame types and setting identifiers of the HTTP/3 draft this code
    implements, the push-id sentinel on the high bit, and the PRIORITY flag
    byte laid out as PT(2) DT(2) Empty(3) E(1). *)
Definition draft_constants : HQConstants := {|
  kPushIdMask := 2 ^ 63;
  kUnframedDataFrameLen := 0;
  kSessionStreamId := 2 ^ 64 - 1;
  PRIORITIZED_TYPE_POS := 6;
  DEPENDENCY_TYPE_POS := 4;
  PRIORITY_EMPTY_POS := 1;
  PRIORITY_EXCLUSIVE_MASK := 0x01;
  DATA := 0x00;
  HEADERS := 0x01;
  PRIORITY := 0x02;
  CANCEL_PUSH := 0x03;
  SETTINGS := 0x04;
  PUSH_PROMISE := 0x05;
  GOAWAY := 0x07;
  MAX_PUSH_ID := 0x0D;
  HEADER_TABLE_SIZE := 0x01;
  NUM_PLACEHOLDERS := 0x08;
  MAX_HEADER_LIST_SIZE := 0x06;
  QPACK_BLOCKED_STREAMS := 0x07
|}.

Definition uint64_range (x : Z) : Prop := 0 <= x < 2 ^ 64.

(** What the declarations guarantee by their types: every constant is a
    [uint64_t] (the flag macros fit a byte), and the enumerators of one
    [enum class] are pairwise different. *)
Definition distinctb (l : list Z) : bool :=
  (fix go (l : list Z) : bool :=
     match l with
     | [] => true
     | x :: r => negb (existsb (Z.eqb x) r) && go r
     end) l.

Definition frame_types (K : HQConstants) : list FrameType :=
  [DATA K; HEADERS K; PRIORITY K; CANCEL_PUSH K; SETTINGS K; PUSH_PROMISE K;
   GOAWAY K; MAX_PUSH_ID K].

Definition setting_ids (K : HQConstants) : list SettingId :=
  [HEADER_TABLE_SIZE K; NUM_PLACEHOLDERS K; MAX_HEADER_LIST_SIZE K;
   QPACK_BLOCKED_STREAMS K].

Definition in_range (lo hi x : Z) : bool := (lo <=? x) && (x <? hi).

Definition constants_ok (K : HQConstants) : bool :=
  forallb (in_range 0 (2 ^ 64))
          (kPushIdMask K :: kUnframedDataFrameLen K :: frame_types K ++ setting_ids K)
  && distinctb (frame_types K)
  && distinctb (setting_ids K)
  && forallb (in_range 0 8)
             [PRIORITIZED_TYPE_POS K; DEPENDENCY_TYPE_POS K; PRIORITY_EMPTY_POS K]
  && in_range 0 256 (PRIORITY_EXCLUSIVE_MASK K).

(** ** HQFramer.cpp: parsers *)

Section Framer.
Variable K : HQConstants.

Definition isGreaseId (id : Z) : bool :=
  if (id <? 0x21) || (quic.kEightByteLimit <? id) then false
  else (id - 0x21) mod 0x1F =? 0.

Definition isInternalPushId (pushId : PushId) : bool :=
  negb (Z.land pushId (kPushIdMask K) =? 0).

Definition isExternalPushId (pushId : PushId) : bool :=
  Z.land pushId (kPushIdMask K) =? 0.

Definition frameAffectsCompression (t : FrameType) : bool :=
  (t =? HEADERS K) || (t =? PUSH_PROMISE K).

(** [cursor.readBE<uint8_t>()]; called only after [canAdvance]. *)
Definition readBE_uint8 (cursor : Cursor) : Z * Cursor :=
  match cursor with
  | [] => (0, [])
  | b :: rest => (byte.unsigned b, rest)
  end.

Definition parseData (cursor : Cursor) (header : FrameHeader.t) (outBuf : IOBuf)
  : ParseResult * IOBuf * Cursor :=
  (* DATA frames MUST contain a non-zero-length payload *)
  if FrameHeader.length header =? 0 then
    (Some HTTP_MALFORMED_FRAME_DATA, outBuf, cursor)
  else
    let (out, cursor) := clone cursor (FrameHeader.length header) in
    (None, out, cursor).

Definition parseHeaders (cursor : Cursor) (header : FrameHeader.t) (outBuf : IOBuf)
  : ParseResult * IOBuf * Cursor :=
  (* for HEADERS frame, zero-length is allowed *)
  let (out, cursor) := clone cursor (FrameHeader.length header) in
  (None, out, cursor).

Definition encodePriorityFlags (priority : PriorityUpdate) : Z :=
  let flags := 0x00 in
  let flags :=
    u8 (Z.lor flags (Z.shiftl (PriorityElementType_to_Z (prioritizedType priority))
                              (PRIORITIZED_TYPE_POS K))) in
  let flags :=
    u8 (Z.lor flags (Z.shiftl (PriorityElementType_to_Z (dependencyType priority))
                              (DEPENDENCY_TYPE_POS K))) in
  let flags :=
    if exclusive priority then u8 (Z.lor flags (PRIORITY_EXCLUSIVE_MASK K))
    else flags in
  flags.

Definition decodePriorityFlags (flags : Z) (outPriority : PriorityUpdate)
  : bool * PriorityUpdate :=
  let pt := PriorityElementType_of_Z
              (Z.shiftr (Z.land flags (Z.shiftl 0x03 (PRIORITIZED_TYPE_POS K)))
                        (PRIORITIZED_TYPE_POS K)) in
  let dt := PriorityElementType_of_Z
              (Z.shiftr (Z.land flags (Z.shiftl 0x03 (DEPENDENCY_TYPE_POS K)))
                        (DEPENDENCY_TYPE_POS K)) in
  let excl := negb (Z.land flags (PRIORITY_EXCLUSIVE_MASK K) =? 0) in
  let outPriority :=
    {| prioritizedType := pt;
       dependencyType := dt;
       exclusive := excl;
       prioritizedElementId := prioritizedElementId outPriority;
       elementDependencyId := elementDependencyId outPriority;
       weight := weight outPriority |} in
  let empty := u8 (Z.land flags (Z.shiftl 0x07 (PRIORITY_EMPTY_POS K))) in
  if negb (empty =? 0) then (false, outPriority) else (true, outPriority).

Definition set_prioritizedElementId (p : PriorityUpdate) (v : Z) : PriorityUpdate :=
  {| prioritizedType := prioritizedType p; dependencyType := dependencyType p;
     exclusive := exclusive p; prioritizedElementId := v;
     elementDependencyId := elementDependencyId p; weight := weight p |}.

Definition set_elementDependencyId (p : PriorityUpdate) (v : Z) : PriorityUpdate :=
  {| prioritizedType := prioritizedType p; dependencyType := dependencyType p;
     exclusive := exclusive p; prioritizedElementId := prioritizedElementId p;
     elementDependencyId := v; weight := weight p |}.

Definition set_weight (p : PriorityUpdate) (v : Z) : PriorityUpdate :=
  {| prioritizedType := prioritizedType p; dependencyType := dependencyType p;
     exclusive := exclusive p; prioritizedElementId := prioritizedElementId p;
     elementDependencyId := elementDependencyId p; weight := v |}.

Definition parsePriority (cursor : Cursor) (header : FrameHeader.t)
           (outPriority : PriorityUpdate)
  : ParseResult * PriorityUpdate * Cursor :=
  let malformed := Some HTTP_MALFORMED_FRAME_PRIORITY in
  let frameLength := FrameHeader.length header in
  if negb (canAdvance cursor 1) then (malformed, outPriority, cursor)
  else
    let (flags, cursor) := readBE_uint8 cursor in
    let frameLength := u64 (frameLength - 1) in
    let (res, outPriority) := decodePriorityFlags flags outPriority in
    if negb res then (malformed, outPriority, cursor)
    (* A PRIORITY frame that prioritizes the root of the tree is not allowed *)
    else if PriorityElementType_eqb (prioritizedType outPriority) TREE_ROOT then
      (malformed, outPriority, cursor)
    else
      match quic.decodeQuicInteger cursor frameLength with
      | (None, cursor) => (malformed, outPriority, cursor)
      | (Some (first, second), cursor) =>
          let outPriority := set_prioritizedElementId outPriority first in
          let frameLength := u64 (frameLength - second) in
          let dependency :=
            if negb (PriorityElementType_eqb (dependencyType outPriority) TREE_ROOT)
            then
              match quic.decodeQuicInteger cursor frameLength with
              | (None, cursor) => (false, outPriority, frameLength, cursor)
              | (Some (first, second), cursor) =>
                  (true, set_elementDependencyId outPriority first,
                   u64 (frameLength - second), cursor)
              end
            else (true, outPriority, frameLength, cursor) in
          let '(decoded, outPriority, frameLength, cursor) := dependency in
          if negb decoded then (malformed, outPriority, cursor)
          else if negb (canAdvance cursor 1) then (malformed, outPriority, cursor)
          else
            let (w, cursor) := readBE_uint8 cursor in
            let outPriority := set_weight outPriority w in
            let frameLength := u64 (frameLength - 1) in
            if negb (frameLength =? 0) then (malformed, outPriority, cursor)
            else (None, outPriority, cursor)
      end.

Definition parseCancelPush (cursor : Cursor) (header : FrameHeader.t)
           (outPushId : PushId) : ParseResult * PushId * Cursor :=
  let frameLength := FrameHeader.length header in
  match quic.decodeQuicInteger cursor frameLength with
  | (None, cursor) => (Some HTTP_MALFORMED_FRAME_CANCEL_PUSH, outPushId, cursor)
  | (Some (first, second), cursor) =>
      let outPushId := Z.lor first (kPushIdMask K) in
      let frameLength := u64 (frameLength - second) in
      if negb (frameLength =? 0) then
        (Some HTTP_MALFORMED_FRAME_CANCEL_PUSH, outPushId, cursor)
      else (None, outPushId, cursor)
  end.

Definition isKnownSetting (settingId : SettingId) : bool :=
  (settingId =? HEADER_TABLE_SIZE K) || (settingId =? NUM_PLACEHOLDERS K)
  || (settingId =? MAX_HEADER_LIST_SIZE K) || (settingId =? QPACK_BLOCKED_STREAMS K).

(** Returns the value from the wire for known settings, [None] for unknown
    ones; [frameLength] is passed by reference. *)
Definition decodeSettingValue (cursor : Cursor) (frameLength : Z)
           (settingId : SettingId)
  : Expected (option SettingValue) ErrorCode * Z * Cursor :=
  match quic.decodeQuicInteger cursor frameLength with
  | (None, cursor) =>
      (Unexpected HTTP_MALFORMED_FRAME_SETTINGS, frameLength, cursor)
  | (Some (value, second), cursor) =>
      let frameLength := u64 (frameLength - second) in
      if isKnownSetting settingId then (Ok (Some value), frameLength, cursor)
      else (Ok None, frameLength, cursor)
  end.

(** The [while (frameLength > 0)] loop of [parseSettings]; [None] when the
    fuel runs out before the loop ends. *)
Fixpoint parseSettings_loop (fuel : nat) (cursor : Cursor) (frameLength : Z)
         (settings : list SettingPair)
  : option (ParseResult * list SettingPair * Cursor) :=
  if 0 <? frameLength then
    match fuel with
    | O => None
    | S fuel =>
        match quic.decodeQuicInteger cursor frameLength with
        | (None, cursor) =>
            Some (Some HTTP_MALFORMED_FRAME_SETTINGS, settings, cursor)
        | (Some (first, second), cursor) =>
            let frameLength := u64 (frameLength - second) in
            let settingId := first in
            match decodeSettingValue cursor frameLength settingId with
            | (Unexpected e, _, cursor) => Some (Some e, settings, cursor)
            | (Ok settingValue, frameLength, cursor) =>
                let settings :=
                  match settingValue with
                  | Some value => settings ++ [(settingId, value)]
                  | None => settings
                  end in
                parseSettings_loop fuel cursor frameLength settings
            end
        end
    end
  else Some (None, settings, cursor).

(** Every turn of the loop reads at least two bytes, so the bytes ahead
    bound the number of turns and the last branch is never taken
    ([parseSettings_loop_total]). *)
Definition parseSettings (cursor : Cursor) (header : FrameHeader.t)
           (settings : list SettingPair)
  : ParseResult * list SettingPair * Cursor :=
  match parseSettings_loop (S (List.length cursor)) cursor
                           (FrameHeader.length header) settings with
  | Some r => r
  | None => (Some HTTP_MALFORMED_FRAME_SETTINGS, settings, cursor)
  end.

Definition parsePushPromise (cursor : Cursor) (header : FrameHeader.t)
           (outPushId : PushId) (outBuf : IOBuf)
  : ParseResult * PushId * IOBuf * Cursor :=
  let frameLength := FrameHeader.length header in
  match quic.decodeQuicInteger cursor frameLength with
  | (None, cursor) =>
      (Some HTTP_MALFORMED_FRAME_PUSH_PROMISE, outPushId, outBuf, cursor)
  | (Some (first, second), cursor) =>
      let outPushId := Z.lor first (kPushIdMask K) in
      let frameLength := u64 (frameLength - second) in
      let (out, cursor) := clone cursor frameLength in
      (None, outPushId, out, cursor)
  end.

Definition parseGoaway (cursor : Cursor) (header : FrameHeader.t)
           (outStreamId : Z) : ParseResult * Z * Cursor :=
  let frameLength := FrameHeader.length header in
  match quic.decodeQuicInteger cursor frameLength with
  | (None, cursor) => (Some HTTP_MALFORMED_FRAME_GOAWAY, outStreamId, cursor)
  | (Some (first, second), cursor) =>
      let outStreamId := first in
      let frameLength := u64 (frameLength - second) in
      if negb (frameLength =? 0) then
        (Some HTTP_MALFORMED_FRAME_GOAWAY, outStreamId, cursor)
      else (None, outStreamId, cursor)
  end.

Definition parseMaxPushId (cursor : Cursor) (header : FrameHeader.t)
           (outPushId : Z) : ParseResult * Z * Cursor :=
  let frameLength := FrameHeader.length header in
  match quic.decodeQuicInteger cursor frameLength with
  | (None, cursor) => (Some HTTP_MALFORMED_FRAME_MAX_PUSH_ID, outPushId, cursor)
  | (Some (first, second), cursor) =>
      let outPushId := Z.lor first (kPushIdMask K) in
      let frameLength := u64 (frameLength - second) in
      if negb (frameLength =? 0) then
        (Some HTTP_MALFORMED_FRAME_MAX_PUSH_ID, outPushId, cursor)
      else (None, outPushId, cursor)
  end.

(** ** HQFramer.cpp: writers

    A writer takes the output queue and returns it with the result.  The
    sizes are [size_t] sums of a frame header size and the length of a
    buffer that is in memory; they are written without wrap-around. *)

(** [appender.writeBE<uint8_t>(v)]. *)
Definition writeBE_uint8 (v : Z) (appender : IOBufQueue) : IOBufQueue :=
  appender ++ [byte.of_Z v].

(** Generate just the common frame header.  Returns the total frame header
    length. *)
Definition writeFrameHeader (queue : IOBufQueue) (type : FrameType) (length : Z)
  : WriteResult * IOBufQueue :=
  match quic.encodeQuicInteger type queue with
  | (Unexpected e, queue) => (Unexpected e, queue)
  | (Ok typeRes, queue) =>
      match quic.encodeQuicInteger length queue with
      | (Unexpected e, queue) => (Unexpected e, queue)
      | (Ok lengthRes, queue) => (Ok (typeRes + lengthRes), queue)
      end
  end.

Definition writeSimpleFrame (queue : IOBufQueue) (type : FrameType) (data : IOBuf)
  : WriteResult * IOBufQueue :=
  let payloadSize := computeChainDataLength data in
  match writeFrameHeader queue type payloadSize with
  | (Unexpected e, queue) => (Unexpected e, queue)
  | (Ok headerSize, queue) => (Ok (headerSize + payloadSize), queue ++ data)
  end.

Definition writeData (queue : IOBufQueue) (data : IOBuf) : WriteResult * IOBufQueue :=
  writeSimpleFrame queue (DATA K) data.

Definition writeUnframedBytes (queue : IOBufQueue) (data : IOBuf)
  : WriteResult * IOBufQueue :=
  let payloadSize := computeChainDataLength data in
  (Ok payloadSize, queue ++ data).

Definition writeHeaders (queue : IOBufQueue) (data : IOBuf)
  : WriteResult * IOBufQueue :=
  writeSimpleFrame queue (HEADERS K) data.

Definition writePriority (queue : IOBufQueue) (priority : PriorityUpdate)
  : WriteResult * IOBufQueue :=
  let flags := encodePriorityFlags priority in
  match quic.getQuicIntegerSize (prioritizedElementId priority) with
  | Unexpected e => (Unexpected e, queue)
  | Ok prioritizedElementIdSize =>
      let payloadSize := prioritizedElementIdSize + 2 * 1 in
      let sized :=
        if negb (PriorityElementType_eqb (dependencyType priority) TREE_ROOT) then
          match quic.getQuicIntegerSize (elementDependencyId priority) with
          | Unexpected e => Unexpected e
          | Ok elementDependencyIdSize => Ok (payloadSize + elementDependencyIdSize)
          end
        else Ok payloadSize in
      match sized with
      | Unexpected e => (Unexpected e, queue)
      | Ok payloadSize =>
          match writeFrameHeader queue (PRIORITY K) payloadSize with
          | (Unexpected e, queue) => (Unexpected e, queue)
          | (Ok headerSize, queue) =>
              let appender := writeBE_uint8 flags queue in
              let (_, appender) :=
                quic.encodeQuicInteger (prioritizedElementId priority) appender in
              let appender :=
                if negb (PriorityElementType_eqb (dependencyType priority) TREE_ROOT)
                then snd (quic.encodeQuicInteger (elementDependencyId priority)
                                                 appender)
                else appender in
              let appender := writeBE_uint8 (weight priority) appender in
              (Ok (headerSize + payloadSize), appender)
          end
      end
  end.

(** [pushId & ~kPushIdMask] on 64 bits. *)
Definition clearPushIdMask (pushId : PushId) : PushId :=
  Z.land pushId (u64 (Z.lnot (kPushIdMask K))).

Definition writeCancelPush (writeBuf : IOBufQueue) (pushId : PushId)
  : WriteResult * IOBufQueue :=
  let pushId := clearPushIdMask pushId in
  match quic.getQuicIntegerSize pushId with
  | Unexpected e => (Unexpected e, writeBuf)
  | Ok pushIdSize =>
      let queue : IOBufQueue := [] in
      let (_, queue) := quic.encodeQuicInteger pushId queue in
      writeSimpleFrame writeBuf (CANCEL_PUSH K) queue
  end.

(** The first loop of [writeSettings]: the frame payload length, or the
    error of the first identifier or value that has no encoding. *)
Fixpoint writeSettings_size (settings : list SettingPair) (settingsSize : Z)
  : WriteResult :=
  match settings with
  | [] => Ok settingsSize
  | setting :: rest =>
      match quic.getQuicIntegerSize (fst setting) with
      | Unexpected e => Unexpected e
      | Ok idSize =>
          match quic.getQuicIntegerSize (snd setting) with
          | Unexpected e => Unexpected e
          | Ok valueSize =>
              writeSettings_size rest (settingsSize + (idSize + valueSize))
          end
      end
  end.

(** The second loop: the frame payload. *)
Fixpoint writeSettings_payload (settings : list SettingPair) (appender : IOBufQueue)
  : IOBufQueue :=
  match settings with
  | [] => appender
  | setting :: rest =>
      let (_, appender) := quic.encodeQuicInteger (fst setting) appender in
      let (_, appender) := quic.encodeQuicInteger (snd setting) appender in
      writeSettings_payload rest appender
  end.

Definition writeSettings (queue : IOBufQueue) (settings : list SettingPair)
  : WriteResult * IOBufQueue :=
  match writeSettings_size settings 0 with
  | Unexpected e => (Unexpected e, queue)
  | Ok settingsSize =>
      match writeFrameHeader queue (SETTINGS K) settingsSize with
      | (Unexpected e, queue) => (Unexpected e, queue)
      | (Ok headerSize, queue) =>
          (Ok (headerSize + settingsSize), writeSettings_payload settings queue)
      end
  end.

Definition writePushPromise (queue : IOBufQueue) (pushId : PushId) (data : IOBuf)
  : WriteResult * IOBufQueue :=
  let pushId := clearPushIdMask pushId in
  match quic.getQuicIntegerSize pushId with
  | Unexpected e => (Unexpected e, queue)
  | Ok pushIdSize =>
      let payloadSize := pushIdSize + computeChainDataLength data in
      match writeFrameHeader queue (PUSH_PROMISE K) payloadSize with
      | (Unexpected e, queue) => (Unexpected e, queue)
      | (Ok headerSize, queue) =>
          let (_, appender) := quic.encodeQuicInteger pushId queue in
          (Ok (headerSize + payloadSize), appender ++ data)
      end
  end.

Definition writeGoaway (writeBuf : IOBufQueue) (lastStreamId : Z)
  : WriteResult * IOBufQueue :=
  match quic.getQuicIntegerSize lastStreamId with
  | Unexpected e => (Unexpected e, writeBuf)
  | Ok lastStreamIdSize =>
      let queue : IOBufQueue := [] in
      let (_, queue) := quic.encodeQuicInteger lastStreamId queue in
      writeSimpleFrame writeBuf (GOAWAY K) queue
  end.

Definition writeMaxPushId (writeBuf : IOBufQueue) (maxPushId : PushId)
  : WriteResult * IOBufQueue :=
  let maxPushId := clearPushIdMask maxPushId in
  match quic.getQuicIntegerSize maxPushId with
  | Unexpected e => (Unexpected e, writeBuf)
  | Ok maxPushIdSize =>
      let queue : IOBufQueue := [] in
      let (_, queue) := quic.encodeQuicInteger maxPushId queue in
      writeSimpleFrame writeBuf (MAX_PUSH_ID K) queue
  end.

End Framer.

(** ** HQFramedCodec.cpp: the resumable frame parser *)

(** A frame as a value: what a writer is given and what the matching parser
    hands out. *)
Inductive Frame :=
| FData (data : IOBuf)
| FHeaders (data : IOBuf)
| FPriority (priority : PriorityUpdate)
| FCancelPush (pushId : PushId)
| FSettings (settings : list SettingPair)
| FPushPromise (pushId : PushId) (data : IOBuf)
| FGoaway (lastStreamId : Z)
| FMaxPushId (maxPushId : PushId).

(** The calls the codec makes on its callback and on its own hooks, in the
    order they are made.  A call is recorded; what a callback does in
    answer (it may call [setParserPaused]) is not part of the model, which
    follows a callback that leaves the codec alone. *)
Inductive Event :=
| onFrameHeader (streamId flags length type : Z)
| onIngressPartiallyReliableBodyStarted (offset : Z)
| onFrame (streamId : Z) (f : Frame)
| onError (streamId : Z) (errno : ErrorCode) (newStream : bool).

Inductive FrameState :=
| FRAME_HEADER_TYPE
| FRAME_HEADER_LENGTH
| FRAME_PAYLOAD
| FRAME_PAYLOAD_STREAMING
| FRAME_PAYLOAD_PARTIALLY_RELIABLE_STREAMING.

(** The member variables of [HQFramedCodec]; [callback_] says whether a
    callback is installed.  ([receivedFrameCount_] exists in debug builds
    only and is left out.) *)
Record HQFramedCodec := mkCodec {
  streamId_ : Z;
  callback_ : bool;
  frameState_ : FrameState;
  curHeader_ : FrameHeader.t;
  pendingDataFrameBytes_ : Z;
  totalBytesParsed_ : Z;
  connError_ : ParseResult;
  parserPaused_ : bool
}.

(** The virtual member functions a concrete codec (stream or control
    codec) supplies and that do not depend on the frame parsers. *)
Record CodecHooks := mkHooks {
  checkFrameAllowed : FrameType -> ParseResult;
  transportSupportsPartialReliability : bool;
  parsePartiallyReliableData : Cursor -> ParseResult * Cursor;
  (* the locals handed to [hq::parsePriority] and the like start from these *)
  freshPriority : PriorityUpdate
}.

Section FramedCodec.
Variable K : HQConstants.
Variable H : CodecHooks.

Definition set_frame (s : HQFramedCodec) (st : FrameState) (hdr : FrameHeader.t)
           (pending : Z) (err : ParseResult) : HQFramedCodec :=
  {| streamId_ := streamId_ s; callback_ := callback_ s;
     frameState_ := st; curHeader_ := hdr; pendingDataFrameBytes_ := pending;
     totalBytesParsed_ := totalBytesParsed_ s;
     connError_ := err; parserPaused_ := parserPaused_ s |}.

Definition add_totalBytesParsed (s : HQFramedCodec) (parsed : Z) : HQFramedCodec :=
  {| streamId_ := streamId_ s; callback_ := callback_ s;
     frameState_ := frameState_ s; curHeader_ := curHeader_ s;
     pendingDataFrameBytes_ := pendingDataFrameBytes_ s;
     totalBytesParsed_ := u64 (totalBytesParsed_ s + parsed);
     connError_ := connError_ s; parserPaused_ := parserPaused_ s |}.

Definition setParserPaused (s : HQFramedCodec) (paused : bool) : HQFramedCodec :=
  {| streamId_ := streamId_ s; callback_ := callback_ s;
     frameState_ := frameState_ s; curHeader_ := curHeader_ s;
     pendingDataFrameBytes_ := pendingDataFrameBytes_ s;
     totalBytesParsed_ := totalBytesParsed_ s;
     connError_ := connError_ s; parserPaused_ := paused |}.

(** A per-type structured event goes to the callback when one is
    installed. *)
Definition deliver (s : HQFramedCodec) (f : Frame) : list Event :=
  if callback_ s then [onFrame (streamId_ s) f] else [].

(** Modelled from the spec: the member functions [parseData(cursor,
    header)], [parseHeaders(cursor, header)], ... of the concrete codecs
    (HQStreamCodec, HQControlCodec; not under src/).  Section 4.C: each
    dispatches to the per-type parser of the framer and, on success, hands
    the result to the consumer as a structured event. *)
Definition codec_parseData (s : HQFramedCodec) (cursor : Cursor)
           (header : FrameHeader.t) : ParseResult * Cursor * list Event :=
  match parseData cursor header [] with
  | (Some e, _, cursor) => (Some e, cursor, [])
  | (None, out, cursor) => (None, cursor, deliver s (FData out))
  end.

Definition codec_parseHeaders (s : HQFramedCodec) (cursor : Cursor)
           (header : FrameHeader.t) : ParseResult * Cursor * list Event :=
  match parseHeaders cursor header [] with
  | (Some e, _, cursor) => (Some e, cursor, [])
  | (None, out, cursor) => (None, cursor, deliver s (FHeaders out))
  end.

Definition codec_parsePriority (s : HQFramedCodec) (cursor : Cursor)
           (header : FrameHeader.t) : ParseResult * Cursor * list Event :=
  match parsePriority K cursor header (freshPriority H) with
  | (Some e, _, cursor) => (Some e, cursor, [])
  | (None, out, cursor) => (None, cursor, deliver s (FPriority out))
  end.

Definition codec_parseCancelPush (s : HQFramedCodec) (cursor : Cursor)
           (header : FrameHeader.t) : ParseResult * Cursor * list Event :=
  match parseCancelPush K cursor header 0 with
  | (Some e, _, cursor) => (Some e, cursor, [])
  | (None, out, cursor) => (None, cursor, deliver s (FCancelPush out))
  end.

Definition codec_parseSettings (s : HQFramedCodec) (cursor : Cursor)
           (header : FrameHeader.t) : ParseResult * Cursor * list Event :=
  match parseSettings K cursor header [] with
  | (Some e, _, cursor) => (Some e, cursor, [])
  | (None, out, cursor) => (None, cursor, deliver s (FSettings out))
  end.

Definition codec_parsePushPromise (s : HQFramedCodec) (cursor : Cursor)
           (header : FrameHeader.t) : ParseResult * Cursor * list Event :=
  match parsePushPromise K cursor header 0 [] with
  | (Some e, _, _, cursor) => (Some e, cursor, [])
  | (None, id, out, cursor) => (None, cursor, deliver s (FPushPromise id out))
  end.

Definition codec_parseGoaway (s : HQFramedCodec) (cursor : Cursor)
           (header : FrameHeader.t) : ParseResult * Cursor * list Event :=
  match parseGoaway cursor header 0 with
  | (Some e, _, cursor) => (Some e, cursor, [])
  | (None, out, cursor) => (None, cursor, deliver s (FGoaway out))
  end.

Definition codec_parseMaxPushId (s : HQFramedCodec) (cursor : Cursor)
           (header : FrameHeader.t) : ParseResult * Cursor * list Event :=
  match parseMaxPushId K cursor header 0 with
  | (Some e, _, cursor) => (Some e, cursor, [])
  | (None, out, cursor) => (None, cursor, deliver s (FMaxPushId out))
  end.

Definition parseFrame (s : HQFramedCodec) (cursor : Cursor)
  : ParseResult * Cursor * list Event :=
  let ty := FrameHeader.type (curHeader_ s) in
  if ty =? DATA K then codec_parseData s cursor (curHeader_ s)
  else if ty =? HEADERS K then codec_parseHeaders s cursor (curHeader_ s)
  else if ty =? PRIORITY K then codec_parsePriority s cursor (curHeader_ s)
  else if ty =? CANCEL_PUSH K then codec_parseCancelPush s cursor (curHeader_ s)
  else if ty =? SETTINGS K then codec_parseSettings s cursor (curHeader_ s)
  else if ty =? PUSH_PROMISE K then codec_parsePushPromise s cursor (curHeader_ s)
  else if ty =? GOAWAY K then codec_parseGoaway s cursor (curHeader_ s)
  else if ty =? MAX_PUSH_ID K then codec_parseMaxPushId s cursor (curHeader_ s)
  else
    (* Implementations MUST ignore and discard any frame that has a type
       that is unknown *)
    (None, skip cursor (FrameHeader.length (curHeader_ s)), []).

(** One turn of the [while] loop of [onFramedIngress], up to the
    bookkeeping at its end: either [break], or the codec, the cursor, the
    bytes [parsed] in this turn and the calls made. *)
Inductive Turn :=
| Break (s : HQFramedCodec) (events : list Event)
| Parsed (s : HQFramedCodec) (cursor : Cursor) (parsed : Z) (events : list Event).

Definition ingressTurn (s : HQFramedCodec) (cursor : Cursor) (bufLen : Z) : Turn :=
  match frameState_ s with
  | FRAME_HEADER_TYPE =>
      match quic.decodeQuicInteger1 cursor with
      | (None, _) => Break s []
      | (Some (first, second), cursor) =>
          let hdr := FrameHeader.mk first (FrameHeader.length (curHeader_ s)) in
          match checkFrameAllowed H first with
          | Some e =>
              Break (set_frame s (frameState_ s) hdr (pendingDataFrameBytes_ s)
                               (Some e)) []
          | None =>
              Parsed (set_frame s FRAME_HEADER_LENGTH hdr
                                (pendingDataFrameBytes_ s) (connError_ s))
                     cursor second []
          end
      end
  | FRAME_HEADER_LENGTH =>
      match quic.decodeQuicInteger1 cursor with
      | (None, _) => Break s []
      | (Some (first, second), cursor) =>
          let hdr := FrameHeader.mk (FrameHeader.type (curHeader_ s)) first in
          let parsed := second in
          let called :=
            if callback_ s
            then [onFrameHeader (streamId_ s) 0 first (FrameHeader.type hdr)]
            else [] in
          (* regardless of the header length we move to processing the
             payload; for DATA frames, payload streaming is supported *)
          if FrameHeader.type hdr =? DATA K then
            if transportSupportsPartialReliability H
               && (first =? kUnframedDataFrameLen K)
            then
              Parsed (set_frame s FRAME_PAYLOAD_PARTIALLY_RELIABLE_STREAMING hdr
                                first (connError_ s))
                     cursor parsed
                     (called ++ [onIngressPartiallyReliableBodyStarted
                                   (u64 (totalBytesParsed_ s + parsed))])
            else
              Parsed (set_frame s FRAME_PAYLOAD_STREAMING hdr first (connError_ s))
                     cursor parsed called
          else
            Parsed (set_frame s FRAME_PAYLOAD hdr first (connError_ s))
                   cursor parsed called
      end
  | FRAME_PAYLOAD =>
      (* Already parsed the common frame header *)
      let frameLen := FrameHeader.length (curHeader_ s) in
      if frameLen <=? bufLen then
        let '(err, cursor, called) := parseFrame s cursor in
        (* if connError_ is set there was a frame error, so it does not
           matter whether all the data was actually parsed *)
        Parsed (set_frame s FRAME_HEADER_TYPE (curHeader_ s)
                          (pendingDataFrameBytes_ s) err)
               cursor frameLen called
      else Break s []
  | FRAME_PAYLOAD_STREAMING =>
      let auxDataFrameHeader :=
        FrameHeader.mk (DATA K) (Z.min (pendingDataFrameBytes_ s) bufLen) in
      let '(err, cursor, called) := codec_parseData s cursor auxDataFrameHeader in
      let parsed := FrameHeader.length auxDataFrameHeader in
      let pending := u64 (pendingDataFrameBytes_ s - parsed) in
      Parsed (set_frame s
                        (if pending =? 0 then FRAME_HEADER_TYPE else frameState_ s)
                        (curHeader_ s) pending err)
             cursor parsed called
  | FRAME_PAYLOAD_PARTIALLY_RELIABLE_STREAMING =>
      let (err, cursor) := parsePartiallyReliableData H cursor in
      Parsed (set_frame s (frameState_ s) (curHeader_ s)
                        (pendingDataFrameBytes_ s) err)
             cursor bufLen []
  end.

(** What a call of [onFramedIngress] comes to: it returns, or the
    [CHECK_GE(bufLen, parsed)] of the loop aborts the process; [OutOfFuel]
    is the model's own and never occurs ([onFramedIngress_total]). *)
Inductive Ingress :=
| Returned (parsedTot : Z) (s : HQFramedCodec) (events : list Event)
| CheckFailed
| OutOfFuel.

Fixpoint ingressLoop (fuel : nat) (s : HQFramedCodec) (cursor : Cursor)
         (bufLen parsedTot : Z) (events : list Event) : Ingress :=
  if match connError_ s with None => true | Some _ => false end
     && (0 <? bufLen) && negb (parserPaused_ s)
  then
    match fuel with
    | O => OutOfFuel
    | S fuel =>
        match ingressTurn s cursor bufLen with
        | Break s called => Returned parsedTot s (events ++ called)
        | Parsed s cursor parsed called =>
            if bufLen <? parsed then CheckFailed
            else ingressLoop fuel (add_totalBytesParsed s parsed) cursor
                             (bufLen - parsed) (parsedTot + parsed)
                             (events ++ called)
        end
    end
  else Returned parsedTot s events.

Definition checkConnectionError (s : HQFramedCodec) (err : ParseResult)
  : bool * HQFramedCodec * list Event :=
  match err with
  | Some e =>
      let s := setParserPaused s true in
      (true, s,
       if callback_ s then [onError (kSessionStreamId K) e false] else [])
  | None => (false, s, [])
  end.

Definition onFramedIngress (s : HQFramedCodec) (buf : IOBuf) : Ingress :=
  (* if for some reason onFramedIngress gets called again after erroring
     out, skip parsing *)
  match connError_ s with
  | Some _ => Returned 0 s []
  | None =>
      let cursor : Cursor := buf in
      let bufLen := totalLength cursor in
      match ingressLoop (2 * List.length buf + 2) s cursor bufLen 0 [] with
      | Returned parsedTot s events =>
          let '(_, s, called) := checkConnectionError s (connError_ s) in
          Returned parsedTot s (events ++ called)
      | CheckFailed => CheckFailed
      | OutOfFuel => OutOfFuel
      end
  end.

(** A freshly constructed codec. *)
Definition newCodec (streamId : Z) (callback : bool) : HQFramedCodec :=
  {| streamId_ := streamId; callback_ := callback;
     frameState_ := FRAME_HEADER_TYPE; curHeader_ := FrameHeader.mk 0 0;
     pendingDataFrameBytes_ := 0; totalBytesParsed_ := 0;
     connError_ := None; parserPaused_ := false |}.

(** The operations a session performs on a codec, and a run of them. *)
Inductive Call :=
| CallIngress (buf : IOBuf)
| CallSetParserPaused (paused : bool).

(** The value returned, the codec and the calls made by one operation;
    [None] when the process has aborted. *)
Definition perform (s : HQFramedCodec) (c : Call)
  : option (Z * HQFramedCodec * list Event) :=
  match c with
  | CallIngress buf =>
      match onFramedIngress s buf with
      | Returned n s events => Some (n, s, events)
      | _ => None
      end
  | CallSetParserPaused paused => Some (0, setParserPaused s paused, [])
  end.

(** A run of operations: what each returned and the calls it made on the
    callback, in order; the run stops at an abort. *)
Fixpoint run (s : HQFramedCodec) (calls : list Call) : list (Z * list Event) :=
  match calls with
  | [] => []
  | c :: rest =>
      match perform s c with
      | Some (n, s, events) => (n, events) :: run s rest
      | None => []
      end
  end.

Definition run_events (s : HQFramedCodec) (calls : list Call) : list Event :=
  concat (map snd (run s calls)).

End FramedCodec.

(** ** HeaderDecodeInfo.cpp: the header-decode verifier *)

Module HPACK.
(** [DecodeError::NONE] and the other decode errors, by their code. *)
Inductive DecodeError := NONE | DECODE_ERROR (code : Z).
End HPACK.

(** The header codes [onHeader] tells apart; [HTTP_HEADER_COMMON n] is any
    other entry of the table of common header names. *)
Inductive HTTPHeaderCode :=
| HTTP_HEADER_OTHER
| HTTP_HEADER_COLON_METHOD
| HTTP_HEADER_COLON_SCHEME
| HTTP_HEADER_COLON_AUTHORITY
| HTTP_HEADER_COLON_PATH
| HTTP_HEADER_COLON_PROTOCOL
| HTTP_HEADER_COLON_STATUS
| HTTP_HEADER_CONNECTION
| HTTP_HEADER_CONTENT_LENGTH
| HTTP_HEADER_COMMON (n : Z).

Definition HTTPHeaderCode_eqb (a b : HTTPHeaderCode) : bool :=
  match a, b with
  | HTTP_HEADER_OTHER, HTTP_HEADER_OTHER
  | HTTP_HEADER_COLON_METHOD, HTTP_HEADER_COLON_METHOD
  | HTTP_HEADER_COLON_SCHEME, HTTP_HEADER_COLON_SCHEME
  | HTTP_HEADER_COLON_AUTHORITY, HTTP_HEADER_COLON_AUTHORITY
  | HTTP_HEADER_COLON_PATH, HTTP_HEADER_COLON_PATH
  | HTTP_HEADER_COLON_PROTOCOL, HTTP_HEADER_COLON_PROTOCOL
  | HTTP_HEADER_COLON_STATUS, HTTP_HEADER_COLON_STATUS
  | HTTP_HEADER_CONNECTION, HTTP_HEADER_CONNECTION
  | HTTP_HEADER_CONTENT_LENGTH, HTTP_HEADER_CONTENT_LENGTH => true
  | HTTP_HEADER_COMMON n, HTTP_HEADER_COMMON m => n =? m
  | _, _ => false
  end.

(** An [HPACKHeaderName]: the name and the code the name table gives it. *)
Record HPACKHeaderName := mkName {
  get : string;
  getHeaderCode : HTTPHeaderCode
}.

(** The part of [HTTPMessage] that [onHeader] writes: the status line and
    the header list, a header being stored under its code or, for
    [HTTP_HEADER_OTHER], under its name. *)
Inductive HeaderKey := ByName (name : string) | ByCode (code : HTTPHeaderCode).

Record HTTPMessage := mkMessage {
  statusCode : Z;
  statusMessage : string;
  headers : list (HeaderKey * string)
}.

(** What [onHeader] calls outside this file: the setters of the
    pseudo-header verifier (with the verifier's own state [V]),
    [folly::tryTo], the validators of [CodecUtil], and
    [HTTPMessage::getDefaultReason].  A setter answers whether the value is
    accepted; what it writes into the message of a request, to which the
    verifier holds a pointer, is left out, so the header list of a request
    is followed only as far as [onHeader] itself writes it. *)
Record HeaderLib (V : Type) := mkHeaderLib {
  setMethod : V -> string -> bool * V;
  setScheme : V -> string -> bool * V;
  setAuthority : V -> string -> bool * V;
  setPath : V -> string -> bool * V;
  setUpgradeProtocol : V -> string -> bool * V;
  tryTo_int32 : string -> option Z;
  tryTo_uint32 : string -> option Z;
  validateHeaderName : string -> bool;
  validateHeaderValue_STRICT : string -> bool;
  getDefaultReason : Z -> string
}.
Arguments setMethod {V}.
Arguments setScheme {V}.
Arguments setAuthority {V}.
Arguments setPath {V}.
Arguments setUpgradeProtocol {V}.
Arguments tryTo_int32 {V}.
Arguments tryTo_uint32 {V}.
Arguments validateHeaderName {V}.
Arguments validateHeaderValue_STRICT {V}.
Arguments getDefaultReason {V}.

Record HeaderDecodeInfo (V : Type) := mkInfo {
  msg : HTTPMessage;
  verifier : V;
  decodeError : HPACK.DecodeError;
  parsingError : string;
  isRequest_ : bool;
  isRequestTrailers_ : bool;
  hasStatus_ : bool;
  regularHeaderSeen_ : bool;
  pseudoHeaderSeen_ : bool;
  contentLength_ : option Z
}.
Arguments mkInfo {V}.
Arguments msg {V}.
Arguments verifier {V}.
Arguments decodeError {V}.
Arguments parsingError {V}.
Arguments isRequest_ {V}.
Arguments isRequestTrailers_ {V}.
Arguments hasStatus_ {V}.
Arguments regularHeaderSeen_ {V}.
Arguments pseudoHeaderSeen_ {V}.
Arguments contentLength_ {V}.

Section HeaderDecode.
Context {V : Type}.
Variable L : HeaderLib V.

Definition startsWith (s : string) (c : ascii) : bool :=
  match s with
  | EmptyString => false
  | String a _ => Ascii.eqb a c
  end.

Definition is_NONE (e : HPACK.DecodeError) : bool :=
  match e with HPACK.NONE => true | _ => false end.

Definition set_parsingError (i : HeaderDecodeInfo V) (e : string) : HeaderDecodeInfo V :=
  mkInfo (msg i) (verifier i) (decodeError i) e (isRequest_ i)
         (isRequestTrailers_ i) (hasStatus_ i) (regularHeaderSeen_ i)
         (pseudoHeaderSeen_ i) (contentLength_ i).

Definition set_verifier (i : HeaderDecodeInfo V) (v : V) : HeaderDecodeInfo V :=
  mkInfo (msg i) v (decodeError i) (parsingError i) (isRequest_ i)
         (isRequestTrailers_ i) (hasStatus_ i) (regularHeaderSeen_ i)
         (pseudoHeaderSeen_ i) (contentLength_ i).

Definition set_pseudoHeaderSeen (i : HeaderDecodeInfo V) : HeaderDecodeInfo V :=
  mkInfo (msg i) (verifier i) (decodeError i) (parsingError i) (isRequest_ i)
         (isRequestTrailers_ i) (hasStatus_ i) (regularHeaderSeen_ i)
         true (contentLength_ i).

Definition set_regularHeaderSeen (i : HeaderDecodeInfo V) : HeaderDecodeInfo V :=
  mkInfo (msg i) (verifier i) (decodeError i) (parsingError i) (isRequest_ i)
         (isRequestTrailers_ i) (hasStatus_ i) true
         (pseudoHeaderSeen_ i) (contentLength_ i).

Definition set_hasStatus (i : HeaderDecodeInfo V) : HeaderDecodeInfo V :=
  mkInfo (msg i) (verifier i) (decodeError i) (parsingError i) (isRequest_ i)
         (isRequestTrailers_ i) true (regularHeaderSeen_ i)
         (pseudoHeaderSeen_ i) (contentLength_ i).

Definition set_contentLength (i : HeaderDecodeInfo V) (cl : Z) : HeaderDecodeInfo V :=
  mkInfo (msg i) (verifier i) (decodeError i) (parsingError i) (isRequest_ i)
         (isRequestTrailers_ i) (hasStatus_ i) (regularHeaderSeen_ i)
         (pseudoHeaderSeen_ i) (Some cl).

Definition set_msg (i : HeaderDecodeInfo V) (m : HTTPMessage) : HeaderDecodeInfo V :=
  mkInfo m (verifier i) (decodeError i) (parsingError i) (isRequest_ i)
         (isRequestTrailers_ i) (hasStatus_ i) (regularHeaderSeen_ i)
         (pseudoHeaderSeen_ i) (contentLength_ i).

Definition setStatus (m : HTTPMessage) (code : Z) (reason : string) : HTTPMessage :=
  mkMessage code reason (headers m).

Definition addHeader (m : HTTPMessage) (k : HeaderKey) (value : string) : HTTPMessage :=
  mkMessage (statusCode m) (statusMessage m) (headers m ++ [(k, value)]).

(** The request branch of the pseudo-header [switch]: the setter the code
    selects, if any. *)
Definition requestSetter (headerCode : HTTPHeaderCode)
  : option (V -> string -> bool * V) :=
  match headerCode with
  | HTTP_HEADER_COLON_METHOD => Some (setMethod L)
  | HTTP_HEADER_COLON_SCHEME => Some (setScheme L)
  | HTTP_HEADER_COLON_AUTHORITY => Some (setAuthority L)
  | HTTP_HEADER_COLON_PATH => Some (setPath L)
  | HTTP_HEADER_COLON_PROTOCOL => Some (setUpgradeProtocol L)
  | _ => None
  end.

Definition onHeader (i : HeaderDecodeInfo V) (name : HPACKHeaderName)
           (value : string) : bool * HeaderDecodeInfo V :=
  (* Refuse decoding other headers if an error is already found *)
  if negb (is_NONE (decodeError i)) || negb (String.eqb (parsingError i) EmptyString)
  then (true, i)
  else
    let headerCode := getHeaderCode name in
    let nameSp := get name in
    let valueSp := value in
    if startsWith nameSp ":" then
      let i := set_pseudoHeaderSeen i in
      if regularHeaderSeen_ i then
        (false, set_parsingError i ("Illegal pseudo header name=" ++ nameSp))
      else if isRequest_ i then
        match requestSetter headerCode with
        | Some setter =>
            let (ok, v) := setter (verifier i) valueSp in
            let i := set_verifier i v in
            if negb ok then (false, i) else (true, i)
        | None =>
            (false, set_parsingError i ("Invalid req header name=" ++ nameSp))
        end
      else if HTTPHeaderCode_eqb headerCode HTTP_HEADER_COLON_STATUS then
        if hasStatus_ i then (false, set_parsingError i "Duplicate status")
        else
          let i := set_hasStatus i in
          let code := match tryTo_int32 L valueSp with
                      | Some num => num
                      | None => -1
                      end in
          if (100 <=? code) && (code <=? 999) then
            (true, set_msg i (setStatus (msg i) code (getDefaultReason L code)))
          else
            (false, set_parsingError i ("Malformed status code=" ++ valueSp))
      else
        (false, set_parsingError i ("Invalid resp header name=" ++ nameSp))
    else
      let i := set_regularHeaderSeen i in
      if HTTPHeaderCode_eqb headerCode HTTP_HEADER_CONNECTION then
        (false, set_parsingError i "HTTP/2 Message with Connection header")
      else
        let checked :=
          if HTTPHeaderCode_eqb headerCode HTTP_HEADER_CONTENT_LENGTH then
            let cl := match tryTo_uint32 L valueSp with
                      | Some num => num
                      | None => 0
                      end in
            match contentLength_ i with
            | Some recorded =>
                if negb (recorded =? cl) then
                  (false, set_parsingError i "Multiple content-length headers")
                else (true, set_contentLength i cl)
            | None => (true, set_contentLength i cl)
            end
          else (true, i) in
        let (go_on, i) := checked in
        if negb go_on then (false, i)
        else
          let nameOk :=
            negb (HTTPHeaderCode_eqb headerCode HTTP_HEADER_OTHER)
            || validateHeaderName L nameSp in
          let valueOk := validateHeaderValue_STRICT L valueSp in
          if negb nameOk || negb valueOk then
            (false,
             set_parsingError i ("Bad header value: name=" ++ nameSp
                                 ++ " value=" ++ valueSp))
          else
            (* Add the (name, value) pair to headers *)
            if HTTPHeaderCode_eqb headerCode HTTP_HEADER_OTHER then
              (true, set_msg i (addHeader (msg i) (ByName nameSp) valueSp))
            else
              (true, set_msg i (addHeader (msg i) (ByCode headerCode) valueSp))
    .

(** Feeding a list of fields in order: the answers and the final state. *)
Fixpoint onHeaders (i : HeaderDecodeInfo V) (fields : list (HPACKHeaderName * string))
  : list bool * HeaderDecodeInfo V :=
  match fields with
  | [] => ([], i)
  | (name, value) :: rest =>
      let (r, i) := onHeader i name value in
      let (rs, i) := onHeaders i rest in
      (r :: rs, i)
  end.

End HeaderDecode.

(** ** Vocabulary of the statements *)

Definition is_onError (e : Event) : bool :=
  match e with onError _ _ _ => true | _ => false end.

Definition count_onError (events : list Event) : nat :=
  List.length (filter is_onError events).

(** The calls made in one turn of the loop. *)
Definition turn_events (t : Turn) : list Event :=
  match t with
  | Break _ events => events
  | Parsed _ _ _ events => events
  end.

(** An [onError] is the last call of a list. *)
Definition error_comes_last (events : list Event) : Prop :=
  forall pre x post,
    events = pre ++ x :: post -> is_onError x = true -> post = [].

(** [serialize]: the writer of each frame kind. *)
Definition writeFrame (K : HQConstants) (queue : IOBufQueue) (f : Frame)
  : WriteResult * IOBufQueue :=
  match f with
  | FData data => writeData K queue data
  | FHeaders data => writeHeaders K queue data
  | FPriority priority => writePriority K queue priority
  | FCancelPush pushId => writeCancelPush K queue pushId
  | FSettings settings => writeSettings K queue settings
  | FPushPromise pushId data => writePushPromise K queue pushId data
  | FGoaway lastStreamId => writeGoaway K queue lastStreamId
  | FMaxPushId maxPushId => writeMaxPushId K queue maxPushId
  end.

Definition frameTypeOf (K : HQConstants) (f : Frame) : FrameType :=
  match f with
  | FData _ => DATA K
  | FHeaders _ => HEADERS K
  | FPriority _ => PRIORITY K
  | FCancelPush _ => CANCEL_PUSH K
  | FSettings _ => SETTINGS K
  | FPushPromise _ _ => PUSH_PROMISE K
  | FGoaway _ => GOAWAY K
  | FMaxPushId _ => MAX_PUSH_ID K
  end.

(** The PRIORITY flag byte keeps its four fields apart. *)
Definition flags_layout_ok (K : HQConstants) : bool :=
  let mp := Z.shiftl 0x03 (PRIORITIZED_TYPE_POS K) in
  let md := Z.shiftl 0x03 (DEPENDENCY_TYPE_POS K) in
  let me := Z.shiftl 0x07 (PRIORITY_EMPTY_POS K) in
  let mx := PRIORITY_EXCLUSIVE_MASK K in
  in_range 0 7 (PRIORITIZED_TYPE_POS K) && in_range 0 7 (DEPENDENCY_TYPE_POS K)
  && in_range 0 6 (PRIORITY_EMPTY_POS K) && in_range 1 256 mx
  && (Z.land mp md =? 0) && (Z.land mp me =? 0) && (Z.land mp mx =? 0)
  && (Z.land md me =? 0) && (Z.land md mx =? 0) && (Z.land me mx =? 0).

(** What a round trip over the wire needs of the header's constants: the
    frame types and setting identifiers have a varint encoding, and the
    push-id sentinel lies above the 62 bits a varint carries. *)
Definition wire_ok (K : HQConstants) : bool :=
  constants_ok K
  && forallb (fun t => t <=? quic.kEightByteLimit) (frame_types K ++ setting_ids K)
  && (Z.land (kPushIdMask K) (Z.ones 62) =? 0)
  && flags_layout_ok K.

(** A push id in internal form: the sentinel set over an identifier that
    has a varint encoding. *)
Definition valid_pushId (K : HQConstants) (pushId : PushId) : Prop :=
  exists id, 0 <= id <= quic.kEightByteLimit
             /\ pushId = Z.lor id (kPushIdMask K).

Definition valid_priority (fresh : PriorityUpdate) (p : PriorityUpdate) : Prop :=
  prioritizedType p <> TREE_ROOT
  /\ 0 <= prioritizedElementId p <= quic.kEightByteLimit
  /\ (dependencyType p <> TREE_ROOT ->
      0 <= elementDependencyId p <= quic.kEightByteLimit)
  /\ (dependencyType p = TREE_ROOT ->
      elementDependencyId p = elementDependencyId fresh)
  /\ 0 <= weight p < 256.

(** The constraints of the data model on a frame value ([fresh] is the
    [PriorityUpdate] a receiver starts from: a PRIORITY frame that depends
    on the root carries no element dependency id). *)
Definition valid_frame (K : HQConstants) (fresh : PriorityUpdate) (f : Frame) : Prop :=
  match f with
  | FData data => data <> []
  | FHeaders _ => True
  | FPriority p => valid_priority fresh p
  | FCancelPush pushId => valid_pushId K pushId
  | FSettings settings =>
      Forall (fun pr => isKnownSetting K (fst pr) = true
                        /\ 0 <= snd pr <= quic.kEightByteLimit) settings
  | FPushPromise pushId _ => valid_pushId K pushId
  | FGoaway lastStreamId => 0 <= lastStreamId
  | FMaxPushId maxPushId => valid_pushId K maxPushId
  end.

(** The wire form of one varint: a byte string whose length is the class
    its first byte announces, and the value it carries. *)
Definition varint_class (firstByte : byte) : Z := 2 ^ (byte.unsigned firstByte / 64).

Definition is_varint (bs : list byte) (v : Z) : Prop :=
  match bs with
  | [] => False
  | b :: _ =>
      Z.of_nat (List.length bs) = varint_class b
      /\ v = be_combine bs mod 2 ^ (8 * varint_class b - 2)
  end.

(** The payload of a SETTINGS frame as the specification reads it: pairs
    of an identifier and a value, up to the end of the payload. *)
Inductive settings_pairs : list byte -> list SettingPair -> Prop :=
| pairs_done : settings_pairs [] []
| pairs_more (b1 b2 rest : list byte) (id v : Z) (ps : list SettingPair) :
    is_varint b1 id -> is_varint b2 v -> settings_pairs rest ps ->
    settings_pairs (b1 ++ b2 ++ rest) ((id, v) :: ps).

(** The PRIORITY payload as the specification reads it.  [varint_at]
    is the length class of the varint that starts at an offset, and
    [priority_extent] the number of bytes the fields take: flags, the
    prioritized element id, the element dependency id unless the dependency
    is the root, and the weight.  It is [None] when a field starts beyond
    the payload. *)
Definition varint_at (payload : list byte) (off : Z) : option Z :=
  if off <? 0 then None
  else option_map varint_class (nth_error payload (Z.to_nat off)).

Definition flags_prioritizedType (K : HQConstants) (flags : Z) : PriorityElementType :=
  PriorityElementType_of_Z
    (Z.shiftr (Z.land flags (Z.shiftl 0x03 (PRIORITIZED_TYPE_POS K)))
              (PRIORITIZED_TYPE_POS K)).

Definition flags_dependencyType (K : HQConstants) (flags : Z) : PriorityElementType :=
  PriorityElementType_of_Z
    (Z.shiftr (Z.land flags (Z.shiftl 0x03 (DEPENDENCY_TYPE_POS K)))
              (DEPENDENCY_TYPE_POS K)).

Definition flags_exclusive (K : HQConstants) (flags : Z) : bool :=
  negb (Z.land flags (PRIORITY_EXCLUSIVE_MASK K) =? 0).

Definition flags_empty (K : HQConstants) (flags : Z) : Z :=
  u8 (Z.land flags (Z.shiftl 0x07 (PRIORITY_EMPTY_POS K))).

Definition priority_extent (K : HQConstants) (payload : list byte) : option Z :=
  match payload with
  | [] => None
  | flags :: _ =>
      match varint_at payload 1 with
      | None => None
      | Some n1 =>
          if PriorityElementType_eqb
               (flags_dependencyType K (byte.unsigned flags)) TREE_ROOT
          then Some (1 + n1 + 1)
          else
            match varint_at payload (1 + n1) with
            | None => None
            | Some n2 => Some (1 + n1 + n2 + 1)
            end
      end
  end.

(** The four ways the claim lists for a PRIORITY frame of declared length
    [len] to be invalid. *)
Definition empty_bits_set (K : HQConstants) (payload : list byte) : Prop :=
  exists flags rest, payload = flags :: rest /\ flags_empty K (byte.unsigned flags) <> 0.

Definition prioritizes_root (K : HQConstants) (payload : list byte) : Prop :=
  exists flags rest, payload = flags :: rest
    /\ flags_prioritizedType K (byte.unsigned flags) = TREE_ROOT.

Definition field_cut_short (K : HQConstants) (payload : list byte) (len : Z) : Prop :=
  match priority_extent K payload with
  | None => True
  | Some n => len < n
  end.

Definition residual_left (K : HQConstants) (payload : list byte) (len : Z) : Prop :=
  match priority_extent K payload with
  | None => False
  | Some n => n < len
  end.

Definition priority_invalid (K : HQConstants) (payload : list byte) (len : Z) : Prop :=
  empty_bits_set K payload \/ prioritizes_root K payload
  \/ field_cut_short K payload len \/ residual_left K payload len.

(** The value of the varint that starts at an offset of the payload. *)
Definition varint_value_at (payload : list byte) (off : Z) : Z :=
  match varint_at payload off with
  | None => 0
  | Some n =>
      be_combine (firstn (Z.to_nat n) (skipn (Z.to_nat off) payload))
        mod 2 ^ (8 * n - 2)
  end.

(** The content length [onHeader] reads off a value: the number, or 0 when
    the conversion fails. *)
Definition parsed_content_length {V : Type} (L : HeaderLib V) (value : string) : Z :=
  match tryTo_uint32 L value with
  | Some num => num
  | None => 0
  end.

(** A regular (not pseudo) header whose code is [HTTP_HEADER_CONTENT_LENGTH]. *)
Definition is_content_length (name : HPACKHeaderName) : Prop :=
  startsWith (get name) ":" = false
  /\ getHeaderCode name = HTTP_HEADER_CONTENT_LENGTH.

(** No error has been recorded. *)
Definition no_error {V : Type} (i : HeaderDecodeInfo V) : Prop :=
  decodeError i = HPACK.NONE /\ parsingError i = EmptyString.

(** The pairs [parseSettings] reports: those with a known identifier. *)
Definition reported (K : HQConstants) (ps : list SettingPair) : list SettingPair :=
  filter (fun pr : SettingPair => isKnownSetting K (fst pr)) ps.

Definition byte_at (payload : list byte) (off : Z) : Z :=
  match nth_error payload (Z.to_nat off) with
  | Some b => byte.unsigned b
  | None => 0
  end.

(** The [PriorityUpdate] a well-formed payload of [len] bytes stands for;
    [out] is the value the caller passed in, whose element dependency id
    stays when the payload has none. *)
Definition priority_of_payload (K : HQConstants) (payload : list byte) (len : Z)
           (out : PriorityUpdate) : PriorityUpdate :=
  let flags := byte_at payload 0 in
  let dt := flags_dependencyType K flags in
  {| prioritizedType := flags_prioritizedType K flags;
     dependencyType := dt;
     exclusive := flags_exclusive K flags;
     prioritizedElementId := varint_value_at payload 1;
     elementDependencyId :=
       if PriorityElementType_eqb dt TREE_ROOT then elementDependencyId out
       else match varint_at payload 1 with
            | Some n1 => varint_value_at payload (1 + n1)
            | None => 0
            end;
     weight := byte_at payload (len - 1) |}.

(** The flag byte of a PRIORITY frame read back: what a layout of the
    flag byte has to get right, for the sixteen pairs of types and both
    values of the exclusive flag. *)
Definition element_types : list PriorityElementType :=
  [REQUEST_STREAM; PUSH_STREAM; PLACEHOLDER; TREE_ROOT].

Definition flags_read_back (K : HQConstants) (pt dt : PriorityElementType)
           (ex : bool) : bool :=
  let flags := encodePriorityFlags K (mkPriorityUpdate pt dt ex 0 0 0) in
  in_range 0 256 flags
  && PriorityElementType_eqb (flags_prioritizedType K flags) pt
  && PriorityElementType_eqb (flags_dependencyType K flags) dt
  && Bool.eqb (flags_exclusive K flags) ex
  && (flags_empty K flags =? 0).

Definition flags_roundtrip_check (K : HQConstants) : bool :=
  forallb (fun pt =>
    forallb (fun dt =>
      forallb (fun ex => flags_read_back K pt dt ex) [false; true])
      element_types)
    element_types.

(** The constants with a given layout of the flag byte and nothing else. *)
Definition layout_constants (pos_pt pos_dt pos_empty mask_ex : Z) : HQConstants :=
  mkHQConstants 0 0 0 pos_pt pos_dt pos_empty mask_ex 0 0 0 0 0 0 0 0 0 0 0 0.

Definition zrange (lo : Z) (count : nat) : list Z :=
  map (fun i => lo + Z.of_nat i) (seq 0 count).

Definition layout_check (pos_pt pos_dt pos_empty mask_ex : Z) : bool :=
  let K := layout_constants pos_pt pos_dt pos_empty mask_ex in
  if flags_layout_ok K then flags_roundtrip_check K else true.

(** The payloads the writers build. *)
Definition priority_payload (K : HQConstants) (p : PriorityUpdate) : list byte :=
  [byte.of_Z (encodePriorityFlags K p)]
    ++ varint_bytes (prioritizedElementId p)
    ++ (if PriorityElementType_eqb (dependencyType p) TREE_ROOT then []
        else varint_bytes (elementDependencyId p))
    ++ [byte.of_Z (weight p)].

Definition settings_payload (settings : list SettingPair) : list byte :=
  concat (map (fun pr : SettingPair => varint_bytes (fst pr) ++ varint_bytes (snd pr))
              settings).

Definition framePayload (K : HQConstants) (f : Frame) : list byte :=
  match f with
  | FData data => data
  | FHeaders data => data
  | FPriority p => priority_payload K p
  | FCancelPush pushId => varint_bytes (clearPushIdMask K pushId)
  | FSettings settings => settings_payload settings
  | FPushPromise pushId data => varint_bytes (clearPushIdMask K pushId) ++ data
  | FGoaway lastStreamId => varint_bytes lastStreamId
  | FMaxPushId maxPushId => varint_bytes (clearPushIdMask K maxPushId)
  end.

(** The identifiers and values of a frame have a varint encoding. *)
Definition fields_fit (K : HQConstants) (f : Frame) : Prop :=
  match f with
  | FData _ | FHeaders _ => True
  | FPriority p =>
      prioritizedElementId p <= quic.kEightByteLimit
      /\ (dependencyType p <> TREE_ROOT ->
          elementDependencyId p <= quic.kEightByteLimit)
  | FCancelPush pushId | FPushPromise pushId _ | FMaxPushId pushId =>
      clearPushIdMask K pushId <= quic.kEightByteLimit
  | FSettings settings =>
      Forall (fun pr : SettingPair => fst pr <= quic.kEightByteLimit
                                      /\ snd pr <= quic.kEightByteLimit) settings
  | FGoaway lastStreamId => lastStreamId <= quic.kEightByteLimit
  end.

(** ** Instances used by the examples *)

(** A codec that allows every frame type and has no partial reliability. *)
Definition stream_hooks : CodecHooks := {|
  checkFrameAllowed := fun _ => None;
  transportSupportsPartialReliability := false;
  parsePartiallyReliableData := fun c => (None, c);
  freshPriority := mkPriorityUpdate REQUEST_STREAM REQUEST_STREAM false 0 0 0
|}.

(** The same over a transport with partial reliability. *)
Definition pr_hooks : CodecHooks := {|
  checkFrameAllowed := fun _ => None;
  transportSupportsPartialReliability := true;
  parsePartiallyReliableData := fun c => (None, c);
  freshPriority := mkPriorityUpdate REQUEST_STREAM REQUEST_STREAM false 0 0 0
|}.

(** Decimal digits to a number below a bound: the conversions the examples
    use for [folly::tryTo]. *)
Definition digit_of (c : ascii) : option Z :=
  let n := Z.of_nat (nat_of_ascii c) in
  if (48 <=? n) && (n <=? 57) then Some (n - 48) else None.

Fixpoint decimal_from (acc : Z) (s : string) : option Z :=
  match s with
  | EmptyString => Some acc
  | String c rest =>
      match digit_of c with
      | Some d => decimal_from (acc * 10 + d) rest
      | None => None
      end
  end.

Definition decimal_below (bound : Z) (s : string) : option Z :=
  match s with
  | EmptyString => None
  | _ => match decimal_from 0 s with
         | Some n => if n <? bound then Some n else None
         | None => None
         end
  end.

(** No CR, LF or NUL in a header value. *)
Fixpoint no_ctl (s : string) : bool :=
  match s with
  | EmptyString => true
  | String c rest =>
      let n := nat_of_ascii c in
      negb (Nat.eqb n 0 || Nat.eqb n 10 || Nat.eqb n 13) && no_ctl rest
  end.

Definition example_lib : HeaderLib unit := {|
  setMethod := fun v _ => (true, v);
  setScheme := fun v _ => (true, v);
  setAuthority := fun v _ => (true, v);
  setPath := fun v _ => (true, v);
  setUpgradeProtocol := fun v _ => (true, v);
  tryTo_int32 := decimal_below (2 ^ 31);
  tryTo_uint32 := decimal_below (2 ^ 32);
  validateHeaderName := fun _ => true;
  validateHeaderValue_STRICT := no_ctl;
  getDefaultReason := fun _ => "-"%string
|}.

Definition newInfo (isRequest : bool) : HeaderDecodeInfo unit :=
  mkInfo (mkMessage 0 EmptyString []) tt HPACK.NONE EmptyString isRequest
         false false false false None.

Definition content_length : HPACKHeaderName :=
  mkName "content-length" HTTP_HEADER_CONTENT_LENGTH.

(** ** HQFramer.cpp: grease identifiers and frame type names *)

(** Modelled from the spec: [kMaxGreaseIdIndex] of HQFramer.h (not under
    src/), the largest index [n] for which 0x21 + 0x1F n < 2^62. *)
Definition kMaxGreaseIdIndex : Z := 0x210842108421083.

Definition getGreaseId (n : Z) : option Z :=
  if kMaxGreaseIdIndex <? n then None
  else Some (u64 (u64 (0x1F * n) + 0x21)).

Definition getFrameTypeString (K : HQConstants) (type : FrameType) : string :=
  if type =? DATA K then "DATA"
  else if type =? HEADERS K then "HEADERS"
  else if type =? PRIORITY K then "PRIORITY"
  else if type =? CANCEL_PUSH K then "CANCEL_PUSH"
  else if type =? SETTINGS K then "SETTINGS"
  else if type =? PUSH_PROMISE K then "PUSH_PROMISE"
  else if type =? GOAWAY K then "GOAWAY"
  else if type =? MAX_PUSH_ID K then "MAX_PUSH_ID"
  else if isGreaseId type then "GREASE"
  else (* can happen when type was cast from uint8_t *) "Unknown".

(** ** Vocabulary of the further properties *)

(** The three [uint64_t] counters of a codec are in range. *)
Definition codec_fields_ok (s : HQFramedCodec) : Prop :=
  0 <= FrameHeader.length (curHeader_ s) < 2 ^ 64
  /\ 0 <= pendingDataFrameBytes_ s < 2 ^ 64
  /\ 0 <= totalBytesParsed_ s < 2 ^ 64.

(** What bounds the turns the loop of [onFramedIngress] has left: two for
    each byte ahead, and one more in [FRAME_PAYLOAD], the only state whose
    turn may read no byte. *)
Definition turns_left (s : HQFramedCodec) (bufLen : Z) : Z :=
  2 * bufLen + match frameState_ s with FRAME_PAYLOAD => 1 | _ => 0 end.

(** The error each typed parser of [parseFrame] answers with; HEADERS
    frames and frames of an unknown type have none. *)
Definition frame_errors (K : HQConstants) : list (FrameType * ErrorCode) :=
  [(DATA K, HTTP_MALFORMED_FRAME_DATA);
   (PRIORITY K, HTTP_MALFORMED_FRAME_PRIORITY);
   (CANCEL_PUSH K, HTTP_MALFORMED_FRAME_CANCEL_PUSH);
   (SETTINGS K, HTTP_MALFORMED_FRAME_SETTINGS);
   (PUSH_PROMISE K, HTTP_MALFORMED_FRAME_PUSH_PROMISE);
   (GOAWAY K, HTTP_MALFORMED_FRAME_GOAWAY);
   (MAX_PUSH_ID K, HTTP_MALFORMED_FRAME_MAX_PUSH_ID)].

(** What [checkConnectionError] tells the callback about an error. *)
Definition error_report (K : HQConstants) (s : HQFramedCodec) (e : ErrorCode)
  : list Event :=
  if callback_ s then [onError (kSessionStreamId K) e false] else [].

(** The [onFrameHeader] call of a frame header that has been read. *)
Definition header_report (s : HQFramedCodec) (type length : Z) : list Event :=
  if callback_ s then [onFrameHeader (streamId_ s) 0 length type] else [].

(** The names of the eight frame types, in the order of [frame_types]. *)
Definition frame_type_names_list : list string :=
  ["DATA"; "HEADERS"; "PRIORITY"; "CANCEL_PUSH"; "SETTINGS"; "PUSH_PROMISE";
   "GOAWAY"; "MAX_PUSH_ID"]%string.

(** The outcome of a parser whose payload has to be one varint and nothing
    else: the value is handed out (as [value] makes it) with the cursor at
    [rest], or the payload is no varint and the answer is [malformed]. *)
Definition one_varint_payload (payload : list byte)
           (r : ParseResult * Z * Cursor) (malformed : ErrorCode)
           (value : Z -> Z) (rest : Cursor) : Prop :=
  (exists v, is_varint payload v /\ r = (None, value v, rest))
  \/ ((forall w, ~ is_varint payload w) /\ fst (fst r) = Some malformed).

(** A flag byte that decodes is the one [encodePriorityFlags] builds from
    what was decoded; checked for the 256 flag bytes of a layout. *)
Definition flags_write_back (K : HQConstants) (flags : Z) : bool :=
  let (ok, p) :=
    decodePriorityFlags K flags
      (mkPriorityUpdate REQUEST_STREAM REQUEST_STREAM false 0 0 0) in
  if ok then encodePriorityFlags K p =? flags else true.

Definition layout_check_back (pos_pt pos_dt pos_empty mask_ex : Z) : bool :=
  let K := layout_constants pos_pt pos_dt pos_empty mask_ex in
  if flags_layout_ok K then forallb (flags_write_back K) (zrange 0 256) else true.

(** ** HeaderDecodeInfo.cpp: the end of a header block *)

(** What [onHeadersComplete] calls outside this file: [validate()] and
    [error] of the pseudo-header verifier, and [combine] and [set] of
    [HTTPHeaders], with the code of the Cookie header. *)
Record CompleteLib (V : Type) := mkCompleteLib {
  verifier_validate : V -> bool * V;
  verifier_error : V -> string;
  HTTP_HEADER_COOKIE : HTTPHeaderCode;
  headers_combine : list (HeaderKey * string) -> HTTPHeaderCode -> string -> string;
  headers_set : list (HeaderKey * string) -> HTTPHeaderCode -> string
                -> list (HeaderKey * string)
}.
Arguments verifier_validate {V}.
Arguments verifier_error {V}.
Arguments HTTP_HEADER_COOKIE {V}.
Arguments headers_combine {V}.
Arguments headers_set {V}.

Section HeadersComplete.
Context {V Size : Type}.
Variable C : CompleteLib V.

Definition setHeaders (m : HTTPMessage) (hs : list (HeaderKey * string))
  : HTTPMessage :=
  mkMessage (statusCode m) (statusMessage m) hs.

(** [onHeadersComplete(decodedSize)].  The record [HTTPMessage] above has
    no field for what [setHTTPVersion] and [setIngressHeaderSize] write:
    the version and the size are returned beside the state, [None] when
    the function returns before it reaches them. *)
Definition onHeadersComplete (i : HeaderDecodeInfo V) (decodedSize : Size)
  : HeaderDecodeInfo V * option (Z * Z * Size) :=
  let checked :=
    if isRequest_ i && negb (isRequestTrailers_ i) then
      let combinedCookie :=
        headers_combine C (headers (msg i)) (HTTP_HEADER_COOKIE C) "; " in
      let i :=
        if negb (String.eqb combinedCookie EmptyString) then
          set_msg i (setHeaders (msg i)
                       (headers_set C (headers (msg i)) (HTTP_HEADER_COOKIE C)
                                    combinedCookie))
        else i in
      let (ok, v) := verifier_validate C (verifier i) in
      let i := set_verifier i v in
      if negb ok then (false, set_parsingError i (verifier_error C v))
      else (true, i)
    else (true, i) in
  let (go_on, i) := checked in
  if negb go_on then (i, None)
  else
    let isResponseTrailers := negb (isRequest_ i) && negb (hasStatus_ i) in
    if (isRequestTrailers_ i || isResponseTrailers) && pseudoHeaderSeen_ i then
      (set_parsingError i "Pseudo headers forbidden in trailers.", None)
    else (i, Some (1, 1, decodedSize)).

Definition hasStatus (i : HeaderDecodeInfo V) : bool := hasStatus_ i.

End HeadersComplete.

(** A pseudo-header field is one whose name starts with a colon. *)
Definition is_pseudo (field : HPACKHeaderName * string) : bool :=
  startsWith (get (fst field)) ":".

(** The entry [onHeader] adds to the message for a regular field: under the
    name for [HTTP_HEADER_OTHER], under the code otherwise. *)
Definition header_entry (field : HPACKHeaderName * string) : HeaderKey * string :=
  (if HTTPHeaderCode_eqb (getHeaderCode (fst field)) HTTP_HEADER_OTHER
   then ByName (get (fst field)) else ByCode (getHeaderCode (fst field)),
   snd field).

(** ** CompressionInfo.h and QPACKCodec.h: table statistics *)

(** [struct CompressionInfoPart]: seven [uint32_t] counters. *)
Record CompressionInfoPart := mkCompressionInfoPart {
  headerTableSize_ : Z;
  bytesStored_ : Z;
  headersStored_ : Z;
  inserts_ : Z;
  blockedInserts_ : Z;
  duplications_ : Z;
  staticRefs_ : Z
}.

(** [struct CompressionInfo]: the encoder's table and the decoder's. *)
Record CompressionInfo := mkCompressionInfo {
  egress : CompressionInfoPart;
  ingress : CompressionInfoPart
}.

(** The constructor with fourteen arguments. *)
Definition CompressionInfo_of
           (egressHeaderTableSize egressBytesStored egressHeadersStored
            egressInserts egressBlockedInserts egressDuplications
            egressStaticRefs
            ingressHeaderTableSize ingressBytesStored ingressHeadersStored
            ingressInserts ingressBlockedInserts ingressDuplications
            ingressStaticRefs : Z) : CompressionInfo :=
  {| egress := mkCompressionInfoPart egressHeaderTableSize egressBytesStored
                 egressHeadersStored egressInserts egressBlockedInserts
                 egressDuplications egressStaticRefs;
     ingress := mkCompressionInfoPart ingressHeaderTableSize ingressBytesStored
                  ingressHeadersStored ingressInserts ingressBlockedInserts
                  ingressDuplications ingressStaticRefs |}.

(** [CompressionInfo::operator==]. *)
Definition CompressionInfo_eqb (a tableInfo : CompressionInfo) : bool :=
  (headerTableSize_ (egress a) =? headerTableSize_ (egress tableInfo))
  && (bytesStored_ (egress a) =? bytesStored_ (egress tableInfo))
  && (headersStored_ (egress a) =? headersStored_ (egress tableInfo))
  && (headerTableSize_ (ingress a) =? headerTableSize_ (ingress tableInfo))
  && (bytesStored_ (ingress a) =? bytesStored_ (ingress tableInfo))
  && (headersStored_ (ingress a) =? headersStored_ (ingress tableInfo)).

(** What [QPACKCodec::getCompressionInfo] reads off its encoder and its
    decoder (QPACKEncoder.h and QPACKDecoder.h are not under src/). *)
Record TableStats := mkTableStats {
  getTableSize : Z;
  getBytesStored : Z;
  getHeadersStored : Z;
  getInsertCount : Z;
  getBlockedInserts : Z;
  getDuplications : Z;
  getStaticRefs : Z
}.

Definition getCompressionInfo (encoder_ decoder_ : TableStats) : CompressionInfo :=
  CompressionInfo_of (getTableSize encoder_) (getBytesStored encoder_)
                     (getHeadersStored encoder_) (getInsertCount encoder_)
                     (getBlockedInserts encoder_) (getDuplications encoder_)
                     (getStaticRefs encoder_)
                     (getTableSize decoder_) (getBytesStored decoder_)
                     (getHeadersStored decoder_) (getInsertCount decoder_)
                     0 (* decoder can't track blocked inserts *)
                     (getDuplications decoder_) (getStaticRefs decoder_).

(** The three fields of a table that [operator==] compares. *)
Definition table_shape (p : CompressionInfoPart) : Z * Z * Z :=
  (headerTableSize_ p, bytesStored_ p, headersStored_ p).

(** ** Further instances used by the examples *)

(** A codec that refuses SETTINGS frames, as the codec of a request stream
    does, with the code of a frame on the wrong stream. *)
Definition request_stream_hooks : CodecHooks := {|
  checkFrameAllowed := fun t => if t =? 0x04 then Some (HTTP_ERROR 0x0A) else None;
  transportSupportsPartialReliability := false;
  parsePartiallyReliableData := fun c => (None, c);
  freshPriority := mkPriorityUpdate REQUEST_STREAM REQUEST_STREAM false 0 0 0
|}.

(** A verifier that accepts everything and headers without cookies. *)
Definition example_complete : CompleteLib unit := {|
  verifier_validate := fun v => (true, v);
  verifier_error := fun _ => EmptyString;
  HTTP_HEADER_COOKIE := HTTP_HEADER_COMMON 0;
  headers_combine := fun _ _ _ => EmptyString;
  headers_set := fun hs _ _ => hs
|}.

Definition colon_status : HPACKHeaderName :=
  mkName ":status" HTTP_HEADER_COLON_STATUS.

Definition colon_method : HPACKHeaderName :=
  mkName ":method" HTTP_HEADER_COLON_METHOD.

Definition connection : HPACKHeaderName :=
  mkName "connection" HTTP_HEADER_CONNECTION.

Definition x_custom : HPACKHeaderName := mkName "x-custom" HTTP_HEADER_OTHER.

(** The state of request trailers. *)
Definition newTrailers : HeaderDecodeInfo unit :=
  mkInfo (mkMessage 0 EmptyString []) tt HPACK.NONE EmptyString true
         true false false false None.

(** * Properties *)

(** ** Bytes and big-endian strings *)

Lemma u64_small (x : Z) : 0 <= x < 2 ^ 64 -> u64 x = x.
Proof. intros Hx. unfold u64. apply Z.mod_small. exact Hx. Qed.

Lemma u64_range (x : Z) : 0 <= u64 x < 2 ^ 64.
Proof. unfold u64. apply Z.mod_pos_bound. reflexivity. Qed.

Lemma totalLength_nonneg (c : Cursor) : 0 <= totalLength c.
Proof. unfold totalLength. lia. Qed.

Lemma length_be_split (n : nat) (w : Z) : List.length (be_split n w) = n.
Proof. induction n as [|n IH]; simpl; [reflexivity | now rewrite IH]. Qed.

Lemma be_fold_shift (bs : list byte) (acc : Z) :
  fold_left (fun a b => a * 256 + byte.unsigned b) bs acc
  = acc * 2 ^ (8 * Z.of_nat (List.length bs)) + be_combine bs.
Proof.
  unfold be_combine. revert acc.
  induction bs as [|b bs IH]; intros acc.
  - simpl. lia.
  - cbn [fold_left List.length]. rewrite IH, (IH (0 * 256 + byte.unsigned b)).
    replace (8 * Z.of_nat (S (List.length bs)))
      with (8 + 8 * Z.of_nat (List.length bs)) by lia.
    rewrite Z.pow_add_r by lia. change (2 ^ 8) with 256. ring.
Qed.

Lemma be_combine_cons (b : byte) (bs : list byte) :
  be_combine (b :: bs)
  = byte.unsigned b * 2 ^ (8 * Z.of_nat (List.length bs)) + be_combine bs.
Proof.
  unfold be_combine at 1. cbn [fold_left]. rewrite be_fold_shift. ring.
Qed.

Lemma be_combine_range (bs : list byte) :
  0 <= be_combine bs < 2 ^ (8 * Z.of_nat (List.length bs)).
Proof.
  induction bs as [|b bs IH].
  - cbv. split; [discriminate | reflexivity].
  - rewrite be_combine_cons.
    pose proof (byte.unsigned_range b) as Hb. change (2 ^ 8) with 256 in Hb.
    replace (8 * Z.of_nat (List.length (b :: bs)))
      with (8 + 8 * Z.of_nat (List.length bs)) by (cbn [List.length]; lia).
    rewrite Z.pow_add_r by lia. change (2 ^ 8) with 256.
    set (P := 2 ^ (8 * Z.of_nat (List.length bs))) in *. nia.
Qed.

Lemma be_combine_split (n : nat) (w : Z) :
  be_combine (be_split n w) = w mod 2 ^ (8 * Z.of_nat n).
Proof.
  induction n as [|n IH].
  - cbn. now rewrite Z.mod_1_r.
  - cbn [be_split]. rewrite be_combine_cons, IH, length_be_split,
      byte.unsigned_of_Z.
    unfold byte.wrap.
    set (P := 2 ^ (8 * Z.of_nat n)).
    assert (HP : 0 < P) by (apply Z.pow_pos_nonneg; lia).
    replace (8 * Z.of_nat (S n)) with (8 * Z.of_nat n + 8) by lia.
    rewrite Z.pow_add_r by lia. fold P.
    rewrite (Z.rem_mul_r w P (2 ^ 8)) by lia. ring.
Qed.

Lemma be_split_high (m : nat) (k x : Z) :
  be_split m (k * 2 ^ (8 * Z.of_nat m) + x) = be_split m x.
Proof.
  revert k x. induction m as [|m IHm]; intros k x; [reflexivity|].
  cbn [be_split]. f_equal.
  - apply byte.unsigned_inj. rewrite !byte.unsigned_of_Z. unfold byte.wrap.
    replace (8 * Z.of_nat (S m)) with (8 * Z.of_nat m + 8) by lia.
    rewrite Z.pow_add_r by lia.
    set (Q := 2 ^ (8 * Z.of_nat m)).
    assert (0 < Q) by (apply Z.pow_pos_nonneg; lia).
    replace (k * (Q * 2 ^ 8) + x) with (x + (k * 2 ^ 8) * Q) by ring.
    rewrite Z.div_add by lia.
    rewrite <- Z.add_mod_idemp_r by (cbv; discriminate).
    rewrite Z.mod_mul by (cbv; discriminate). now rewrite Z.add_0_r.
  - replace (8 * Z.of_nat (S m)) with (8 + 8 * Z.of_nat m) by lia.
    rewrite Z.pow_add_r by lia.
    replace (k * (2 ^ 8 * 2 ^ (8 * Z.of_nat m)) + x)
      with ((k * 2 ^ 8) * 2 ^ (8 * Z.of_nat m) + x) by ring.
    apply IHm.
Qed.

Lemma be_split_combine (bs : list byte) :
  be_split (List.length bs) (be_combine bs) = bs.
Proof.
  induction bs as [|b bs IH].
  - reflexivity.
  - cbn [List.length be_split]. rewrite be_combine_cons.
    pose proof (be_combine_range bs) as Hr.
    f_equal.
    + set (P := 2 ^ (8 * Z.of_nat (List.length bs))) in *.
      rewrite Z.div_add_l by lia. rewrite (Z.div_small (be_combine bs)) by lia.
      rewrite Z.add_0_r. apply byte.of_Z_unsigned.
    + rewrite be_split_high. exact IH.
Qed.

(** ** The varint codec *)

Ltac case_leb :=
  match goal with
  | |- context [?a <=? ?b] => destruct (Z.leb_spec a b)
  end.

Lemma lor_disjoint_add (v t k : Z) :
  0 <= k -> 0 <= v < 2 ^ k -> Z.lor v (t * 2 ^ k) = v + t * 2 ^ k.
Proof.
  intros Hk Hv. rewrite <- Z.add_lor_land.
  assert (Hz : Z.land v (t * 2 ^ k) = 0).
  { apply Z.bits_inj'. intros i Hi. rewrite Z.land_spec, Z.bits_0.
    destruct (Z.ltb_spec i k) as [Hlt|Hge].
    - rewrite Z.mul_pow2_bits_low by lia. apply andb_false_r.
    - rewrite <- (Z.mod_small v (2 ^ k)) by lia.
      rewrite Z.mod_pow2_bits_high by lia. reflexivity. }
  rewrite Hz. lia.
Qed.

Lemma getQuicIntegerSize_error (v : Z) :
  quic.kEightByteLimit < v ->
  quic.getQuicIntegerSize v = Unexpected quic.INTERNAL_ERROR.
Proof.
  unfold quic.getQuicIntegerSize, quic.kOneByteLimit, quic.kTwoByteLimit,
    quic.kFourByteLimit, quic.kEightByteLimit. intros Hv.
  repeat (case_leb; [lia|]). reflexivity.
Qed.

Lemma getQuicIntegerSize_fits (v : Z) :
  v <= quic.kEightByteLimit ->
  quic.getQuicIntegerSize v = Ok (varint_size v)
  /\ (varint_size v = 1 \/ varint_size v = 2 \/ varint_size v = 4
      \/ varint_size v = 8).
Proof.
  unfold varint_size, quic.getQuicIntegerSize, quic.kOneByteLimit,
    quic.kTwoByteLimit, quic.kFourByteLimit, quic.kEightByteLimit. intros Hv.
  repeat (case_leb; [split; [reflexivity | lia]|]). lia.
Qed.

Lemma getQuicIntegerSize_inv (v n : Z) :
  quic.getQuicIntegerSize v = Ok n ->
  v <= quic.kEightByteLimit /\ n = varint_size v.
Proof.
  intros Hn. destruct (Z.leb_spec v quic.kEightByteLimit) as [Hle|Hgt].
  - split; [exact Hle|]. destruct (getQuicIntegerSize_fits v Hle) as [Hs _].
    congruence.
  - rewrite getQuicIntegerSize_error in Hn by exact Hgt. discriminate.
Qed.

Lemma encodeQuicInteger_error (v : Z) (q : IOBufQueue) :
  quic.kEightByteLimit < v ->
  quic.encodeQuicInteger v q = (Unexpected quic.INTERNAL_ERROR, q).
Proof.
  unfold quic.encodeQuicInteger, quic.kOneByteLimit, quic.kTwoByteLimit,
    quic.kFourByteLimit, quic.kEightByteLimit. intros Hv.
  repeat (case_leb; [lia|]). reflexivity.
Qed.

Lemma encodeQuicInteger_fits (v : Z) (q : IOBufQueue) :
  v <= quic.kEightByteLimit ->
  quic.encodeQuicInteger v q = (Ok (varint_size v), q ++ varint_bytes v).
Proof.
  unfold varint_bytes, varint_size, quic.encodeQuicInteger,
    quic.getQuicIntegerSize, quic.kOneByteLimit, quic.kTwoByteLimit,
    quic.kFourByteLimit, quic.kEightByteLimit. intros Hv.
  repeat (case_leb; [reflexivity|]). lia.
Qed.

Lemma length_varint_bytes (v : Z) :
  v <= quic.kEightByteLimit ->
  Z.of_nat (List.length (varint_bytes v)) = varint_size v.
Proof.
  unfold varint_bytes, varint_size, quic.encodeQuicInteger,
    quic.getQuicIntegerSize, quic.kOneByteLimit, quic.kTwoByteLimit,
    quic.kFourByteLimit, quic.kEightByteLimit. intros Hv.
  repeat (case_leb;
          [cbn [snd]; rewrite app_nil_l, length_be_split; reflexivity|]).
  lia.
Qed.

Lemma varint_size_pos (v : Z) : v <= quic.kEightByteLimit -> 1 <= varint_size v <= 8.
Proof. intros Hv. destruct (getQuicIntegerSize_fits v Hv) as [_ Hc]. lia. Qed.

(** The length class announced by a byte. *)
Lemma varint_class_shift (b : byte) :
  Z.shiftl 1 (Z.shiftr (byte.unsigned b) 6) = varint_class b.
Proof.
  unfold varint_class. pose proof (byte.unsigned_range b) as Hb.
  rewrite Z.shiftr_div_pow2 by lia. change (2 ^ 6) with 64.
  rewrite Z.shiftl_mul_pow2 by (apply Z.div_pos; lia). apply Z.mul_1_l.
Qed.

Lemma varint_class_cases (b : byte) :
  varint_class b = 1 \/ varint_class b = 2 \/ varint_class b = 4
  \/ varint_class b = 8.
Proof.
  unfold varint_class. pose proof (byte.unsigned_range b) as Hb.
  change (2 ^ 8) with 256 in Hb.
  assert (Hq : byte.unsigned b / 64 = 0 \/ byte.unsigned b / 64 = 1
               \/ byte.unsigned b / 64 = 2 \/ byte.unsigned b / 64 = 3)
    by (Z.div_mod_to_equations; lia).
  destruct Hq as [-> | [-> | [-> | ->]]]; cbv; auto.
Qed.

(** [decodeQuicInteger] in one equation. *)
Lemma decodeQuicInteger_cons (b : byte) (c : Cursor) (atMost : Z) :
  quic.decodeQuicInteger (b :: c) atMost
  = if (0 <? atMost) && (varint_class b <=? totalLength (b :: c))
       && (varint_class b <=? atMost)
    then (Some (be_combine (firstn (Z.to_nat (varint_class b)) (b :: c))
                  mod 2 ^ (8 * varint_class b - 2),
                varint_class b),
          skipn (Z.to_nat (varint_class b)) (b :: c))
    else (None, b :: c).
Proof.
  intros. unfold quic.decodeQuicInteger, canAdvance.
  rewrite varint_class_shift.
  pose proof (varint_class_cases b) as Hc.
  destruct (Z.eqb_spec atMost 0) as [->|Hne]; [reflexivity|].
  destruct (Z.ltb_spec 0 atMost) as [Hpos|Hneg].
  - cbn [andb]. rewrite Z.land_ones by lia.
    destruct (Z.leb_spec (varint_class b) (totalLength (b :: c)));
      cbn [negb orb andb]; [|reflexivity].
    destruct (Z.ltb_spec atMost (varint_class b)),
             (Z.leb_spec (varint_class b) atMost); try lia; reflexivity.
  - cbn [andb].
    destruct (Z.leb_spec (varint_class b) (totalLength (b :: c)));
      cbn [negb orb]; [|reflexivity].
    destruct (Z.ltb_spec atMost (varint_class b)); [reflexivity | lia].
Qed.

Lemma decodeQuicInteger_nil (atMost : Z) :
  quic.decodeQuicInteger [] atMost = (None, []).
Proof. reflexivity. Qed.

Lemma is_varint_length (bs : list byte) (v : Z) :
  is_varint bs v -> 1 <= Z.of_nat (List.length bs) <= 8.
Proof.
  destruct bs as [|b bs]; [contradiction|]. intros [Hlen _].
  pose proof (varint_class_cases b). lia.
Qed.

Lemma is_varint_value (bs : list byte) (v : Z) :
  is_varint bs v -> 0 <= v <= quic.kEightByteLimit.
Proof.
  destruct bs as [|b bs]; [contradiction|]. intros [_ ->].
  unfold quic.kEightByteLimit.
  assert (Hp : 0 < 2 ^ (8 * varint_class b - 2) <= 2 ^ 62).
  { pose proof (varint_class_cases b) as [-> | [-> | [-> | ->]]]; cbv;
      split; congruence. }
  pose proof (Z.mod_pos_bound (be_combine (b :: bs))
                              (2 ^ (8 * varint_class b - 2))). lia.
Qed.

Lemma is_varint_functional (bs : list byte) (v w : Z) :
  is_varint bs v -> is_varint bs w -> v = w.
Proof.
  destruct bs as [|b bs]; [contradiction|]. intros [_ ->] [_ ->]. reflexivity.
Qed.

(** Decoding reads exactly a varint off the front of the cursor. *)
Lemma decodeQuicInteger_varint (bs rest : list byte) (v atMost : Z) :
  is_varint bs v -> Z.of_nat (List.length bs) <= atMost ->
  quic.decodeQuicInteger (bs ++ rest) atMost
  = (Some (v, Z.of_nat (List.length bs)), rest).
Proof.
  intros Hv Hat. pose proof (is_varint_length bs v Hv) as Hlen.
  destruct bs as [|b bs]; [contradiction|]. destruct Hv as [Hc ->].
  rewrite <- app_comm_cons, decodeQuicInteger_cons.
  rewrite app_comm_cons. rewrite <- Hc in *.
  unfold totalLength. rewrite length_app, Nat2Z.id.
  destruct (Z.ltb_spec 0 atMost); [|lia].
  destruct (Z.leb_spec (Z.of_nat (List.length (b :: bs)))
                       (Z.of_nat (List.length (b :: bs) + List.length rest)));
    [|lia].
  destruct (Z.leb_spec (Z.of_nat (List.length (b :: bs))) atMost); [|lia].
  cbn [andb].
  rewrite firstn_app, Nat.sub_diag, firstn_all, firstn_O, app_nil_r.
  rewrite skipn_app, Nat.sub_diag, skipn_all, skipn_O. reflexivity.
Qed.

Lemma decodeQuicInteger_success (cursor c' : Cursor) (atMost v n : Z) :
  quic.decodeQuicInteger cursor atMost = (Some (v, n), c') ->
  exists bs, cursor = bs ++ c' /\ is_varint bs v
             /\ Z.of_nat (List.length bs) = n /\ n <= atMost.
Proof.
  destruct cursor as [|b c]; [discriminate|].
  rewrite decodeQuicInteger_cons.
  destruct (Z.ltb_spec 0 atMost); [|discriminate].
  destruct (Z.leb_spec (varint_class b) (totalLength (b :: c))) as [Hfit|];
    [|discriminate].
  destruct (Z.leb_spec (varint_class b) atMost); [|discriminate].
  cbn [andb]. intros Heq. injection Heq as Hv Hn Hc.
  pose proof (varint_class_cases b) as Hcl. unfold totalLength in Hfit.
  exists (firstn (Z.to_nat (varint_class b)) (b :: c)).
  assert (Hlen : List.length (firstn (Z.to_nat (varint_class b)) (b :: c))
                 = Z.to_nat (varint_class b)) by (apply firstn_length_le; lia).
  repeat split.
  - rewrite <- Hc. symmetry. apply firstn_skipn.
  - assert (Hhd : exists t, firstn (Z.to_nat (varint_class b)) (b :: c) = b :: t).
    { destruct (Z.to_nat (varint_class b)) as [|k] eqn:Hk; [lia|].
      cbn [firstn]. eauto. }
    destruct Hhd as [t Ht]. rewrite Ht in *. split.
    + rewrite Hlen. lia.
    + symmetry. exact Hv.
  - rewrite Hlen. lia.
  - lia.
Qed.

Lemma decodeQuicInteger_none (cursor c' : Cursor) (atMost : Z) :
  quic.decodeQuicInteger cursor atMost = (None, c') -> c' = cursor.
Proof.
  destruct cursor as [|b c]; [now intros [= <-]|].
  rewrite decodeQuicInteger_cons.
  destruct (_ && _ && _); [discriminate | now intros [= <-]].
Qed.

(** No varint sits at the front of a cursor on which decoding fails. *)
Lemma decodeQuicInteger_none_no_varint (bs rest c' : list byte) (v atMost : Z) :
  quic.decodeQuicInteger (bs ++ rest) atMost = (None, c') ->
  is_varint bs v -> atMost < Z.of_nat (List.length bs).
Proof.
  intros Hd Hv. destruct (Z.ltb_spec atMost (Z.of_nat (List.length bs))) as [|Hge];
    [assumption|].
  rewrite (decodeQuicInteger_varint bs rest v atMost Hv Hge) in Hd. discriminate.
Qed.

Lemma is_varint_be_split (n : nat) (w v c : Z) :
  (w / 2 ^ (8 * Z.of_nat n)) mod 2 ^ 8 / 64 = c ->
  Z.of_nat (S n) = 2 ^ c ->
  v = (w mod 2 ^ (8 * Z.of_nat (S n))) mod 2 ^ (8 * 2 ^ c - 2) ->
  is_varint (be_split (S n) w) v.
Proof.
  intros Hc Hn Hv. rewrite <- be_combine_split in Hv.
  cbn [be_split] in *. unfold is_varint, varint_class.
  rewrite byte.unsigned_of_Z. unfold byte.wrap. rewrite Hc.
  split; [|exact Hv].
  cbn [List.length]. rewrite length_be_split. exact Hn.
Qed.

(** The encoding of a value is a varint for it. *)
Lemma is_varint_bytes (v : Z) :
  0 <= v <= quic.kEightByteLimit -> is_varint (varint_bytes v) v.
Proof.
  intros [H0 Hv].
  unfold varint_bytes, quic.encodeQuicInteger, quic.kOneByteLimit,
    quic.kTwoByteLimit, quic.kFourByteLimit, quic.kEightByteLimit in *.
  repeat case_leb; try lia; cbn [snd app].
  - apply (is_varint_be_split 0 v v 0); [|reflexivity|];
      change (2 ^ (8 * Z.of_nat 0)) with 1; change (8 * 2 ^ 0 - 2) with 6;
      change (8 * Z.of_nat 1) with 8; Z.div_mod_to_equations; lia.
  - change 0x4000 with (1 * 2 ^ 14). rewrite lor_disjoint_add by lia.
    apply (is_varint_be_split 1 _ v 1); [|reflexivity|];
      change (2 ^ (8 * Z.of_nat 1)) with 256; change (8 * 2 ^ 1 - 2) with 14;
      change (8 * Z.of_nat 2) with 16; Z.div_mod_to_equations; lia.
  - change 0x80000000 with (2 * 2 ^ 30). rewrite lor_disjoint_add by lia.
    apply (is_varint_be_split 3 _ v 2); [|reflexivity|];
      change (2 ^ (8 * Z.of_nat 3)) with 16777216;
      change (8 * 2 ^ 2 - 2) with 30;
      change (8 * Z.of_nat 4) with 32; Z.div_mod_to_equations; lia.
  - change 0xC000000000000000 with (3 * 2 ^ 62).
    rewrite lor_disjoint_add by lia.
    apply (is_varint_be_split 7 _ v 3); [|reflexivity|];
      change (2 ^ (8 * Z.of_nat 7)) with 72057594037927936;
      change (8 * 2 ^ 3 - 2) with 62;
      change (8 * Z.of_nat 8) with 64; Z.div_mod_to_equations; lia.
Qed.

(** The round trip of section 4.A. *)
Lemma decode_encode (v atMost : Z) (rest : list byte) :
  0 <= v <= quic.kEightByteLimit -> varint_size v <= atMost ->
  quic.decodeQuicInteger (varint_bytes v ++ rest) atMost
  = (Some (v, varint_size v), rest).
Proof.
  intros Hv Hat. rewrite <- length_varint_bytes by lia.
  apply decodeQuicInteger_varint.
  - apply is_varint_bytes. exact Hv.
  - rewrite length_varint_bytes by lia. exact Hat.
Qed.

(** ** The framer: errors *)

Section FramerErrors.
Variable K : HQConstants.

Lemma writeFrameHeader_fits (q : IOBufQueue) (ty len : Z) :
  ty <= quic.kEightByteLimit -> len <= quic.kEightByteLimit ->
  writeFrameHeader q ty len
  = (Ok (varint_size ty + varint_size len),
     q ++ varint_bytes ty ++ varint_bytes len).
Proof.
  intros Hty Hlen. unfold writeFrameHeader.
  rewrite encodeQuicInteger_fits by exact Hty.
  rewrite encodeQuicInteger_fits by exact Hlen.
  now rewrite <- app_assoc.
Qed.

Lemma writeFrameHeader_type_error (q : IOBufQueue) (ty len : Z) :
  quic.kEightByteLimit < ty ->
  writeFrameHeader q ty len = (Unexpected quic.INTERNAL_ERROR, q).
Proof.
  intros Hty. unfold writeFrameHeader.
  now rewrite encodeQuicInteger_error by exact Hty.
Qed.

(** The type is already in the queue when the length turns out to have no
    encoding. *)
Lemma writeFrameHeader_length_error (q : IOBufQueue) (ty len : Z) :
  ty <= quic.kEightByteLimit -> quic.kEightByteLimit < len ->
  writeFrameHeader q ty len
  = (Unexpected quic.INTERNAL_ERROR, q ++ varint_bytes ty).
Proof.
  intros Hty Hlen. unfold writeFrameHeader.
  rewrite encodeQuicInteger_fits by exact Hty.
  now rewrite encodeQuicInteger_error by exact Hlen.
Qed.

Lemma writeSimpleFrame_length_error (q : IOBufQueue) (ty : Z) (data : IOBuf) :
  ty <= quic.kEightByteLimit ->
  quic.kEightByteLimit < computeChainDataLength data ->
  writeSimpleFrame q ty data
  = (Unexpected quic.INTERNAL_ERROR, q ++ varint_bytes ty).
Proof.
  intros Hty Hlen. unfold writeSimpleFrame.
  now rewrite writeFrameHeader_length_error.
Qed.

Lemma writeSettings_size_error (settings : list SettingPair) (acc : Z) :
  Exists (fun pr => quic.kEightByteLimit < fst pr \/ quic.kEightByteLimit < snd pr)
         settings ->
  writeSettings_size settings acc = Unexpected quic.INTERNAL_ERROR.
Proof.
  intros Hex. revert acc. induction settings as [|pr rest IH]; intros acc.
  - inversion Hex.
  - cbn [writeSettings_size].
    destruct (quic.getQuicIntegerSize (fst pr)) as [n1|[]] eqn:H1; [|reflexivity].
    destruct (quic.getQuicIntegerSize (snd pr)) as [n2|[]] eqn:H2; [|reflexivity].
    apply getQuicIntegerSize_inv in H1. apply getQuicIntegerSize_inv in H2.
    inversion Hex as [? ? Hhd | ? ? Htl]; subst.
    + exfalso. cbn beta in Hhd. unfold SettingId, SettingValue in *. lia.
    + apply IH. exact Htl.
Qed.

(** Every identifier or value that goes into a payload is sized before
    anything is appended: when one has no encoding, the writer fails and the
    queue is as it was. *)
Lemma writers_reject_unencodable_fields (q : IOBufQueue) :
  (forall p,
      quic.kEightByteLimit < prioritizedElementId p
      \/ (dependencyType p <> TREE_ROOT
          /\ quic.kEightByteLimit < elementDependencyId p) ->
      writePriority K q p = (Unexpected quic.INTERNAL_ERROR, q))
  /\ (forall pushId,
         quic.kEightByteLimit < clearPushIdMask K pushId ->
         writeCancelPush K q pushId = (Unexpected quic.INTERNAL_ERROR, q))
  /\ (forall settings,
         Exists (fun pr => quic.kEightByteLimit < fst pr
                           \/ quic.kEightByteLimit < snd pr) settings ->
         writeSettings K q settings = (Unexpected quic.INTERNAL_ERROR, q))
  /\ (forall pushId data,
         quic.kEightByteLimit < clearPushIdMask K pushId ->
         writePushPromise K q pushId data = (Unexpected quic.INTERNAL_ERROR, q))
  /\ (forall lastStreamId,
         quic.kEightByteLimit < lastStreamId ->
         writeGoaway K q lastStreamId = (Unexpected quic.INTERNAL_ERROR, q))
  /\ (forall maxPushId,
         quic.kEightByteLimit < clearPushIdMask K maxPushId ->
         writeMaxPushId K q maxPushId = (Unexpected quic.INTERNAL_ERROR, q)).
Proof.
  repeat split.
  - intros p Hp. unfold writePriority.
    destruct (quic.getQuicIntegerSize (prioritizedElementId p)) as [n1|[]] eqn:H1;
      [|reflexivity].
    apply getQuicIntegerSize_inv in H1.
    destruct Hp as [Hp | [Hdt Hp]]; [lia|].
    assert (Hne : PriorityElementType_eqb (dependencyType p) TREE_ROOT = false)
      by (destruct (dependencyType p); [reflexivity .. | contradiction]).
    rewrite Hne. cbn [negb].
    now rewrite getQuicIntegerSize_error by exact Hp.
  - intros pushId Hp. unfold writeCancelPush.
    now rewrite getQuicIntegerSize_error by exact Hp.
  - intros settings Hex. unfold writeSettings.
    now rewrite writeSettings_size_error by exact Hex.
  - intros pushId data Hp. unfold writePushPromise.
    now rewrite getQuicIntegerSize_error by exact Hp.
  - intros lastStreamId Hp. unfold writeGoaway.
    now rewrite getQuicIntegerSize_error by exact Hp.
  - intros maxPushId Hp. unfold writeMaxPushId.
    now rewrite getQuicIntegerSize_error by exact Hp.
Qed.

End FramerErrors.

(** A payload of 2^62 bytes. *)
Lemma oversized_payload_length :
  computeChainDataLength (repeat Byte.x00 (Z.to_nat (2 ^ 62))) = 2 ^ 62.
Proof.
  unfold computeChainDataLength. rewrite repeat_length.
  apply Z2Nat.id. apply Z.pow_nonneg. lia.
Qed.

(** C1 (the code at the failing input).  [writeData] on a payload of 2^62
    bytes: the length has no varint encoding, the writer answers with the
    error, and the frame type it had already appended stays in the queue,
    which is therefore not as it was before the call. *)
Theorem writeData_oversized_leaves_type_in_queue :
  writeData draft_constants [] (repeat Byte.x00 (Z.to_nat (2 ^ 62)))
  = (Unexpected quic.INTERNAL_ERROR, [Byte.x00]).
Proof.
  unfold writeData.
  rewrite writeSimpleFrame_length_error.
  - reflexivity.
  - discriminate.
  - rewrite oversized_payload_length. reflexivity.
Qed.

(** The same defect at the helper itself, on a length of 2^62. *)
Lemma writeFrameHeader_oversized_leaves_type_in_queue :
  writeFrameHeader [] (DATA draft_constants) (2 ^ 62)
  = (Unexpected quic.INTERNAL_ERROR, [Byte.x00]).
Proof. reflexivity. Qed.

(** ** The frame parser: what it calls *)

Section CodecEvents.
Variable K : HQConstants.
Variable H : CodecHooks.

Lemma deliver_no_onError (s : HQFramedCodec) (f : Frame) :
  filter is_onError (deliver s f) = [].
Proof. unfold deliver. destruct (callback_ s); reflexivity. Qed.

Lemma parseFrame_no_onError (s : HQFramedCodec) (cursor : Cursor) :
  filter is_onError (snd (parseFrame K H s cursor)) = [].
Proof.
  unfold parseFrame, codec_parseData, codec_parseHeaders, codec_parsePriority,
    codec_parseCancelPush, codec_parseSettings, codec_parsePushPromise,
    codec_parseGoaway, codec_parseMaxPushId.
  repeat match goal with
         | |- context [if ?c then _ else _] => destruct c
         | |- context [match ?x with (_, _) => _ end] => destruct x
         | |- context [match ?x with Some _ => _ | None => _ end] => destruct x
         end;
    cbn [snd]; auto using deliver_no_onError.
Qed.

Lemma codec_parseData_no_onError (s : HQFramedCodec) (cursor : Cursor)
      (hdr : FrameHeader.t) :
  filter is_onError (snd (codec_parseData s cursor hdr)) = [].
Proof.
  unfold codec_parseData.
  destruct (parseData cursor hdr []) as [[[e|] out] c]; cbn [snd];
    auto using deliver_no_onError.
Qed.

Lemma ingressTurn_no_onError (s : HQFramedCodec) (cursor : Cursor) (bufLen : Z) :
  filter is_onError (turn_events (ingressTurn K H s cursor bufLen)) = [].
Proof.
  unfold ingressTurn.
  destruct (frameState_ s).
  - destruct (quic.decodeQuicInteger1 cursor) as [[[v n]|] c]; [|reflexivity].
    destruct (checkFrameAllowed H v); reflexivity.
  - destruct (quic.decodeQuicInteger1 cursor) as [[[v n]|] c]; [|reflexivity].
    cbn [FrameHeader.type].
    destruct (_ =? DATA K); [destruct (_ && _)|];
      destruct (callback_ s); reflexivity.
  - destruct (_ <=? bufLen); [|reflexivity].
    pose proof (parseFrame_no_onError s cursor) as Hp.
    destruct (parseFrame K H s cursor) as [[e c] evs]. exact Hp.
  - match goal with
    | |- context [codec_parseData s cursor ?h] =>
        pose proof (codec_parseData_no_onError s cursor h) as Hp;
        destruct (codec_parseData s cursor h) as [[e c] evs]
    end. exact Hp.
  - destruct (parsePartiallyReliableData H cursor). reflexivity.
Qed.

Lemma ingressLoop_no_onError (fuel : nat) :
  forall s cursor bufLen tot events n s' events',
    ingressLoop K H fuel s cursor bufLen tot events = Returned n s' events' ->
    exists called, events' = events ++ called /\ filter is_onError called = [].
Proof.
  induction fuel as [|fuel IH]; intros s cursor bufLen tot events n s' events';
    cbn [ingressLoop].
  - destruct (_ && _ && _); [discriminate|].
    intros [= _ _ <-]. exists []. now rewrite app_nil_r.
  - destruct (_ && _ && _).
    + pose proof (ingressTurn_no_onError s cursor bufLen) as Ht.
      destruct (ingressTurn K H s cursor bufLen) as [s1 called | s1 c1 parsed called];
        cbn [turn_events] in Ht.
      * intros [= _ _ <-]. eauto.
      * destruct (bufLen <? parsed); [discriminate|]. intros Hl.
        apply IH in Hl. destruct Hl as [more [-> Hm]].
        exists (called ++ more). rewrite app_assoc. split; [reflexivity|].
        now rewrite filter_app, Ht, Hm.
    + intros [= _ _ <-]. exists []. now rewrite app_nil_r.
Qed.

(** Once [connError_] is set, [onFramedIngress] returns 0 at once: the
    codec is as it was and nothing is called. *)
Lemma onFramedIngress_after_error (s : HQFramedCodec) (buf : IOBuf) :
  connError_ s <> None -> onFramedIngress K H s buf = Returned 0 s [].
Proof.
  intros He. unfold onFramedIngress. destruct (connError_ s); [reflexivity|].
  contradiction.
Qed.

(** A call that returns makes at most one [onError], as its last call, and
    only when it leaves [connError_] set. *)
Lemma onFramedIngress_calls (s s' : HQFramedCodec) (buf : IOBuf) (n : Z)
      (events : list Event) :
  onFramedIngress K H s buf = Returned n s' events ->
  exists called,
    filter is_onError called = []
    /\ ((connError_ s' = None /\ events = called)
        \/ (connError_ s' <> None
            /\ (events = called \/ exists x, is_onError x = true
                                             /\ events = called ++ [x]))).
Proof.
  unfold onFramedIngress. destruct (connError_ s) as [e|] eqn:He.
  - intros [= _ <- <-]. exists []. split; [reflexivity|].
    right. split; [congruence | now left].
  - destruct (ingressLoop K H _ s buf (totalLength buf) 0 [])
      as [n1 s1 ev1| |] eqn:Hl; try discriminate.
    apply ingressLoop_no_onError in Hl. destruct Hl as [called [-> Hc]].
    cbn [app]. unfold checkConnectionError.
    destruct (connError_ s1) as [e1|] eqn:He1.
    + intros [= _ <- <-]. exists called. split; [exact Hc|]. right.
      cbn [connError_ setParserPaused callback_]. rewrite He1.
      split; [congruence|].
      destruct (callback_ s1).
      * right. eexists. split; [|reflexivity]. reflexivity.
      * left. now rewrite app_nil_r.
    + intros [= _ <- <-]. exists called. split; [exact Hc|]. left.
      split; [exact He1 | now rewrite app_nil_r].
Qed.

Lemma run_after_error (calls : list Call) :
  forall s, connError_ s <> None ->
            run K H s calls = map (fun _ => (0, [])) calls.
Proof.
  induction calls as [|c rest IH]; intros s He; [reflexivity|].
  cbn [run map]. destruct c as [buf|paused]; cbn [perform].
  - rewrite onFramedIngress_after_error by exact He. f_equal. now apply IH.
  - f_equal. apply IH. exact He.
Qed.

Lemma run_events_after_error (calls : list Call) (s : HQFramedCodec) :
  connError_ s <> None -> run_events K H s calls = [].
Proof.
  intros He. unfold run_events. rewrite run_after_error by exact He.
  induction calls as [|c rest IH]; [reflexivity | exact IH].
Qed.

End CodecEvents.

Lemma error_comes_last_nil : error_comes_last [].
Proof. intros [|? ?] x post Heq; discriminate. Qed.

Lemma error_comes_last_quiet (called : list Event) :
  filter is_onError called = [] -> error_comes_last called.
Proof.
  intros Hq pre x post -> Hx. rewrite filter_app in Hq. cbn [filter] in Hq.
  rewrite Hx in Hq. apply app_eq_nil in Hq. destruct Hq as [_ Hq]. discriminate.
Qed.

Lemma error_comes_last_snoc (called : list Event) (x : Event) :
  filter is_onError called = [] -> error_comes_last (called ++ [x]).
Proof.
  intros Hq pre y post Heq Hy.
  destruct post as [|z post]; [reflexivity|]. exfalso.
  assert (Hsplit : called = pre ++ y :: removelast (z :: post)).
  { change (pre ++ y :: z :: post) with (pre ++ (y :: z :: post)) in Heq.
    assert (Hnn : y :: z :: post <> []) by discriminate.
    apply (f_equal (@removelast Event)) in Heq.
    rewrite removelast_last in Heq. rewrite Heq.
    rewrite removelast_app by exact Hnn. reflexivity. }
  rewrite Hsplit, filter_app in Hq. cbn [filter] in Hq. rewrite Hy in Hq.
  apply app_eq_nil in Hq. destruct Hq as [_ Hq]. discriminate.
Qed.

Lemma error_comes_last_app_quiet (called rest : list Event) :
  filter is_onError called = [] -> error_comes_last rest ->
  error_comes_last (called ++ rest).
Proof.
  intros Hq Hr. revert Hq. induction called as [|c called IH]; intros Hq.
  - exact Hr.
  - cbn [filter] in Hq. destruct (is_onError c) eqn:Hc; [discriminate|].
    intros pre x post Heq Hx. destruct pre as [|p pre].
    + cbn [app] in Heq. injection Heq as <- _. congruence.
    + cbn [app] in Heq. injection Heq as _ Heq.
      exact (IH Hq pre x post Heq Hx).
Qed.

Lemma error_comes_last_count (events : list Event) :
  error_comes_last events -> (count_onError events <= 1)%nat.
Proof.
  unfold count_onError. induction events as [|e events IH]; intros Hl.
  - cbn. lia.
  - cbn [filter]. destruct (is_onError e) eqn:He.
    + rewrite (Hl [] e events eq_refl He). cbn. lia.
    + apply IH. intros pre x post -> Hx.
      exact (Hl (e :: pre) x post eq_refl Hx).
Qed.

(** ** The frame parser after a connection error *)

Section AfterError.
Variable K : HQConstants.
Variable H : CodecHooks.

Lemma run_events_cons (s : HQFramedCodec) (c : Call) (rest : list Call) :
  run_events K H s (c :: rest)
  = match perform K H s c with
    | Some (_, s', events) => events ++ run_events K H s' rest
    | None => []
    end.
Proof.
  unfold run_events. cbn [run].
  destruct (perform K H s c) as [[[n s'] events]|]; reflexivity.
Qed.

Lemma run_error_comes_last (calls : list Call) :
  forall s, connError_ s = None -> error_comes_last (run_events K H s calls).
Proof.
  induction calls as [|c rest IH]; intros s Hs.
  - apply error_comes_last_nil.
  - rewrite run_events_cons. destruct c as [buf|paused]; cbn [perform].
    + destruct (onFramedIngress K H s buf) as [n s' events| |] eqn:Hi;
        try apply error_comes_last_nil.
      apply onFramedIngress_calls in Hi.
      destruct Hi as [called [Hq [[Hnone ->] | [Herr Hev]]]].
      * apply error_comes_last_app_quiet; [exact Hq | now apply IH].
      * rewrite run_events_after_error by exact Herr. rewrite app_nil_r.
        destruct Hev as [-> | [x [Hx ->]]].
        -- now apply error_comes_last_quiet.
        -- now apply error_comes_last_snoc.
    + cbn [app]. apply IH. exact Hs.
Qed.

(** C3.  Once [connError_] is set, every further [onFramedIngress]
    returns 0, leaves the codec (and with it the bytes it has counted) as it
    was and calls nothing, whatever the session does in between; and over
    any run of a codec that starts without an error, [onError] is called at
    most once and no call on the callback follows it. *)
Theorem connection_error_is_final (s : HQFramedCodec) :
  (forall buf,
      connError_ s <> None -> onFramedIngress K H s buf = Returned 0 s [])
  /\ (forall calls,
         connError_ s <> None ->
         run K H s calls = map (fun _ => (0, [])) calls)
  /\ (forall calls,
         connError_ s = None ->
         error_comes_last (run_events K H s calls)
         /\ (count_onError (run_events K H s calls) <= 1)%nat).
Proof.
  split; [|split].
  - intros buf He. now apply onFramedIngress_after_error.
  - intros calls He. now apply run_after_error.
  - intros calls Hs. pose proof (run_error_comes_last calls s Hs) as Hl.
    split; [exact Hl | now apply error_comes_last_count].
Qed.

End AfterError.

(** ** The frame parser: payloads *)

Section Payloads.
Variable K : HQConstants.
Variable H : CodecHooks.

Lemma checkConnectionError_none (s : HQFramedCodec) :
  checkConnectionError K s None = (false, s, []).
Proof. reflexivity. Qed.

(** A turn in [FRAME_PAYLOAD] with the whole payload ahead hands it to
    [parseFrame], counts exactly the declared length and goes back to
    [FRAME_HEADER_TYPE]. *)
Lemma ingressTurn_payload_whole (s : HQFramedCodec) (cursor : Cursor) (bufLen : Z) :
  frameState_ s = FRAME_PAYLOAD ->
  FrameHeader.length (curHeader_ s) <= bufLen ->
  ingressTurn K H s cursor bufLen
  = Parsed (set_frame s FRAME_HEADER_TYPE (curHeader_ s) (pendingDataFrameBytes_ s)
                      (fst (fst (parseFrame K H s cursor))))
           (snd (fst (parseFrame K H s cursor)))
           (FrameHeader.length (curHeader_ s))
           (snd (parseFrame K H s cursor)).
Proof.
  intros Hst Hlen. unfold ingressTurn. rewrite Hst.
  destruct (Z.leb_spec (FrameHeader.length (curHeader_ s)) bufLen); [|lia].
  destruct (parseFrame K H s cursor) as [[e c] evs]. reflexivity.
Qed.


(** After the length of a frame that is not a DATA frame, the codec is in
    [FRAME_PAYLOAD]. *)
Lemma ingressTurn_length_other (s : HQFramedCodec) (cursor c' : Cursor)
      (bufLen v n : Z) :
  frameState_ s = FRAME_HEADER_LENGTH ->
  FrameHeader.type (curHeader_ s) <> DATA K ->
  quic.decodeQuicInteger1 cursor = (Some (v, n), c') ->
  ingressTurn K H s cursor bufLen
  = Parsed (set_frame s FRAME_PAYLOAD
                      (FrameHeader.mk (FrameHeader.type (curHeader_ s)) v) v
                      (connError_ s))
           c' n
           (if callback_ s
            then [onFrameHeader (streamId_ s) 0 v (FrameHeader.type (curHeader_ s))]
            else []).
Proof.
  intros Hst Hty Hd. unfold ingressTurn. rewrite Hst, Hd. cbn [FrameHeader.type].
  destruct (Z.eqb_spec (FrameHeader.type (curHeader_ s)) (DATA K)); [contradiction|].
  reflexivity.
Qed.

(** A frame of an unknown type is skipped whole. *)
Lemma parseFrame_unknown (s : HQFramedCodec) (cursor : Cursor) :
  ~ In (FrameHeader.type (curHeader_ s)) (frame_types K) ->
  parseFrame K H s cursor
  = (None, skip cursor (FrameHeader.length (curHeader_ s)), []).
Proof.
  intros Hty. unfold parseFrame, frame_types in *. cbn [In] in Hty.
  repeat match goal with
         | |- context [?a =? ?b] =>
             destruct (Z.eqb_spec a b); [exfalso; apply Hty; auto 10|]
         end.
  reflexivity.
Qed.


(** [parseData] on a declared length of zero, and on a payload that is
    there. *)
Lemma parseData_empty (cursor : Cursor) (header : FrameHeader.t) (outBuf : IOBuf) :
  FrameHeader.length header = 0 ->
  parseData cursor header outBuf = (Some HTTP_MALFORMED_FRAME_DATA, outBuf, cursor).
Proof. intros Hl. unfold parseData. rewrite Hl. reflexivity. Qed.

Lemma parseData_clones (cursor : Cursor) (header : FrameHeader.t) (outBuf : IOBuf) :
  0 < FrameHeader.length header <= totalLength cursor ->
  parseData cursor header outBuf
  = (None, firstn (Z.to_nat (FrameHeader.length header)) cursor,
     skipn (Z.to_nat (FrameHeader.length header)) cursor)
  /\ computeChainDataLength (firstn (Z.to_nat (FrameHeader.length header)) cursor)
     = FrameHeader.length header.
Proof.
  intros [Hpos Hfit]. unfold parseData, clone, computeChainDataLength, totalLength in *.
  destruct (Z.eqb_spec (FrameHeader.length header) 0); [lia|].
  split; [reflexivity|]. rewrite firstn_length_le by lia. lia.
Qed.

(** In [FRAME_PAYLOAD_STREAMING] with nothing pending, which is where the
    header of an empty DATA frame leaves the codec, the next call that
    brings at least one byte fails the connection. *)
Lemma streaming_nothing_pending (s : HQFramedCodec) (b : byte) (rest : list byte) :
  connError_ s = None -> parserPaused_ s = false ->
  frameState_ s = FRAME_PAYLOAD_STREAMING ->
  pendingDataFrameBytes_ s = 0 ->
  onFramedIngress K H s (b :: rest)
  = Returned 0
      (setParserPaused
         (add_totalBytesParsed
            (set_frame s FRAME_HEADER_TYPE (curHeader_ s) 0
                       (Some HTTP_MALFORMED_FRAME_DATA)) 0) true)
      (if callback_ s
       then [onError (kSessionStreamId K) HTTP_MALFORMED_FRAME_DATA false]
       else []).
Proof.
  intros He Hp Hst Hpend. unfold onFramedIngress. rewrite He.
  assert (Hlen : 0 < totalLength (b :: rest))
    by (unfold totalLength; cbn [List.length]; lia).
  cbn [List.length].
  replace (2 * S (List.length rest) + 2)%nat
    with (S (S (2 * List.length rest + 2))) by lia.
  cbn [ingressLoop]. rewrite He, Hp.
  destruct (Z.ltb_spec 0 (totalLength (b :: rest))); [|lia]. cbn [andb negb].
  unfold ingressTurn. rewrite Hst, Hpend.
  rewrite Z.min_l by lia.
  unfold codec_parseData. rewrite parseData_empty by reflexivity.
  cbn [FrameHeader.length]. change (u64 (0 - 0)) with 0. cbn [Z.eqb].
  destruct (Z.ltb_spec (totalLength (b :: rest)) 0); [lia|].
  cbn [add_totalBytesParsed set_frame connError_ andb app
       checkConnectionError setParserPaused callback_].
  reflexivity.
Qed.

(** The header of an empty DATA frame, when it is not the sentinel of the
    partially reliable mode, puts the codec in [FRAME_PAYLOAD_STREAMING]
    with nothing pending. *)
Lemma ingressTurn_length_empty_data (s : HQFramedCodec) (cursor c' : Cursor)
      (bufLen n : Z) :
  frameState_ s = FRAME_HEADER_LENGTH ->
  FrameHeader.type (curHeader_ s) = DATA K ->
  transportSupportsPartialReliability H = false \/ kUnframedDataFrameLen K <> 0 ->
  quic.decodeQuicInteger1 cursor = (Some (0, n), c') ->
  exists s' called,
    ingressTurn K H s cursor bufLen = Parsed s' c' n called
    /\ frameState_ s' = FRAME_PAYLOAD_STREAMING
    /\ pendingDataFrameBytes_ s' = 0
    /\ connError_ s' = connError_ s /\ parserPaused_ s' = parserPaused_ s.
Proof.
  intros Hst Hty Hpr Hd. unfold ingressTurn. rewrite Hst, Hd.
  cbn [FrameHeader.type]. rewrite Hty, Z.eqb_refl.
  assert (Hno : transportSupportsPartialReliability H
                && (0 =? kUnframedDataFrameLen K) = false).
  { destruct Hpr as [-> | Hk]; [reflexivity|].
    destruct (Z.eqb_spec 0 (kUnframedDataFrameLen K)); [congruence|].
    apply andb_false_r. }
  rewrite Hno. eexists. eexists. split; [reflexivity|]. repeat split.
Qed.

End Payloads.

(** C4 (the code at the failing input).  An empty DATA frame at the end of
    the input is not rejected.  The
    codec is a fresh one over a transport without partial reliability, with
    a callback that records what it is told.  The two bytes of a DATA frame
    header with length 0 are consumed and the header is announced, but no
    error is raised: [connError_] stays unset, the codec waits in
    [FRAME_PAYLOAD_STREAMING] with nothing pending, and further calls
    without bytes change nothing.  [parseData] is reached, and the
    connection fails with [HTTP_MALFORMED_FRAME_DATA], only when at least
    one more byte arrives, in the same call or in a later one. *)
Theorem empty_data_frame_passes_at_end_of_input :
  (exists s',
      onFramedIngress draft_constants stream_hooks (newCodec 0 true)
                      [Byte.x00; Byte.x00]
      = Returned 2 s' [onFrameHeader 0 0 0 0]
      /\ connError_ s' = None
      /\ frameState_ s' = FRAME_PAYLOAD_STREAMING
      /\ pendingDataFrameBytes_ s' = 0)
  /\ run draft_constants stream_hooks (newCodec 0 true)
         [CallIngress [Byte.x00; Byte.x00]; CallIngress []; CallIngress []]
     = [(2, [onFrameHeader 0 0 0 0]); (0, []); (0, [])]
  /\ run draft_constants stream_hooks (newCodec 0 true)
         [CallIngress [Byte.x00; Byte.x00]; CallIngress [Byte.x07]]
     = [(2, [onFrameHeader 0 0 0 0]);
        (0, [onError (2 ^ 64 - 1) HTTP_MALFORMED_FRAME_DATA false])]
  /\ run draft_constants stream_hooks (newCodec 0 true)
         [CallIngress [Byte.x00; Byte.x00; Byte.x07]]
     = [(2, [onFrameHeader 0 0 0 0;
             onError (2 ^ 64 - 1) HTTP_MALFORMED_FRAME_DATA false])].
Proof.
  split.
  { eexists. split; [reflexivity|]. repeat split. }
  repeat split.
Qed.

(** Over a transport with partial reliability a DATA header with length 0
    is the sentinel of an unframed body ([kUnframedDataFrameLen]): the body
    is started and what follows belongs to it. *)
Lemma empty_data_frame_starts_unframed_body :
  onFramedIngress draft_constants pr_hooks (newCodec 0 true)
                  [Byte.x00; Byte.x00; Byte.x07]
  = Returned 3
      (mkCodec 0 true FRAME_PAYLOAD_PARTIALLY_RELIABLE_STREAMING
               (FrameHeader.mk 0 0) 0 3 None false)
      [onFrameHeader 0 0 0 0; onIngressPartiallyReliableBodyStarted 2].
Proof. reflexivity. Qed.

(** ** The framer: what a successful writer appends *)

Section FramerBytes.
Variable K : HQConstants.

Lemma writeFrameHeader_inv (q q' : IOBufQueue) (ty len n : Z) :
  writeFrameHeader q ty len = (Ok n, q') ->
  ty <= quic.kEightByteLimit /\ len <= quic.kEightByteLimit
  /\ n = varint_size ty + varint_size len
  /\ q' = q ++ varint_bytes ty ++ varint_bytes len.
Proof.
  intros Hw.
  destruct (Z.leb_spec ty quic.kEightByteLimit) as [Hty|Hty].
  - destruct (Z.leb_spec len quic.kEightByteLimit) as [Hlen|Hlen].
    + rewrite writeFrameHeader_fits in Hw by assumption.
      injection Hw as <- <-. auto.
    + rewrite writeFrameHeader_length_error in Hw by assumption. discriminate.
  - rewrite writeFrameHeader_type_error in Hw by assumption. discriminate.
Qed.

Lemma writeSimpleFrame_inv (q q' : IOBufQueue) (ty n : Z) (data : IOBuf) :
  writeSimpleFrame q ty data = (Ok n, q') ->
  ty <= quic.kEightByteLimit
  /\ computeChainDataLength data <= quic.kEightByteLimit
  /\ q' = q ++ varint_bytes ty ++ varint_bytes (computeChainDataLength data) ++ data.
Proof.
  unfold writeSimpleFrame.
  destruct (writeFrameHeader q ty (computeChainDataLength data))
    as [[hs|e] q1] eqn:Hh; [|discriminate].
  apply writeFrameHeader_inv in Hh. destruct Hh as (Hty & Hlen & _ & ->).
  intros [= _ <-]. repeat split; try assumption.
  now rewrite <- !app_assoc.
Qed.

Lemma clearPushIdMask_nonneg (pushId : PushId) : 0 <= clearPushIdMask K pushId.
Proof.
  unfold clearPushIdMask. apply Z.land_nonneg. right.
  pose proof (u64_range (Z.lnot (kPushIdMask K))). lia.
Qed.

Lemma clearPushIdMask_external (pushId : PushId) :
  isExternalPushId K (clearPushIdMask K pushId) = true.
Proof.
  unfold isExternalPushId, clearPushIdMask, u64. apply Z.eqb_eq.
  apply Z.bits_inj'. intros i Hi.
  rewrite !Z.land_spec, Z.bits_0, Z.testbit_mod_pow2 by lia.
  rewrite Z.lnot_spec by lia.
  destruct (Z.testbit (kPushIdMask K) i); cbn;
    now rewrite ?andb_false_r.
Qed.

Lemma lor_mask_internal (first : Z) :
  kPushIdMask K <> 0 -> isInternalPushId K (Z.lor first (kPushIdMask K)) = true.
Proof.
  intros Hm. unfold isInternalPushId.
  assert (Ha : Z.land (Z.lor first (kPushIdMask K)) (kPushIdMask K) = kPushIdMask K).
  { apply Z.bits_inj'. intros i Hi. rewrite Z.land_spec, Z.lor_spec.
    destruct (Z.testbit first i), (Z.testbit (kPushIdMask K) i); reflexivity. }
  rewrite Ha. now apply negb_true_iff, Z.eqb_neq.
Qed.

(** The payload a push-id writer appends is the varint of the id with the
    sentinel cleared. *)
Lemma writeCancelPush_bytes (q q' : IOBufQueue) (pushId n : Z) :
  writeCancelPush K q pushId = (Ok n, q') ->
  q' = q ++ varint_bytes (CANCEL_PUSH K)
         ++ varint_bytes (varint_size (clearPushIdMask K pushId))
         ++ varint_bytes (clearPushIdMask K pushId)
  /\ clearPushIdMask K pushId <= quic.kEightByteLimit
  /\ CANCEL_PUSH K <= quic.kEightByteLimit.
Proof.
  unfold writeCancelPush.
  destruct (quic.getQuicIntegerSize (clearPushIdMask K pushId)) as [sz|e] eqn:Hs;
    [|discriminate].
  apply getQuicIntegerSize_inv in Hs. destruct Hs as [Hfit _].
  rewrite encodeQuicInteger_fits by exact Hfit. cbn [app].
  intros Hw. apply writeSimpleFrame_inv in Hw. destruct Hw as (Hty & _ & ->).
  unfold computeChainDataLength. rewrite length_varint_bytes by exact Hfit. auto.
Qed.

Lemma writeMaxPushId_bytes (q q' : IOBufQueue) (maxPushId n : Z) :
  writeMaxPushId K q maxPushId = (Ok n, q') ->
  q' = q ++ varint_bytes (MAX_PUSH_ID K)
         ++ varint_bytes (varint_size (clearPushIdMask K maxPushId))
         ++ varint_bytes (clearPushIdMask K maxPushId)
  /\ clearPushIdMask K maxPushId <= quic.kEightByteLimit
  /\ MAX_PUSH_ID K <= quic.kEightByteLimit.
Proof.
  unfold writeMaxPushId.
  destruct (quic.getQuicIntegerSize (clearPushIdMask K maxPushId)) as [sz|e] eqn:Hs;
    [|discriminate].
  apply getQuicIntegerSize_inv in Hs. destruct Hs as [Hfit _].
  rewrite encodeQuicInteger_fits by exact Hfit. cbn [app].
  intros Hw. apply writeSimpleFrame_inv in Hw. destruct Hw as (Hty & _ & ->).
  unfold computeChainDataLength. rewrite length_varint_bytes by exact Hfit. auto.
Qed.

Lemma writeGoaway_bytes (q q' : IOBufQueue) (lastStreamId n : Z) :
  writeGoaway K q lastStreamId = (Ok n, q') ->
  q' = q ++ varint_bytes (GOAWAY K)
         ++ varint_bytes (varint_size lastStreamId)
         ++ varint_bytes lastStreamId
  /\ lastStreamId <= quic.kEightByteLimit
  /\ GOAWAY K <= quic.kEightByteLimit.
Proof.
  unfold writeGoaway.
  destruct (quic.getQuicIntegerSize lastStreamId) as [sz|e] eqn:Hs; [|discriminate].
  apply getQuicIntegerSize_inv in Hs. destruct Hs as [Hfit _].
  rewrite encodeQuicInteger_fits by exact Hfit. cbn [app].
  intros Hw. apply writeSimpleFrame_inv in Hw. destruct Hw as (Hty & _ & ->).
  unfold computeChainDataLength. rewrite length_varint_bytes by exact Hfit. auto.
Qed.

Lemma writePushPromise_bytes (q q' : IOBufQueue) (pushId n : Z) (data : IOBuf) :
  writePushPromise K q pushId data = (Ok n, q') ->
  q' = q ++ varint_bytes (PUSH_PROMISE K)
         ++ varint_bytes (varint_size (clearPushIdMask K pushId)
                          + computeChainDataLength data)
         ++ varint_bytes (clearPushIdMask K pushId) ++ data
  /\ clearPushIdMask K pushId <= quic.kEightByteLimit
  /\ PUSH_PROMISE K <= quic.kEightByteLimit
  /\ varint_size (clearPushIdMask K pushId) + computeChainDataLength data
     <= quic.kEightByteLimit.
Proof.
  unfold writePushPromise.
  destruct (quic.getQuicIntegerSize (clearPushIdMask K pushId)) as [sz|e] eqn:Hs;
    [|discriminate].
  apply getQuicIntegerSize_inv in Hs. destruct Hs as [Hfit ->].
  destruct (writeFrameHeader q (PUSH_PROMISE K) _) as [[hs|e] q1] eqn:Hh;
    [|discriminate].
  apply writeFrameHeader_inv in Hh. destruct Hh as (Hty & Hlen & _ & ->).
  rewrite encodeQuicInteger_fits by exact Hfit.
  intros [= _ <-]. repeat split; try assumption.
  now rewrite <- !app_assoc.
Qed.

End FramerBytes.

(** ** Push ids *)

Section PushIds.
Variable K : HQConstants.
Hypothesis mask_set : kPushIdMask K <> 0.

(** C7.  A push id that [parseCancelPush], [parsePushPromise] or
    [parseMaxPushId] hands out on success has the [kPushIdMask] sentinel
    set; and what [writeCancelPush], [writePushPromise] and
    [writeMaxPushId] put on the wire as the push id is the varint of the id
    with the sentinel cleared, a value in which no bit of the sentinel is
    set. *)
Theorem push_id_mask_stays_internal :
  (forall cursor header out id c',
      parseCancelPush K cursor header out = (None, id, c') ->
      isInternalPushId K id = true)
  /\ (forall cursor header out outBuf id data c',
         parsePushPromise K cursor header out outBuf = (None, id, data, c') ->
         isInternalPushId K id = true)
  /\ (forall cursor header out id c',
         parseMaxPushId K cursor header out = (None, id, c') ->
         isInternalPushId K id = true)
  /\ (forall q q' pushId n,
         writeCancelPush K q pushId = (Ok n, q') ->
         isExternalPushId K (clearPushIdMask K pushId) = true
         /\ q' = q ++ varint_bytes (CANCEL_PUSH K)
                   ++ varint_bytes (varint_size (clearPushIdMask K pushId))
                   ++ varint_bytes (clearPushIdMask K pushId))
  /\ (forall q q' pushId data n,
         writePushPromise K q pushId data = (Ok n, q') ->
         isExternalPushId K (clearPushIdMask K pushId) = true
         /\ q' = q ++ varint_bytes (PUSH_PROMISE K)
                   ++ varint_bytes (varint_size (clearPushIdMask K pushId)
                                    + computeChainDataLength data)
                   ++ varint_bytes (clearPushIdMask K pushId) ++ data)
  /\ (forall q q' maxPushId n,
         writeMaxPushId K q maxPushId = (Ok n, q') ->
         isExternalPushId K (clearPushIdMask K maxPushId) = true
         /\ q' = q ++ varint_bytes (MAX_PUSH_ID K)
                   ++ varint_bytes (varint_size (clearPushIdMask K maxPushId))
                   ++ varint_bytes (clearPushIdMask K maxPushId)).
Proof.
  repeat apply conj.
  - intros cursor header out id c'. unfold parseCancelPush.
    destruct (quic.decodeQuicInteger cursor _) as [[[v n]|] c1]; [|discriminate].
    destruct (negb _); [discriminate|]. intros [= <- _].
    now apply lor_mask_internal.
  - intros cursor header out outBuf id data c'. unfold parsePushPromise.
    destruct (quic.decodeQuicInteger cursor _) as [[[v n]|] c1]; [|discriminate].
    unfold clone. intros [= <- _ _]. now apply lor_mask_internal.
  - intros cursor header out id c'. unfold parseMaxPushId.
    destruct (quic.decodeQuicInteger cursor _) as [[[v n]|] c1]; [|discriminate].
    destruct (negb _); [discriminate|]. intros [= <- _].
    now apply lor_mask_internal.
  - intros q q' pushId n Hw. apply writeCancelPush_bytes in Hw.
    split; [apply clearPushIdMask_external | apply Hw].
  - intros q q' pushId data n Hw. apply writePushPromise_bytes in Hw.
    split; [apply clearPushIdMask_external | apply Hw].
  - intros q q' maxPushId n Hw. apply writeMaxPushId_bytes in Hw.
    split; [apply clearPushIdMask_external | apply Hw].
Qed.

End PushIds.

(** ** The header verifier: Content-Length *)

Section ContentLength.
Context {V : Type}.
Variable L : HeaderLib V.

(** [onHeader] on a Content-Length field when no error has been recorded. *)
Lemma onHeader_content_length (i : HeaderDecodeInfo V) (name : HPACKHeaderName)
      (value : string) :
  no_error i -> is_content_length name ->
  onHeader L i name value
  = let cl := parsed_content_length L value in
    let i1 := set_regularHeaderSeen i in
    if match contentLength_ i with
       | Some recorded => negb (recorded =? cl)
       | None => false
       end
    then (false, set_parsingError i1 "Multiple content-length headers")
    else
      let i2 := set_contentLength i1 cl in
      if validateHeaderValue_STRICT L value then
        (true, set_msg i2 (addHeader (msg i2) (ByCode HTTP_HEADER_CONTENT_LENGTH)
                                     value))
      else
        (false, set_parsingError i2 ("Bad header value: name=" ++ get name
                                     ++ " value=" ++ value)).
Proof.
  intros [Hd Hp] [Hreg Hcode]. unfold onHeader, parsed_content_length.
  rewrite Hd, Hp, Hreg, Hcode. cbn [is_NONE negb orb String.eqb HTTPHeaderCode_eqb].
  cbn [set_regularHeaderSeen contentLength_].
  destruct (contentLength_ i) as [recorded|].
  - destruct (negb (recorded =? _)); [reflexivity|].
    cbn [negb orb]. destruct (validateHeaderValue_STRICT L value); reflexivity.
  - cbn [negb orb]. destruct (validateHeaderValue_STRICT L value); reflexivity.
Qed.


Lemma onHeader_accepts_content_length (i : HeaderDecodeInfo V)
      (name : HPACKHeaderName) (value : string) :
  no_error i -> is_content_length name ->
  contentLength_ i = None
  \/ contentLength_ i = Some (parsed_content_length L value) ->
  validateHeaderValue_STRICT L value = true ->
  exists i',
    onHeader L i name value = (true, i')
    /\ no_error i'
    /\ contentLength_ i' = Some (parsed_content_length L value)
    /\ headers (msg i')
       = headers (msg i) ++ [(ByCode HTTP_HEADER_CONTENT_LENGTH, value)].
Proof.
  intros Hne Hcl Hrec Hval. rewrite onHeader_content_length by assumption.
  cbv zeta. rewrite Hval.
  assert (Hsame : match contentLength_ i with
                  | Some recorded => negb (recorded =? parsed_content_length L value)
                  | None => false
                  end = false).
  { destruct Hrec as [-> | ->]; [reflexivity|]. now rewrite Z.eqb_refl. }
  rewrite Hsame. eexists. split; [reflexivity|].
  destruct Hne as [Hd Hp]. repeat split; assumption.
Qed.




(** C9 (amended).  A Content-Length value that [folly::tryTo<uint32_t>]
    cannot convert raises no error of its own: it reads as 0.  The field
    is accepted, and 0 recorded, when the value passes the validation of
    header values and no length other than 0 was recorded before; and when
    [onHeader] does return [false], it is for a recorded length that is
    not 0 or for the failed validation. *)
Theorem unparsable_content_length_reads_as_zero
        (i : HeaderDecodeInfo V) (name : HPACKHeaderName) (value : string)
        (H0 : no_error i) (Hname : is_content_length name)
        (Hfail : tryTo_uint32 L value = None) :
  (contentLength_ i = None \/ contentLength_ i = Some 0 ->
   validateHeaderValue_STRICT L value = true ->
   exists i',
     onHeader L i name value = (true, i')
     /\ no_error i' /\ contentLength_ i' = Some 0
     /\ headers (msg i')
        = headers (msg i) ++ [(ByCode HTTP_HEADER_CONTENT_LENGTH, value)])
  /\ (forall i',
         onHeader L i name value = (false, i') ->
         (exists recorded,
             contentLength_ i = Some recorded /\ recorded <> 0
             /\ parsingError i' = "Multiple content-length headers"%string)
         \/ (validateHeaderValue_STRICT L value = false
             /\ parsingError i'
                = ("Bad header value: name=" ++ get name ++ " value=" ++ value)%string)).
Proof.
  assert (Hz : parsed_content_length L value = 0)
    by (unfold parsed_content_length; now rewrite Hfail).
  split.
  - intros Hrec Hval. rewrite <- Hz in Hrec |- *.
    now apply onHeader_accepts_content_length.
  - intros i'. rewrite onHeader_content_length by assumption. cbv zeta.
    rewrite Hz. destruct (contentLength_ i) as [recorded|] eqn:Hrec.
    + destruct (Z.eqb_spec recorded 0) as [->|Hne]; cbn [negb].
      * destruct (validateHeaderValue_STRICT L value); [discriminate|].
        intros [= <-]. right. split; reflexivity.
      * intros [= <-]. left. exists recorded. repeat split. exact Hne.
    + destruct (validateHeaderValue_STRICT L value); [discriminate|].
      intros [= <-]. right. split; reflexivity.
Qed.

End ContentLength.

(** ** SETTINGS *)

Lemma is_varint_nonempty (bs : list byte) (v : Z) : is_varint bs v -> bs <> [].
Proof. destruct bs; [contradiction | discriminate]. Qed.

(** A cursor starts with at most one varint. *)
Lemma is_varint_prefix_unique (b1 b2 r1 r2 : list byte) (v1 v2 : Z) :
  is_varint b1 v1 -> is_varint b2 v2 -> b1 ++ r1 = b2 ++ r2 ->
  b1 = b2 /\ r1 = r2 /\ v1 = v2.
Proof.
  intros H1 H2 Heq.
  assert (Hlen : List.length b1 = List.length b2).
  { destruct b1 as [|x1 t1]; [contradiction|].
    destruct b2 as [|x2 t2]; [contradiction|].
    destruct H1 as [Hl1 _], H2 as [Hl2 _].
    cbn [app] in Heq. injection Heq as Hx _. subst x2. lia. }
  assert (Hb : b1 = b2).
  { apply (f_equal (firstn (List.length b1))) in Heq.
    rewrite firstn_app, Nat.sub_diag, firstn_all, firstn_O, app_nil_r in Heq.
    rewrite Hlen, firstn_app, Nat.sub_diag, firstn_all, firstn_O, app_nil_r in Heq.
    exact Heq. }
  subst b2. split; [reflexivity|]. split.
  - now apply app_inv_head in Heq.
  - now apply (is_varint_functional b1).
Qed.

Lemma settings_pairs_inv (payload : list byte) (ps : list SettingPair) :
  settings_pairs payload ps ->
  (payload = [] /\ ps = [])
  \/ exists b1 b2 rest id v ps',
      payload = b1 ++ b2 ++ rest /\ ps = (id, v) :: ps'
      /\ is_varint b1 id /\ is_varint b2 v /\ settings_pairs rest ps'.
Proof.
  intros Hp. destruct Hp as [|b1 b2 rest id v ps' H1 H2 Hr].
  - now left.
  - right. exists b1, b2, rest, id, v, ps'. auto.
Qed.

Lemma firstn_app_exact {A : Type} (l r : list A) (n : nat) :
  firstn (List.length l + n) (l ++ r) = l ++ firstn n r.
Proof.
  rewrite firstn_app. replace (List.length l + n - List.length l)%nat with n by lia.
  rewrite firstn_all2 by lia. reflexivity.
Qed.

Lemma skipn_app_exact {A : Type} (l r : list A) (n : nat) :
  skipn (List.length l + n) (l ++ r) = skipn n r.
Proof.
  rewrite skipn_app. replace (List.length l + n - List.length l)%nat with n by lia.
  rewrite skipn_all2 by lia. reflexivity.
Qed.

Section Settings.
Variable K : HQConstants.

Lemma parseSettings_loop_spec (fuel : nat) :
  forall cursor frameLength settings,
    0 <= frameLength <= totalLength cursor -> frameLength < 2 ^ 64 ->
    frameLength < Z.of_nat fuel ->
    let payload := firstn (Z.to_nat frameLength) cursor in
    exists r,
      parseSettings_loop K fuel cursor frameLength settings = Some r
      /\ (forall ps,
             settings_pairs payload ps ->
             r = (None, settings ++ reported K ps,
                  skipn (Z.to_nat frameLength) cursor))
      /\ ((~ exists ps, settings_pairs payload ps) ->
          fst (fst r) = Some HTTP_MALFORMED_FRAME_SETTINGS).
Proof.
  induction fuel as [|fuel IH]; intros cursor fl settings Hfl H64 Hfuel payload;
    [lia|].
  cbn [parseSettings_loop].
  destruct (Z.ltb_spec 0 fl) as [Hpos|Hzero].
  2:{ assert (fl = 0) by lia. subst fl. subst payload. cbn [Z.to_nat firstn skipn].
      eexists. split; [reflexivity|]. split.
      - intros ps Hps. apply settings_pairs_inv in Hps.
        destruct Hps as [[_ ->] | (b1 & b2 & rest & id & v & ps' & Heq & _ & H1 & _)].
        + unfold reported. cbn [filter]. now rewrite app_nil_r.
        + apply is_varint_nonempty in H1. destruct b1; [contradiction | discriminate].
      - intros Hno. exfalso. apply Hno. exists []. constructor. }
  assert (Hpayload : cursor = payload ++ skipn (Z.to_nat fl) cursor)
    by (symmetry; apply firstn_skipn).
  assert (Hplen : Z.of_nat (List.length payload) = fl).
  { subst payload. unfold totalLength in Hfl. rewrite firstn_length_le by lia. lia. }
  destruct (quic.decodeQuicInteger cursor fl) as [[[id n1]|] c1] eqn:Hd1.
  - (* the identifier *)
    apply decodeQuicInteger_success in Hd1.
    destruct Hd1 as (bs1 & Hc1 & Hv1 & Hn1 & Hle1).
    pose proof (is_varint_length bs1 id Hv1) as Hl1.
    rewrite (u64_small (fl - n1)) by lia.
    unfold decodeSettingValue.
    destruct (quic.decodeQuicInteger c1 (fl - n1)) as [[[v n2]|] c2] eqn:Hd2.
    + (* the value *)
      apply decodeQuicInteger_success in Hd2.
      destruct Hd2 as (bs2 & Hc2 & Hv2 & Hn2 & Hle2).
      pose proof (is_varint_length bs2 v Hv2) as Hl2.
      rewrite (u64_small (fl - n1 - n2)) by lia.
      assert (Hcur : cursor = bs1 ++ bs2 ++ c2) by (rewrite Hc1, Hc2; reflexivity).
      assert (Hfl2 : Z.to_nat fl
                     = (List.length bs1
                        + (List.length bs2 + Z.to_nat (fl - n1 - n2)))%nat) by lia.
      assert (Hpay : payload = bs1 ++ bs2 ++ firstn (Z.to_nat (fl - n1 - n2)) c2).
      { subst payload. rewrite Hcur, Hfl2. now rewrite !firstn_app_exact. }
      assert (Hskip : skipn (Z.to_nat fl) cursor = skipn (Z.to_nat (fl - n1 - n2)) c2).
      { rewrite Hcur, Hfl2. now rewrite !skipn_app_exact. }
      assert (Hfit2 : 0 <= fl - n1 - n2 <= totalLength c2).
      { unfold totalLength in *. rewrite Hcur, !length_app in Hfl. lia. }
      destruct (isKnownSetting K id) eqn:Hk;
        [ set (settings' := settings ++ [(id, v)])
        | set (settings' := settings) ];
        (destruct (IH c2 (fl - n1 - n2) settings' Hfit2 ltac:(lia) ltac:(lia))
          as (r & Hr & IHyes & IHno);
         exists r; split; [exact Hr|]; split;
         [ intros ps Hps; rewrite Hpay in Hps; apply settings_pairs_inv in Hps;
           destruct Hps as [[Hnil _] | (b1 & b2 & rest & id' & v' & ps' & Heq & -> & H1
                                         & H2 & Hrest)];
           [ apply is_varint_nonempty in Hv1;
             destruct bs1; [contradiction|discriminate] |];
           destruct (is_varint_prefix_unique _ _ _ _ _ _ Hv1 H1 Heq) as (<- & Heq' & <-);
           destruct (is_varint_prefix_unique _ _ _ _ _ _ Hv2 H2 Heq') as (<- & <- & <-);
           rewrite (IHyes ps' Hrest), Hskip; f_equal; f_equal;
           subst settings'; unfold reported; cbn [filter fst]; rewrite Hk;
           first [now rewrite <- app_assoc | reflexivity]
         | intros Hno; apply IHno; intros [ps' Hps']; apply Hno;
           exists ((id, v) :: ps'); rewrite Hpay; now constructor ]).
    + (* no value *)
      apply decodeQuicInteger_none in Hd2 as Hc2. subst c2.
      eexists. split; [reflexivity|]. split; [|reflexivity].
      intros ps Hps. exfalso. apply settings_pairs_inv in Hps.
      destruct Hps as [[Hnil _] | (b1 & b2 & rest & id' & v' & ps' & Heq & -> & H1
                                    & H2 & Hrest)].
      { rewrite Hnil in Hplen. cbn in Hplen. lia. }
      assert (Hc : bs1 ++ c1 = b1 ++ b2 ++ rest ++ skipn (Z.to_nat fl) cursor).
      { rewrite <- Hc1. rewrite Hpayload at 1. rewrite Heq.
        now rewrite <- !app_assoc. }
      destruct (is_varint_prefix_unique _ _ _ _ _ _ Hv1 H1 Hc) as (<- & -> & _).
      pose proof (decodeQuicInteger_none_no_varint _ _ _ _ _ Hd2 H2) as Hshort.
      rewrite Heq, !length_app in Hplen. lia.
  - (* no identifier *)
    apply decodeQuicInteger_none in Hd1 as Hc1. subst c1.
    eexists. split; [reflexivity|]. split; [|reflexivity].
    intros ps Hps. exfalso. apply settings_pairs_inv in Hps.
    destruct Hps as [[Hnil _] | (b1 & b2 & rest & id' & v' & ps' & Heq & -> & H1
                                  & H2 & Hrest)].
    { rewrite Hnil in Hplen. cbn in Hplen. lia. }
    rewrite Hpayload, Heq, <- app_assoc in Hd1.
    pose proof (decodeQuicInteger_none_no_varint _ _ _ _ _ Hd1 H1) as Hshort.
    rewrite Heq, !length_app in Hplen. lia.
Qed.

(** The loop of [parseSettings] ends within the fuel it is given. *)
Lemma parseSettings_loop_total (cursor : Cursor) (header : FrameHeader.t)
      (settings : list SettingPair) :
  0 <= FrameHeader.length header <= totalLength cursor ->
  FrameHeader.length header < 2 ^ 64 ->
  parseSettings_loop K (S (List.length cursor)) cursor (FrameHeader.length header)
                     settings
  = Some (parseSettings K cursor header settings).
Proof.
  intros Hfit H64. unfold parseSettings.
  destruct (parseSettings_loop_spec (S (List.length cursor)) cursor
              (FrameHeader.length header) settings Hfit H64
              ltac:(unfold totalLength in Hfit; lia)) as (r & -> & _).
  reflexivity.
Qed.

(** C6.  [parseSettings] on a payload of the declared length.  When the
    payload is a sequence of (identifier, value) varint pairs, the parser
    reads all of it, and appends to the settings exactly the pairs whose
    identifier is one of the four known ones, in wire order: the pairs with
    other identifiers are read and left out.  When the payload is no such
    sequence, that is when an identifier or a value is missing or cut short
    by the end of the payload, the parser answers
    [HTTP_MALFORMED_FRAME_SETTINGS]. *)
Theorem parseSettings_reports_known_pairs
        (cursor : Cursor) (header : FrameHeader.t) (settings : list SettingPair)
        (Hfit : 0 <= FrameHeader.length header <= totalLength cursor)
        (H64 : FrameHeader.length header < 2 ^ 64) :
  let payload := firstn (Z.to_nat (FrameHeader.length header)) cursor in
  (forall ps,
      settings_pairs payload ps ->
      parseSettings K cursor header settings
      = (None, settings ++ reported K ps,
         skipn (Z.to_nat (FrameHeader.length header)) cursor))
  /\ ((~ exists ps, settings_pairs payload ps) ->
      fst (fst (parseSettings K cursor header settings))
      = Some HTTP_MALFORMED_FRAME_SETTINGS).
Proof.
  intros payload. unfold parseSettings.
  destruct (parseSettings_loop_spec (S (List.length cursor)) cursor
              (FrameHeader.length header) settings Hfit H64
              ltac:(unfold totalLength in Hfit; lia)) as (r & -> & Hyes & Hno).
  split; assumption.
Qed.

End Settings.

(** ** PRIORITY *)

(** Decoding at an offset of the cursor, with what is left of a declared
    length as the bound, read off the payload. *)
Lemma decodeQuicInteger_at (cursor : Cursor) (len off : Z) :
  0 <= off <= len -> len <= totalLength cursor ->
  let payload := firstn (Z.to_nat len) cursor in
  match quic.decodeQuicInteger (skipn (Z.to_nat off) cursor) (len - off) with
  | (None, _) =>
      match varint_at payload off with
      | None => True
      | Some n => len < off + n
      end
  | (Some (v, n), c') =>
      varint_at payload off = Some n /\ 1 <= n /\ off + n <= len
      /\ v = varint_value_at payload off
      /\ c' = skipn (Z.to_nat (off + n)) cursor
  end.
Proof.
  intros Hoff Hlen payload. unfold totalLength in Hlen.
  assert (Hplen : List.length payload = Z.to_nat len)
    by (subst payload; apply firstn_length_le; lia).
  unfold varint_value_at, varint_at.
  destruct (Z.ltb_spec off 0); [lia|].
  destruct (skipn (Z.to_nat off) cursor) as [|b t] eqn:Hsk.
  - (* nothing ahead *)
    cbn [quic.decodeQuicInteger].
    assert (Hall : (List.length cursor <= Z.to_nat off)%nat).
    { apply (f_equal (@List.length byte)) in Hsk. rewrite length_skipn in Hsk.
      cbn in Hsk. lia. }
    assert (Hnone : nth_error payload (Z.to_nat off) = None)
      by (apply nth_error_None; lia).
    now rewrite Hnone.
  - assert (Hnth : nth_error cursor (Z.to_nat off) = Some b).
    { rewrite <- (firstn_skipn (Z.to_nat off) cursor), Hsk.
      rewrite nth_error_app2 by (rewrite length_firstn; lia).
      assert (Hlt : (Z.to_nat off < List.length cursor)%nat).
      { destruct (Nat.lt_ge_cases (Z.to_nat off) (List.length cursor)) as [|Hge];
          [assumption|]. rewrite skipn_all2 in Hsk by exact Hge. discriminate. }
      rewrite length_firstn, Nat.min_l by lia. now rewrite Nat.sub_diag. }
    assert (Htot : totalLength (b :: t) = Z.of_nat (List.length cursor) - off).
    { unfold totalLength. rewrite <- Hsk, length_skipn. lia. }
    rewrite decodeQuicInteger_cons, Htot.
    pose proof (varint_class_cases b) as Hcl.
    destruct (Z.ltb_spec 0 (len - off)) as [Hpos|Hend].
    + assert (Hpn : nth_error payload (Z.to_nat off) = Some b).
      { subst payload. rewrite nth_error_firstn.
        destruct (Nat.ltb_spec (Z.to_nat off) (Z.to_nat len)); [exact Hnth | lia]. }
      rewrite Hpn. cbn [option_map].
      destruct (Z.leb_spec (varint_class b) (Z.of_nat (List.length cursor) - off));
        destruct (Z.leb_spec (varint_class b) (len - off)); cbn [andb]; try lia.
      repeat split; try lia.
      * f_equal. f_equal. subst payload.
        rewrite skipn_firstn_comm, firstn_firstn, Hsk. f_equal. lia.
      * rewrite <- Hsk, skipn_skipn. f_equal. lia.
    + cbn [andb].
      assert (Hnone : nth_error payload (Z.to_nat off) = None)
        by (apply nth_error_None; lia).
      now rewrite Hnone.
Qed.

Lemma PriorityElementType_eqb_eq (a b : PriorityElementType) :
  PriorityElementType_eqb a b = true <-> a = b.
Proof. destruct a, b; cbv; split; congruence. Qed.

Lemma PriorityElementType_eqb_neq (a b : PriorityElementType) :
  PriorityElementType_eqb a b = false <-> a <> b.
Proof. destruct a, b; cbv; split; congruence. Qed.

Lemma varint_at_range (payload : list byte) (off n : Z) :
  varint_at payload off = Some n -> 1 <= n <= 8.
Proof.
  unfold varint_at. destruct (off <? 0); [discriminate|].
  destruct (nth_error payload (Z.to_nat off)) as [b|]; [|discriminate].
  cbn [option_map]. intros [= <-]. pose proof (varint_class_cases b). lia.
Qed.

Section Priority.
Variable K : HQConstants.

(** The end of [parsePriority]: the weight and the residual length, at an
    offset [off] of the cursor with [len - off] of the declared length
    left. *)
Lemma parsePriority_weight (cursor : Cursor) (len off : Z) (o : PriorityUpdate) :
  0 <= off <= len -> len <= totalLength cursor -> len < 2 ^ 64 ->
  let c := skipn (Z.to_nat off) cursor in
  let payload := firstn (Z.to_nat len) cursor in
  let r :=
    if negb (canAdvance c 1) then (Some HTTP_MALFORMED_FRAME_PRIORITY, o, c)
    else
      let (w, c') := readBE_uint8 c in
      let o' := set_weight o w in
      let frameLength := u64 (len - off - 1) in
      if negb (frameLength =? 0) then (Some HTTP_MALFORMED_FRAME_PRIORITY, o', c')
      else (None, o', c') in
  (len <> off + 1 /\ fst (fst r) = Some HTTP_MALFORMED_FRAME_PRIORITY)
  \/ (len = off + 1
      /\ r = (None, set_weight o (byte_at payload (len - 1)),
              skipn (Z.to_nat len) cursor)).
Proof.
  intros Hoff Hlen H64 c payload. unfold totalLength in Hlen.
  assert (Hc : totalLength c = Z.of_nat (List.length cursor) - off)
    by (subst c; unfold totalLength; rewrite length_skipn; lia).
  unfold canAdvance. rewrite Hc.
  destruct (Z.leb_spec 1 (Z.of_nat (List.length cursor) - off)) as [Hone|Hzero];
    cbn [negb].
  2:{ left. split; [lia | reflexivity]. }
  destruct c as [|w c'] eqn:Hsk; [unfold totalLength in Hc; cbn in Hc; lia|].
  cbn [readBE_uint8].
  destruct (Z.eq_dec len off) as [->|Hne].
  - left. split; [lia|]. replace (off - off - 1) with (-1) by lia.
    reflexivity.
  - rewrite u64_small by lia.
    destruct (Z.eqb_spec (len - off - 1) 0) as [Hz|Hnz]; cbn [negb].
    + right. split; [lia|].
      assert (Hcur : cursor = firstn (Z.to_nat off) cursor ++ w :: c').
      { rewrite <- Hsk. subst c. symmetry. apply firstn_skipn. }
      f_equal; [f_equal; f_equal|].
      * unfold byte_at. subst payload.
        rewrite nth_error_firstn.
        destruct (Nat.ltb_spec (Z.to_nat (len - 1)) (Z.to_nat len)); [|lia].
        rewrite Hcur, nth_error_app2 by (rewrite length_firstn; lia).
        rewrite length_firstn, Nat.min_l by lia.
        replace (Z.to_nat (len - 1) - Z.to_nat off)%nat with 0%nat by lia.
        reflexivity.
      * replace (Z.to_nat len) with (1 + Z.to_nat off)%nat by lia.
        rewrite <- skipn_skipn. fold c. now rewrite Hsk.
    + left. split; [lia | reflexivity].
Qed.

(** [parsePriority] against the reading of the payload: either the frame
    is invalid and the answer is the error, or it is valid and the answer is
    the [PriorityUpdate] the payload stands for. *)
Lemma parsePriority_spec (cursor : Cursor) (header : FrameHeader.t)
      (out : PriorityUpdate) :
  0 <= FrameHeader.length header <= totalLength cursor ->
  FrameHeader.length header < 2 ^ 64 ->
  let len := FrameHeader.length header in
  let payload := firstn (Z.to_nat len) cursor in
  (priority_invalid K payload len
   /\ fst (fst (parsePriority K cursor header out))
      = Some HTTP_MALFORMED_FRAME_PRIORITY)
  \/ (~ priority_invalid K payload len
      /\ parsePriority K cursor header out
         = (None, priority_of_payload K payload len out,
            skipn (Z.to_nat len) cursor)).
Proof.
  intros Hfit H64 len payload. subst payload. unfold parsePriority. fold len.
  destruct cursor as [|b0 c0].
  { left. split; [|reflexivity].
    right. right. left. unfold field_cut_short.
    now rewrite firstn_nil. }
  assert (Hadv : canAdvance (b0 :: c0) 1 = true).
  { unfold canAdvance, totalLength. cbn [List.length]. apply Z.leb_le. lia. }
  rewrite Hadv. cbn [negb readBE_uint8].
  destruct (Z.eq_dec len 0) as [Hz|Hnz].
  - (* a declared length of zero *)
    left. split.
    { right. right. left. unfold field_cut_short.
      rewrite Hz. reflexivity. }
    rewrite Hz. change (u64 (0 - 1)) with (2 ^ 64 - 1).
    destruct (decodePriorityFlags K (byte.unsigned b0) out) as [res o1].
    destruct res; cbn [negb]; [|reflexivity].
    destruct (PriorityElementType_eqb (prioritizedType o1) TREE_ROOT); [reflexivity|].
    destruct (quic.decodeQuicInteger c0 (2 ^ 64 - 1)) as [[[v1 n1]|] c1] eqn:Hd1;
      [|reflexivity].
    apply decodeQuicInteger_success in Hd1.
    destruct Hd1 as (bs1 & _ & Hv1 & Hn1 & _).
    apply is_varint_length in Hv1.
    rewrite (u64_small (2 ^ 64 - 1 - n1)) by lia.
    assert (Hend : forall fl c (o : PriorityUpdate),
               2 ^ 64 - 17 <= fl < 2 ^ 64 ->
               fst (fst (if negb (canAdvance c 1)
                         then (Some HTTP_MALFORMED_FRAME_PRIORITY, o, c)
                         else
                           let (w, c') := readBE_uint8 c in
                           if negb (u64 (fl - 1) =? 0)
                           then (Some HTTP_MALFORMED_FRAME_PRIORITY, set_weight o w, c')
                           else (None, set_weight o w, c')))
               = Some HTTP_MALFORMED_FRAME_PRIORITY).
    { intros fl c o Hflr. destruct (canAdvance c 1); cbn [negb]; [|reflexivity].
      destruct (readBE_uint8 c) as [w c']. rewrite u64_small by lia.
      destruct (Z.eqb_spec (fl - 1) 0); [lia | reflexivity]. }
    destruct (negb (PriorityElementType_eqb _ TREE_ROOT)).
    + destruct (quic.decodeQuicInteger c1 (2 ^ 64 - 1 - n1)) as [[[v2 n2]|] c2] eqn:Hd2;
        [|reflexivity].
      apply decodeQuicInteger_success in Hd2.
      destruct Hd2 as (bs2 & _ & Hv2 & Hn2 & _).
      apply is_varint_length in Hv2.
      rewrite (u64_small (2 ^ 64 - 1 - n1 - n2)) by lia.
      cbn [negb]. apply Hend. lia.
    + cbn [negb]. apply Hend. lia.
  - (* at least the flags are within the declared length *)
    assert (Hlen1 : 1 <= len) by (subst len; lia).
    rewrite (u64_small (len - 1)) by lia.
    assert (Hpay : firstn (Z.to_nat len) (b0 :: c0)
                   = b0 :: firstn (Z.to_nat (len - 1)) c0).
    { replace (Z.to_nat len) with (S (Z.to_nat (len - 1))) by lia. reflexivity. }
    set (P := b0 :: firstn (Z.to_nat (len - 1)) c0) in *.
    unfold decodePriorityFlags.
    fold (flags_empty K (byte.unsigned b0)).
    fold (flags_prioritizedType K (byte.unsigned b0)).
    fold (flags_dependencyType K (byte.unsigned b0)).
    fold (flags_exclusive K (byte.unsigned b0)).
    assert (Hflags : forall flags rest, P = flags :: rest -> flags = b0)
      by (intros flags rest [= <- _]; reflexivity).
    destruct (Z.eqb_spec (flags_empty K (byte.unsigned b0)) 0) as [Hempty|Hempty];
      cbn [negb].
    2:{ left. split; [|reflexivity]. left. rewrite Hpay. eexists. eexists.
        split; [reflexivity | exact Hempty]. }
    cbn [prioritizedType].
    destruct (PriorityElementType_eqb (flags_prioritizedType K (byte.unsigned b0))
                                      TREE_ROOT) eqn:Hpt.
    { left. split; [|reflexivity]. right. left. rewrite Hpay. eexists. eexists.
      split; [reflexivity | now apply PriorityElementType_eqb_eq]. }
    apply PriorityElementType_eqb_neq in Hpt.
    match goal with
    | |- context [set_prioritizedElementId ?o _] => set (o1 := o)
    end.
    assert (Hvalid_flags : ~ empty_bits_set K P /\ ~ prioritizes_root K P).
    { split; intros (flags & rest & Heq & Hbad); apply Hflags in Heq; subst flags;
        contradiction. }
    destruct Hvalid_flags as [Hne Hnr].
    rewrite Hpay.
    pose proof (decodeQuicInteger_at (b0 :: c0) len 1 ltac:(lia) (proj2 Hfit)) as Hat1.
    cbv zeta in Hat1. rewrite Hpay in Hat1.
    change (Z.to_nat 1) with 1%nat in Hat1. cbn [skipn] in Hat1.
    destruct (quic.decodeQuicInteger c0 (len - 1)) as [[[v1 n1]|] c1].
    2:{ left. split; [|reflexivity]. right. right. left.
        unfold field_cut_short, priority_extent. fold P. unfold P at 1.
        destruct (varint_at P 1) as [n1|] eqn:E1; [|exact I].
        destruct (PriorityElementType_eqb _ TREE_ROOT); [lia|].
        destruct (varint_at P (1 + n1)) as [n2|] eqn:E2; [|exact I].
        apply varint_at_range in E2. lia. }
    destruct Hat1 as (E1 & Hn1 & Hle1 & Hv1 & Hc1).
    rewrite (u64_small (len - 1 - n1)) by lia.
    cbn [dependencyType set_prioritizedElementId o1].
    assert (Hext : priority_extent K P
                   = if PriorityElementType_eqb
                          (flags_dependencyType K (byte.unsigned b0)) TREE_ROOT
                     then Some (1 + n1 + 1)
                     else match varint_at P (1 + n1) with
                          | None => None
                          | Some n2 => Some (1 + n1 + n2 + 1)
                          end).
    { unfold priority_extent. unfold P at 1. now rewrite E1. }
    assert (Hfinish : forall off (o : PriorityUpdate),
               0 <= off <= len ->
               priority_extent K P = Some (off + 1) ->
               let r :=
                 if negb (canAdvance (skipn (Z.to_nat off) (b0 :: c0)) 1)
                 then (Some HTTP_MALFORMED_FRAME_PRIORITY, o,
                       skipn (Z.to_nat off) (b0 :: c0))
                 else
                   let (w, c') := readBE_uint8 (skipn (Z.to_nat off) (b0 :: c0)) in
                   if negb (u64 (len - off - 1) =? 0)
                   then (Some HTTP_MALFORMED_FRAME_PRIORITY, set_weight o w, c')
                   else (None, set_weight o w, c') in
               (priority_invalid K P len
                /\ fst (fst r) = Some HTTP_MALFORMED_FRAME_PRIORITY)
               \/ (~ priority_invalid K P len
                   /\ r = (None, set_weight o (byte_at P (len - 1)),
                           skipn (Z.to_nat len) (b0 :: c0)))).
    { intros off o Hoff Hex.
      pose proof (parsePriority_weight (b0 :: c0) len off o Hoff (proj2 Hfit) H64)
        as Hw.
      cbv zeta in Hw |- *. rewrite Hpay in Hw.
      destruct Hw as [[Hlen Herr] | [Hlen Hres]].
      - left. split; [|exact Herr]. right. right.
        unfold field_cut_short, residual_left. rewrite Hex. lia.
      - right. split; [|exact Hres].
        intros [Hb | [Hb | [Hb | Hb]]]; try contradiction;
          unfold field_cut_short, residual_left in Hb; rewrite Hex in Hb; lia. }
    subst c1.
    destruct (PriorityElementType_eqb (flags_dependencyType K (byte.unsigned b0))
                                      TREE_ROOT) eqn:Hdt; cbn [negb].
    + (* the dependency is the root: no element dependency id *)
      replace (len - 1 - n1) with (len - (1 + n1)) by lia.
      destruct (Hfinish (1 + n1) (set_prioritizedElementId o1 v1) ltac:(lia) Hext)
        as [[Hinv Herr] | [Hok Hres]].
      * left. split; [exact Hinv | exact Herr].
      * right. split; [exact Hok|]. etransitivity; [exact Hres|].
        f_equal. f_equal. unfold priority_of_payload, set_weight,
          set_prioritizedElementId, o1.
        cbn [prioritizedType dependencyType exclusive prioritizedElementId
             elementDependencyId weight].
        change (byte_at P 0) with (byte.unsigned b0). rewrite Hdt, Hv1.
        reflexivity.
    + (* the element dependency id *)
      replace (len - 1 - n1) with (len - (1 + n1)) by lia.
      pose proof (decodeQuicInteger_at (b0 :: c0) len (1 + n1) ltac:(lia) (proj2 Hfit))
        as Hat2.
      cbv zeta in Hat2. rewrite Hpay in Hat2.
      destruct (quic.decodeQuicInteger (skipn (Z.to_nat (1 + n1)) (b0 :: c0))
                                       (len - (1 + n1))) as [[[v2 n2]|] c2].
      2:{ left. split; [|reflexivity]. right. right. left.
          unfold field_cut_short. rewrite Hext.
          destruct (varint_at P (1 + n1)) as [n2|]; [lia | exact I]. }
      destruct Hat2 as (E2 & Hn2 & Hle2 & Hv2 & Hc2).
      rewrite E2 in Hext.
      rewrite (u64_small (len - (1 + n1) - n2)) by lia. cbn [negb]. subst c2.
      replace (len - (1 + n1) - n2) with (len - (1 + n1 + n2)) by lia.
      destruct (Hfinish (1 + n1 + n2)
                  (set_elementDependencyId (set_prioritizedElementId o1 v1) v2)
                  ltac:(lia) Hext)
        as [[Hinv Herr] | [Hok Hres]].
      * left. split; [exact Hinv | exact Herr].
      * right. split; [exact Hok|]. etransitivity; [exact Hres|].
        f_equal. f_equal. unfold priority_of_payload, set_weight,
          set_elementDependencyId, set_prioritizedElementId, o1.
        cbn [prioritizedType dependencyType exclusive prioritizedElementId
             elementDependencyId weight].
        change (byte_at P 0) with (byte.unsigned b0). rewrite Hdt, E1, Hv1, Hv2.
        reflexivity.
Qed.
(** C5.  On a payload of the declared length, [parsePriority] answers
    [HTTP_MALFORMED_FRAME_PRIORITY] if and only if the frame is invalid:
    one of the three empty flag bits is set, or the prioritized type is the
    root, or a field (flags, prioritized element id, element dependency id
    unless the dependency type is the root, weight) does not fit in the
    declared length, or bytes are left after the weight.  Otherwise it
    succeeds, having read the whole payload, and the [PriorityUpdate] holds
    the types and the exclusive flag of the flag byte, the ids of the
    varints and the weight of the last byte. *)
Theorem parsePriority_malformed_iff_invalid
        (cursor : Cursor) (header : FrameHeader.t) (out : PriorityUpdate)
        (Hfit : 0 <= FrameHeader.length header <= totalLength cursor)
        (H64 : FrameHeader.length header < 2 ^ 64) :
  let len := FrameHeader.length header in
  let payload := firstn (Z.to_nat len) cursor in
  (fst (fst (parsePriority K cursor header out))
   = Some HTTP_MALFORMED_FRAME_PRIORITY
   <-> priority_invalid K payload len)
  /\ (~ priority_invalid K payload len ->
      parsePriority K cursor header out
      = (None, priority_of_payload K payload len out,
         skipn (Z.to_nat len) cursor)).
Proof.
  cbv zeta.
  destruct (parsePriority_spec cursor header out Hfit H64)
    as [[Hinv Herr] | [Hok Hres]].
  - split; [split; intros; assumption | intros Hno; contradiction].
  - split; [split|].
    + rewrite Hres. discriminate.
    + intros Hinv. contradiction.
    + intros _. exact Hres.
Qed.

End Priority.

(** ** The flag byte of PRIORITY *)

Lemma in_zrange (lo x : Z) (count : nat) :
  lo <= x < lo + Z.of_nat count -> In x (zrange lo count).
Proof.
  intros Hx. unfold zrange. apply in_map_iff. exists (Z.to_nat (x - lo)).
  split; [lia|]. apply in_seq. lia.
Qed.

Lemma in_range_true (lo hi x : Z) : in_range lo hi x = true <-> lo <= x < hi.
Proof. unfold in_range. rewrite andb_true_iff, Z.leb_le, Z.ltb_lt. tauto. Qed.

Lemma forallb_zrange (f : Z -> bool) (lo : Z) (count : nat) (x : Z) :
  forallb f (zrange lo count) = true -> lo <= x < lo + Z.of_nat count -> f x = true.
Proof.
  intros Hall Hx. rewrite forallb_forall in Hall. apply Hall. now apply in_zrange.
Qed.

(** Every layout that keeps the four fields apart reads its own flag bytes
    back; there are finitely many layouts, and they are all tried. *)
Lemma all_layouts_checked :
  forallb (fun pos_pt =>
    forallb (fun pos_dt =>
      forallb (fun pos_empty =>
        forallb (fun mask_ex => layout_check pos_pt pos_dt pos_empty mask_ex)
                (zrange 1 255))
              (zrange 0 6))
            (zrange 0 7))
          (zrange 0 7)
  = true.
Proof. vm_compute. reflexivity. Qed.

Lemma layout_checked (p d e m : Z) :
  0 <= p < 7 -> 0 <= d < 7 -> 0 <= e < 6 -> 1 <= m < 256 ->
  layout_check p d e m = true.
Proof.
  intros Hp Hd He Hm.
  exact (forallb_zrange _ 1 255 m
           (forallb_zrange _ 0 6 e
              (forallb_zrange _ 0 7 d
                 (forallb_zrange _ 0 7 p all_layouts_checked Hp) Hd) He) Hm).
Qed.

Lemma flags_read_back_layout (K : HQConstants) (pt dt : PriorityElementType)
      (ex : bool) :
  flags_read_back
    (layout_constants (PRIORITIZED_TYPE_POS K) (DEPENDENCY_TYPE_POS K)
                      (PRIORITY_EMPTY_POS K) (PRIORITY_EXCLUSIVE_MASK K)) pt dt ex
  = flags_read_back K pt dt ex.
Proof. reflexivity. Qed.

Lemma flags_layout_ok_layout (K : HQConstants) :
  flags_layout_ok
    (layout_constants (PRIORITIZED_TYPE_POS K) (DEPENDENCY_TYPE_POS K)
                      (PRIORITY_EMPTY_POS K) (PRIORITY_EXCLUSIVE_MASK K))
  = flags_layout_ok K.
Proof. reflexivity. Qed.

Lemma flags_layout_ok_ranges (K : HQConstants) :
  flags_layout_ok K = true ->
  0 <= PRIORITIZED_TYPE_POS K < 7 /\ 0 <= DEPENDENCY_TYPE_POS K < 7
  /\ 0 <= PRIORITY_EMPTY_POS K < 6 /\ 1 <= PRIORITY_EXCLUSIVE_MASK K < 256.
Proof.
  unfold flags_layout_ok. cbv zeta. rewrite !andb_true_iff, !in_range_true. tauto.
Qed.

Lemma flags_read_back_ok (K : HQConstants) (pt dt : PriorityElementType) (ex : bool) :
  flags_layout_ok K = true -> flags_read_back K pt dt ex = true.
Proof.
  intros Hok. rewrite <- flags_read_back_layout.
  destruct (flags_layout_ok_ranges K Hok) as (Hp & Hd & He & Hm).
  pose proof (layout_checked _ _ _ _ Hp Hd He Hm) as Hall.
  unfold layout_check in Hall. cbv zeta in Hall.
  rewrite flags_layout_ok_layout, Hok in Hall.
  unfold flags_roundtrip_check in Hall.
  rewrite forallb_forall in Hall.
  specialize (Hall pt ltac:(destruct pt; cbn; auto)).
  rewrite forallb_forall in Hall.
  specialize (Hall dt ltac:(destruct dt; cbn; auto)).
  rewrite forallb_forall in Hall.
  specialize (Hall ex ltac:(destruct ex; cbn; auto)).
  exact Hall.
Qed.

(** The flag byte [encodePriorityFlags] builds is a byte, and
    [decodePriorityFlags] finds in it the two types and the exclusive flag,
    with the empty bits clear. *)
Lemma decodePriorityFlags_encode (K : HQConstants) (p out : PriorityUpdate) :
  flags_layout_ok K = true ->
  0 <= encodePriorityFlags K p < 256
  /\ decodePriorityFlags K (encodePriorityFlags K p) out
     = (true, mkPriorityUpdate (prioritizedType p) (dependencyType p) (exclusive p)
                               (prioritizedElementId out) (elementDependencyId out)
                               (weight out)).
Proof.
  intros Hok.
  pose proof (flags_read_back_ok K (prioritizedType p) (dependencyType p)
                                 (exclusive p) Hok) as Hrb.
  unfold flags_read_back in Hrb.
  assert (Henc : encodePriorityFlags K
                   (mkPriorityUpdate (prioritizedType p) (dependencyType p)
                                     (exclusive p) 0 0 0)
                 = encodePriorityFlags K p) by (destruct p; reflexivity).
  rewrite Henc in Hrb. cbv zeta in Hrb.
  rewrite !andb_true_iff, in_range_true, !PriorityElementType_eqb_eq,
    Bool.eqb_true_iff in Hrb.
  destruct Hrb as ((((Hr & Hpt) & Hdt) & Hex) & Hem).
  split; [exact Hr|].
  unfold decodePriorityFlags.
  fold (flags_empty K (encodePriorityFlags K p)).
  fold (flags_prioritizedType K (encodePriorityFlags K p)).
  fold (flags_dependencyType K (encodePriorityFlags K p)).
  fold (flags_exclusive K (encodePriorityFlags K p)).
  rewrite Hpt, Hdt, Hex, Hem. reflexivity.
Qed.

(** ** Round trips of the payloads *)

Lemma firstn_app_all {A : Type} (l r : list A) :
  firstn (List.length l) (l ++ r) = l.
Proof.
  rewrite firstn_app, Nat.sub_diag, firstn_all, firstn_O. apply app_nil_r.
Qed.

Lemma skipn_app_all {A : Type} (l r : list A) :
  skipn (List.length l) (l ++ r) = r.
Proof. rewrite skipn_app, Nat.sub_diag, skipn_all, skipn_O. reflexivity. Qed.

Lemma clone_app (data rest : list byte) :
  clone (data ++ rest) (computeChainDataLength data) = (data, rest).
Proof.
  unfold clone, computeChainDataLength. rewrite Nat2Z.id.
  now rewrite firstn_app_all, skipn_app_all.
Qed.

Lemma parseData_roundtrip (data rest out : list byte) (ty : FrameType) :
  data <> [] ->
  parseData (data ++ rest) (FrameHeader.mk ty (computeChainDataLength data)) out
  = (None, data, rest).
Proof.
  intros Hne. unfold parseData. cbn [FrameHeader.length].
  destruct (Z.eqb_spec (computeChainDataLength data) 0) as [Hz|_].
  - destruct data; [contradiction|]. unfold computeChainDataLength in Hz.
    cbn [List.length] in Hz. lia.
  - now rewrite clone_app.
Qed.

Lemma parseHeaders_roundtrip (data rest out : list byte) (ty : FrameType) :
  parseHeaders (data ++ rest) (FrameHeader.mk ty (computeChainDataLength data)) out
  = (None, data, rest).
Proof. unfold parseHeaders. cbn [FrameHeader.length]. now rewrite clone_app. Qed.

Section PayloadRoundTrips.
Variable K : HQConstants.

(** The identifier read back from its varint, with nothing of the declared
    length left. *)
Lemma decode_whole (v : Z) (rest : list byte) :
  0 <= v <= quic.kEightByteLimit ->
  quic.decodeQuicInteger (varint_bytes v ++ rest)
                         (computeChainDataLength (varint_bytes v))
  = (Some (v, varint_size v), rest)
  /\ u64 (computeChainDataLength (varint_bytes v) - varint_size v) = 0.
Proof.
  intros Hv. unfold computeChainDataLength.
  rewrite length_varint_bytes by lia. split.
  - apply decode_encode; [exact Hv | lia].
  - now rewrite Z.sub_diag.
Qed.

Lemma parseCancelPush_roundtrip (v out : Z) (rest : list byte) (ty : FrameType) :
  0 <= v <= quic.kEightByteLimit ->
  parseCancelPush K (varint_bytes v ++ rest)
                  (FrameHeader.mk ty (computeChainDataLength (varint_bytes v))) out
  = (None, Z.lor v (kPushIdMask K), rest).
Proof.
  intros Hv. unfold parseCancelPush. cbn [FrameHeader.length].
  destruct (decode_whole v rest Hv) as [-> ->]. reflexivity.
Qed.

Lemma parseMaxPushId_roundtrip (v out : Z) (rest : list byte) (ty : FrameType) :
  0 <= v <= quic.kEightByteLimit ->
  parseMaxPushId K (varint_bytes v ++ rest)
                 (FrameHeader.mk ty (computeChainDataLength (varint_bytes v))) out
  = (None, Z.lor v (kPushIdMask K), rest).
Proof.
  intros Hv. unfold parseMaxPushId. cbn [FrameHeader.length].
  destruct (decode_whole v rest Hv) as [-> ->]. reflexivity.
Qed.

Lemma parseGoaway_roundtrip (v out : Z) (rest : list byte) (ty : FrameType) :
  0 <= v <= quic.kEightByteLimit ->
  parseGoaway (varint_bytes v ++ rest)
              (FrameHeader.mk ty (computeChainDataLength (varint_bytes v))) out
  = (None, v, rest).
Proof.
  intros Hv. unfold parseGoaway. cbn [FrameHeader.length].
  destruct (decode_whole v rest Hv) as [-> ->]. reflexivity.
Qed.

Lemma parsePushPromise_roundtrip (v out : Z) (data rest outBuf : list byte)
      (ty : FrameType) :
  0 <= v <= quic.kEightByteLimit ->
  varint_size v + computeChainDataLength data < 2 ^ 64 ->
  parsePushPromise K (varint_bytes v ++ data ++ rest)
                   (FrameHeader.mk ty (varint_size v + computeChainDataLength data))
                   out outBuf
  = (None, Z.lor v (kPushIdMask K), data, rest).
Proof.
  intros Hv H64. unfold parsePushPromise. cbn [FrameHeader.length].
  pose proof (varint_size_pos v (proj2 Hv)) as Hs.
  assert (Hd : 0 <= computeChainDataLength data)
    by (unfold computeChainDataLength; lia).
  rewrite decode_encode by lia.
  replace (varint_size v + computeChainDataLength data - varint_size v)
    with (computeChainDataLength data) by lia.
  rewrite u64_small by lia. now rewrite clone_app.
Qed.

(** SETTINGS: the payload written is a sequence of pairs. *)
Lemma writeSettings_payload_bytes (settings : list SettingPair) (q : IOBufQueue) :
  Forall (fun pr : SettingPair => fst pr <= quic.kEightByteLimit
                                  /\ snd pr <= quic.kEightByteLimit) settings ->
  writeSettings_payload settings q = q ++ settings_payload settings.
Proof.
  intros Hall. revert q. induction Hall as [|pr rest [H1 H2] _ IH]; intros q.
  - cbn. now rewrite app_nil_r.
  - cbn [writeSettings_payload settings_payload map concat].
    rewrite (encodeQuicInteger_fits _ q H1).
    rewrite (encodeQuicInteger_fits _ _ H2). rewrite IH.
    unfold settings_payload. now rewrite <- !app_assoc.
Qed.

Lemma writeSettings_size_inv (settings : list SettingPair) (acc n : Z) :
  writeSettings_size settings acc = Ok n ->
  Forall (fun pr : SettingPair => fst pr <= quic.kEightByteLimit
                                  /\ snd pr <= quic.kEightByteLimit) settings
  /\ n = acc + computeChainDataLength (settings_payload settings).
Proof.
  revert acc. induction settings as [|pr rest IH]; intros acc.
  - cbn. intros [= <-]. split; [constructor | lia].
  - cbn [writeSettings_size].
    destruct (quic.getQuicIntegerSize (fst pr)) as [n1|] eqn:H1; [|discriminate].
    destruct (quic.getQuicIntegerSize (snd pr)) as [n2|] eqn:H2; [|discriminate].
    apply getQuicIntegerSize_inv in H1. apply getQuicIntegerSize_inv in H2.
    destruct H1 as [H1 ->], H2 as [H2 ->].
    intros Hrest. apply IH in Hrest. destruct Hrest as [Hall ->].
    split; [constructor; auto|].
    unfold settings_payload, computeChainDataLength.
    cbn [map concat]. rewrite !length_app, !Nat2Z.inj_add.
    rewrite !length_varint_bytes by assumption. lia.
Qed.

Lemma settings_payload_pairs (settings : list SettingPair) :
  Forall (fun pr : SettingPair => 0 <= fst pr <= quic.kEightByteLimit
                                  /\ 0 <= snd pr <= quic.kEightByteLimit) settings ->
  settings_pairs (settings_payload settings) settings.
Proof.
  induction 1 as [|[id v] rest [H1 H2] _ IH].
  - constructor.
  - unfold settings_payload. cbn [map concat fst snd]. rewrite <- app_assoc.
    constructor; [now apply is_varint_bytes | now apply is_varint_bytes | exact IH].
Qed.

Lemma reported_all_known (settings : list SettingPair) :
  Forall (fun pr : SettingPair => isKnownSetting K (fst pr) = true) settings ->
  reported K settings = settings.
Proof.
  unfold reported. induction 1 as [|pr rest Hk _ IH]; [reflexivity|].
  cbn [filter]. now rewrite Hk, IH.
Qed.

Lemma parseSettings_roundtrip (settings : list SettingPair) (rest : list byte)
      (ty : FrameType) :
  Forall (fun pr : SettingPair => 0 <= fst pr <= quic.kEightByteLimit
                                  /\ 0 <= snd pr <= quic.kEightByteLimit) settings ->
  Forall (fun pr : SettingPair => isKnownSetting K (fst pr) = true) settings ->
  computeChainDataLength (settings_payload settings) < 2 ^ 64 ->
  parseSettings K (settings_payload settings ++ rest)
                (FrameHeader.mk ty (computeChainDataLength (settings_payload settings)))
                []
  = (None, settings, rest).
Proof.
  intros Hfit Hknown H64.
  pose proof (parseSettings_reports_known_pairs K
                (settings_payload settings ++ rest)
                (FrameHeader.mk ty (computeChainDataLength (settings_payload settings)))
                []) as Hspec.
  cbn [FrameHeader.length] in Hspec.
  unfold computeChainDataLength, totalLength in *.
  rewrite length_app in Hspec. specialize (Hspec ltac:(lia) H64).
  cbv zeta in Hspec. rewrite Nat2Z.id, firstn_app_all, skipn_app_all in Hspec.
  destruct Hspec as [Hyes _].
  rewrite (Hyes settings (settings_payload_pairs settings Hfit)).
  cbn [app]. now rewrite reported_all_known.
Qed.

Lemma byte_roundtrip (v : Z) : 0 <= v < 256 -> byte.unsigned (byte.of_Z v) = v.
Proof.
  intros Hv. rewrite byte.unsigned_of_Z. unfold byte.wrap.
  apply Z.mod_small. exact Hv.
Qed.

Lemma priority_payload_length (p : PriorityUpdate) :
  prioritizedElementId p <= quic.kEightByteLimit ->
  (dependencyType p <> TREE_ROOT -> elementDependencyId p <= quic.kEightByteLimit) ->
  computeChainDataLength (priority_payload K p)
  = 1 + varint_size (prioritizedElementId p)
    + (if PriorityElementType_eqb (dependencyType p) TREE_ROOT then 0
       else varint_size (elementDependencyId p))
    + 1.
Proof.
  intros H1 H2. unfold priority_payload, computeChainDataLength.
  rewrite !length_app, !Nat2Z.inj_add, length_varint_bytes by exact H1.
  destruct (PriorityElementType_eqb (dependencyType p) TREE_ROOT) eqn:Hdt.
  - cbn [List.length]. lia.
  - apply PriorityElementType_eqb_neq in Hdt.
    rewrite length_varint_bytes by auto. cbn [List.length]. lia.
Qed.

Lemma parsePriority_roundtrip (fresh p : PriorityUpdate) (rest : list byte)
      (ty : FrameType) :
  flags_layout_ok K = true -> valid_priority fresh p ->
  parsePriority K (priority_payload K p ++ rest)
                (FrameHeader.mk ty (computeChainDataLength (priority_payload K p)))
                fresh
  = (None, p, rest).
Proof.
  intros Hlay (Hpt & Hid & Hdep & Hroot & Hw).
  rewrite priority_payload_length by (try apply Hid; intros Hd; now apply Hdep).
  destruct (decodePriorityFlags_encode K p fresh Hlay) as [Hfl Hdec].
  pose proof (varint_size_pos _ (proj2 Hid)) as Hs1.
  apply PriorityElementType_eqb_neq in Hpt.
  unfold parsePriority, priority_payload. cbn [FrameHeader.length app].
  assert (Hadv : forall b c, canAdvance (b :: c) 1 = true).
  { intros b c. unfold canAdvance, totalLength. cbn [List.length].
    apply Z.leb_le. lia. }
  rewrite Hadv. cbn [negb readBE_uint8].
  rewrite byte_roundtrip by exact Hfl. rewrite Hdec.
  cbn [negb prioritizedType]. rewrite Hpt.
  destruct (PriorityElementType_eqb (dependencyType p) TREE_ROOT) eqn:Hdt.
  - (* no element dependency id *)
    apply PriorityElementType_eqb_eq in Hdt as Hdt'.
    set (s1 := varint_size (prioritizedElementId p)) in *.
    rewrite (u64_small (1 + s1 + 0 + 1 - 1)) by lia. rewrite <- !app_assoc.
    rewrite decode_encode by (fold s1; lia). fold s1.
    rewrite (u64_small (1 + s1 + 0 + 1 - 1 - s1)) by lia.
    cbn [dependencyType set_prioritizedElementId]. rewrite Hdt. cbn [negb app].
    rewrite Hadv. cbn [negb readBE_uint8].
    replace (1 + s1 + 0 + 1 - 1 - s1 - 1) with 0 by lia.
    change (u64 0 =? 0) with true. cbn [negb].
    rewrite byte_roundtrip by exact Hw.
    f_equal. f_equal. destruct p. cbn in *. unfold set_weight. cbn.
    now rewrite (Hroot Hdt').
  - (* with the element dependency id *)
    apply PriorityElementType_eqb_neq in Hdt as Hdt'.
    specialize (Hdep Hdt').
    pose proof (varint_size_pos _ (proj2 Hdep)) as Hs2.
    set (s1 := varint_size (prioritizedElementId p)) in *.
    set (s2 := varint_size (elementDependencyId p)) in *.
    rewrite (u64_small (1 + s1 + s2 + 1 - 1)) by lia. rewrite <- !app_assoc.
    rewrite decode_encode by (fold s1; lia). fold s1.
    rewrite (u64_small (1 + s1 + s2 + 1 - 1 - s1)) by lia.
    cbn [dependencyType set_prioritizedElementId]. rewrite Hdt. cbn [negb].
    rewrite decode_encode by (fold s2; lia). fold s2.
    rewrite (u64_small (1 + s1 + s2 + 1 - 1 - s1 - s2)) by lia. cbn [negb app].
    rewrite Hadv. cbn [negb readBE_uint8].
    replace (1 + s1 + s2 + 1 - 1 - s1 - s2 - 1) with 0 by lia.
    change (u64 0 =? 0) with true. cbn [negb].
    rewrite byte_roundtrip by exact Hw.
    f_equal. f_equal. destruct p. reflexivity.
Qed.

(** What the writers of PRIORITY and SETTINGS append. *)
Lemma writePriority_bytes (q q' : IOBufQueue) (p : PriorityUpdate) (n : Z) :
  writePriority K q p = (Ok n, q') ->
  q' = q ++ varint_bytes (PRIORITY K)
         ++ varint_bytes (computeChainDataLength (priority_payload K p))
         ++ priority_payload K p
  /\ computeChainDataLength (priority_payload K p) <= quic.kEightByteLimit
  /\ prioritizedElementId p <= quic.kEightByteLimit
  /\ (dependencyType p <> TREE_ROOT ->
      elementDependencyId p <= quic.kEightByteLimit).
Proof.
  unfold writePriority.
  destruct (quic.getQuicIntegerSize (prioritizedElementId p)) as [n1|] eqn:H1;
    [|discriminate].
  apply getQuicIntegerSize_inv in H1. destruct H1 as [H1 ->].
  destruct (PriorityElementType_eqb (dependencyType p) TREE_ROOT) eqn:Hdt;
    cbn [negb].
  - destruct (writeFrameHeader q (PRIORITY K) _) as [[hs|] q1] eqn:Hh; [|discriminate].
    apply writeFrameHeader_inv in Hh. destruct Hh as (Hty & Hlen & _ & ->).
    rewrite encodeQuicInteger_fits by exact H1.
    intros [= _ <-].
    apply PriorityElementType_eqb_eq in Hdt as Hroot.
    rewrite priority_payload_length by (try exact H1; intros; contradiction).
    unfold priority_payload, writeBE_uint8. rewrite Hdt.
    replace (1 + varint_size (prioritizedElementId p) + 0 + 1)
      with (varint_size (prioritizedElementId p) + 2 * 1) by lia.
    repeat split; try assumption; try contradiction.
    cbn [app]. now rewrite <- !app_assoc.
  - destruct (quic.getQuicIntegerSize (elementDependencyId p)) as [n2|] eqn:H2;
      [|discriminate].
    apply getQuicIntegerSize_inv in H2. destruct H2 as [H2 ->].
    destruct (writeFrameHeader q (PRIORITY K) _) as [[hs|] q1] eqn:Hh; [|discriminate].
    apply writeFrameHeader_inv in Hh. destruct Hh as (Hty & Hlen & _ & ->).
    rewrite encodeQuicInteger_fits by exact H1.
    rewrite encodeQuicInteger_fits by exact H2. cbn [snd].
    intros [= _ <-].
    rewrite priority_payload_length by (try exact H1; intros; exact H2).
    unfold priority_payload, writeBE_uint8. rewrite Hdt.
    replace (1 + varint_size (prioritizedElementId p)
             + varint_size (elementDependencyId p) + 1)
      with (varint_size (prioritizedElementId p) + 2 * 1
            + varint_size (elementDependencyId p)) by lia.
    repeat split; try assumption; try (intros _; assumption).
    cbn [app]. now rewrite <- !app_assoc.
Qed.

Lemma writeSettings_bytes (q q' : IOBufQueue) (settings : list SettingPair) (n : Z) :
  writeSettings K q settings = (Ok n, q') ->
  q' = q ++ varint_bytes (SETTINGS K)
         ++ varint_bytes (computeChainDataLength (settings_payload settings))
         ++ settings_payload settings
  /\ SETTINGS K <= quic.kEightByteLimit
  /\ computeChainDataLength (settings_payload settings) <= quic.kEightByteLimit
  /\ Forall (fun pr : SettingPair => fst pr <= quic.kEightByteLimit
                                     /\ snd pr <= quic.kEightByteLimit) settings.
Proof.
  unfold writeSettings.
  destruct (writeSettings_size settings 0) as [sz|] eqn:Hs; [|discriminate].
  apply writeSettings_size_inv in Hs. destruct Hs as [Hall ->].
  rewrite Z.add_0_l.
  destruct (writeFrameHeader q (SETTINGS K) _) as [[hs|] q1] eqn:Hh; [|discriminate].
  apply writeFrameHeader_inv in Hh. destruct Hh as (Hty & Hlen & _ & ->).
  intros [= _ <-]. rewrite writeSettings_payload_bytes by exact Hall.
  repeat split; try assumption. now rewrite <- !app_assoc.
Qed.

End PayloadRoundTrips.

(** ** Round trip of a frame *)

Section FrameRoundTrip.
Variable K : HQConstants.
Variable H : CodecHooks.
Hypothesis Hwire : wire_ok K = true.

Lemma wire_ok_parts :
  constants_ok K = true
  /\ Forall (fun t => 0 <= t <= quic.kEightByteLimit) (frame_types K ++ setting_ids K)
  /\ flags_layout_ok K = true.
Proof.
  unfold wire_ok in Hwire. rewrite !andb_true_iff in Hwire.
  destruct Hwire as (((Hc & Hfit) & _) & Hlay).
  split; [exact Hc|]. split; [|exact Hlay].
  unfold constants_ok in Hc. rewrite !andb_true_iff in Hc.
  destruct Hc as ((((Hr & _) & _) & _) & _).
  cbn [forallb] in Hr. rewrite !andb_true_iff in Hr.
  destruct Hr as (_ & _ & Hr).
  rewrite forallb_forall in Hr, Hfit. apply Forall_forall. intros t Ht.
  specialize (Hr t Ht). specialize (Hfit t Ht).
  apply in_range_true in Hr. apply Z.leb_le in Hfit. lia.
Qed.

Lemma push_id_mask_parts :
  0 <= kPushIdMask K < 2 ^ 64 /\ Z.land (kPushIdMask K) (Z.ones 62) = 0.
Proof.
  unfold wire_ok in Hwire. rewrite !andb_true_iff in Hwire.
  destruct Hwire as (((Hc & _) & Hm) & _).
  split; [|now apply Z.eqb_eq].
  unfold constants_ok in Hc. rewrite !andb_true_iff in Hc.
  destruct Hc as ((((Hr & _) & _) & _) & _).
  cbn [forallb] in Hr. rewrite !andb_true_iff in Hr.
  destruct Hr as (Hr & _). apply in_range_true in Hr. exact Hr.
Qed.

(** Clearing the sentinel of an internal push id gives back the identifier
    the sentinel was set over: the sentinel lies above the 62 bits of the
    identifier, so [pushId & ~kPushIdMask] removes it and nothing else. *)
Lemma clearPushIdMask_internal (id : Z) :
  0 <= id <= quic.kEightByteLimit ->
  clearPushIdMask K (Z.lor id (kPushIdMask K)) = id.
Proof.
  intros Hid. destruct push_id_mask_parts as [Hm Hlow].
  unfold quic.kEightByteLimit in Hid.
  unfold clearPushIdMask, u64. apply Z.bits_inj'. intros n Hn.
  rewrite Z.land_spec, Z.lor_spec, Z.testbit_mod_pow2 by lia.
  assert (Hidn : 62 <= n -> Z.testbit id n = false).
  { intros H62. rewrite <- (Z.mod_small id (2 ^ 62)) by lia.
    apply Z.mod_pow2_bits_high. lia. }
  assert (Hmn : n < 62 -> Z.testbit (kPushIdMask K) n = false).
  { intros H62.
    pose proof (f_equal (fun z => Z.testbit z n) Hlow) as Hb. cbn beta in Hb.
    rewrite Z.land_spec, Z.bits_0, Z.ones_spec_low in Hb by lia.
    now rewrite andb_true_r in Hb. }
  destruct (Z.ltb_spec n 64) as [H64|H64]; cbn [andb].
  - rewrite Z.lnot_spec by lia. destruct (Z.ltb_spec n 62) as [H62|H62].
    + rewrite Hmn by lia. cbn [negb]. now rewrite orb_false_r, andb_true_r.
    + rewrite Hidn by lia. cbn [orb].
      destruct (Z.testbit (kPushIdMask K) n); reflexivity.
  - rewrite Hidn by lia. now rewrite andb_false_r.
Qed.

(** So a valid push id is written as the varint of its identifier, and
    setting the sentinel over what was written gives the push id back. *)
Lemma valid_pushId_cleared (pushId : PushId) :
  valid_pushId K pushId ->
  0 <= clearPushIdMask K pushId <= quic.kEightByteLimit
  /\ pushId = Z.lor (clearPushIdMask K pushId) (kPushIdMask K).
Proof.
  intros (id & Hid & ->). rewrite clearPushIdMask_internal by exact Hid. auto.
Qed.

Lemma frame_type_fits (t : FrameType) :
  In t (frame_types K) -> 0 <= t <= quic.kEightByteLimit.
Proof.
  intros Ht. destruct wire_ok_parts as (_ & Hall & _).
  rewrite Forall_forall in Hall. apply Hall. apply in_or_app. now left.
Qed.

Lemma setting_id_fits (id : SettingId) :
  isKnownSetting K id = true -> 0 <= id <= quic.kEightByteLimit.
Proof.
  intros Hk. destruct wire_ok_parts as (_ & Hall & _).
  rewrite Forall_forall in Hall. apply Hall. apply in_or_app. right.
  unfold isKnownSetting in Hk. rewrite !orb_true_iff, !Z.eqb_eq in Hk.
  unfold setting_ids. cbn [In]. intuition auto.
Qed.

Lemma distinctb_NoDup (l : list Z) : distinctb l = true -> NoDup l.
Proof.
  unfold distinctb. induction l as [|x r IH]; intros Hd; [constructor|].
  apply andb_true_iff in Hd. destruct Hd as [Hx Hr].
  constructor; [|now apply IH].
  intros Hin. apply negb_true_iff in Hx.
  assert (Hex : existsb (Z.eqb x) r = true).
  { apply existsb_exists. exists x. split; [exact Hin | apply Z.eqb_refl]. }
  congruence.
Qed.

Lemma frame_type_eqb (i j : nat) :
  (i < 8)%nat -> (j < 8)%nat ->
  (nth i (frame_types K) 0 =? nth j (frame_types K) 0) = Nat.eqb i j.
Proof.
  intros Hi Hj. destruct wire_ok_parts as (Hc & _ & _).
  unfold constants_ok in Hc. rewrite !andb_true_iff in Hc.
  destruct Hc as ((((_ & Hd) & _) & _) & _).
  apply distinctb_NoDup in Hd.
  destruct (Nat.eqb_spec i j) as [->|Hne]; [apply Z.eqb_refl|].
  apply Z.eqb_neq. intros Heq. apply Hne.
  exact (proj1 (NoDup_nth (frame_types K) 0) Hd i j Hi Hj Heq).
Qed.

Ltac index_frame_types :=
  change (DATA K) with (nth 0 (frame_types K) 0) in *;
  change (HEADERS K) with (nth 1 (frame_types K) 0) in *;
  change (PRIORITY K) with (nth 2 (frame_types K) 0) in *;
  change (CANCEL_PUSH K) with (nth 3 (frame_types K) 0) in *;
  change (SETTINGS K) with (nth 4 (frame_types K) 0) in *;
  change (PUSH_PROMISE K) with (nth 5 (frame_types K) 0) in *;
  change (GOAWAY K) with (nth 6 (frame_types K) 0) in *;
  change (MAX_PUSH_ID K) with (nth 7 (frame_types K) 0) in *.

Lemma computeChainDataLength_app (a b : list byte) :
  computeChainDataLength (a ++ b)
  = computeChainDataLength a + computeChainDataLength b.
Proof. unfold computeChainDataLength. rewrite length_app. lia. Qed.

Lemma chain_length_varint_bytes (v : Z) :
  v <= quic.kEightByteLimit ->
  computeChainDataLength (varint_bytes v) = varint_size v.
Proof. apply length_varint_bytes. Qed.

(** What a successful writer appends: the frame header and the payload. *)
Lemma writeFrame_bytes (q q' : IOBufQueue) (f : Frame) (n : Z) :
  writeFrame K q f = (Ok n, q') ->
  q' = q ++ varint_bytes (frameTypeOf K f)
         ++ varint_bytes (computeChainDataLength (framePayload K f))
         ++ framePayload K f
  /\ computeChainDataLength (framePayload K f) <= quic.kEightByteLimit
  /\ fields_fit K f.
Proof.
  destruct f as [data|data|p|pushId|settings|pushId data|sid|pushId];
    cbn [writeFrame frameTypeOf framePayload fields_fit]; intros Hw.
  - apply writeSimpleFrame_inv in Hw. tauto.
  - apply writeSimpleFrame_inv in Hw. tauto.
  - apply writePriority_bytes in Hw. tauto.
  - apply writeCancelPush_bytes in Hw. destruct Hw as (-> & Hfit & _).
    rewrite chain_length_varint_bytes by assumption.
    repeat split; try assumption.
    pose proof (varint_size_pos _ Hfit). unfold quic.kEightByteLimit. lia.
  - apply writeSettings_bytes in Hw. tauto.
  - apply writePushPromise_bytes in Hw. destruct Hw as (-> & Hfit & _ & Hlen).
    rewrite computeChainDataLength_app, chain_length_varint_bytes by assumption.
    auto.
  - apply writeGoaway_bytes in Hw. destruct Hw as (-> & Hfit & _).
    rewrite chain_length_varint_bytes by assumption.
    repeat split; try assumption.
    pose proof (varint_size_pos _ Hfit). unfold quic.kEightByteLimit. lia.
  - apply writeMaxPushId_bytes in Hw. destruct Hw as (-> & Hfit & _).
    rewrite chain_length_varint_bytes by assumption.
    repeat split; try assumption.
    pose proof (varint_size_pos _ Hfit). unfold quic.kEightByteLimit. lia.
Qed.

(** [parseFrame] on a payload written by the framer. *)
Lemma parseFrame_roundtrip (s : HQFramedCodec) (f : Frame) (rest : list byte) :
  valid_frame K (freshPriority H) f -> fields_fit K f ->
  computeChainDataLength (framePayload K f) <= quic.kEightByteLimit ->
  curHeader_ s
  = FrameHeader.mk (frameTypeOf K f) (computeChainDataLength (framePayload K f)) ->
  parseFrame K H s (framePayload K f ++ rest) = (None, rest, deliver s f).
Proof.
  intros Hvalid Hfit Hlen Hhdr. unfold parseFrame. rewrite Hhdr.
  cbn [FrameHeader.type].
  destruct wire_ok_parts as (_ & _ & Hlay).
  assert (H64 : quic.kEightByteLimit < 2 ^ 64) by reflexivity.
  destruct f as [data|data|p|pushId|settings|pushId data|sid|pushId];
    cbn [frameTypeOf framePayload valid_frame fields_fit] in *;
    index_frame_types; rewrite !frame_type_eqb by lia; cbn [Nat.eqb].
  - unfold codec_parseData. now rewrite parseData_roundtrip.
  - unfold codec_parseHeaders. now rewrite parseHeaders_roundtrip.
  - unfold codec_parsePriority. now rewrite parsePriority_roundtrip.
  - unfold codec_parseCancelPush.
    destruct (valid_pushId_cleared _ Hvalid) as [Hv Heq].
    rewrite parseCancelPush_roundtrip by exact Hv. now rewrite <- Heq.
  - unfold codec_parseSettings. rewrite parseSettings_roundtrip; [reflexivity| | |lia].
    + rewrite Forall_forall in *. intros pr Hin.
      destruct (Hvalid pr Hin) as [Hk Hv]. split; [|exact Hv].
      now apply setting_id_fits.
    + eapply Forall_impl; [|exact Hvalid]. cbn beta. intros pr [Hk _]. exact Hk.
  - unfold codec_parsePushPromise.
    destruct (valid_pushId_cleared _ Hvalid) as [Hv Heq].
    rewrite computeChainDataLength_app, chain_length_varint_bytes in * by exact Hfit.
    rewrite <- app_assoc.
    rewrite parsePushPromise_roundtrip by (try exact Hv; lia). now rewrite <- Heq.
  - unfold codec_parseGoaway. rewrite parseGoaway_roundtrip by lia. reflexivity.
  - unfold codec_parseMaxPushId.
    destruct (valid_pushId_cleared _ Hvalid) as [Hv Heq].
    rewrite parseMaxPushId_roundtrip by exact Hv. now rewrite <- Heq.
Qed.

Lemma frameTypeOf_in (f : Frame) : In (frameTypeOf K f) (frame_types K).
Proof. destruct f; cbn; auto 10. Qed.

(** Reading the header of a frame the framer wrote. *)
Lemma decode_frame_header (ty len : Z) (rest : list byte) :
  0 <= ty <= quic.kEightByteLimit -> 0 <= len <= quic.kEightByteLimit ->
  quic.decodeQuicInteger1 (varint_bytes ty ++ varint_bytes len ++ rest)
  = (Some (ty, varint_size ty), varint_bytes len ++ rest)
  /\ quic.decodeQuicInteger1 (varint_bytes len ++ rest)
     = (Some (len, varint_size len), rest).
Proof.
  intros Hty Hlen. unfold quic.decodeQuicInteger1.
  pose proof (varint_size_pos ty (proj2 Hty)).
  pose proof (varint_size_pos len (proj2 Hlen)).
  split; apply decode_encode; lia.
Qed.

Lemma chain_length_nonneg (data : list byte) : 0 <= computeChainDataLength data.
Proof. unfold computeChainDataLength. lia. Qed.

End FrameRoundTrip.

(** ** Round trip through the codec

    The round trip seen from [onFramedIngress], the operation that parses
    the wire.  A fresh codec fed the bytes of one written frame with a
    payload consumes all of them, announces the frame header and hands out
    the frame, and is ready for the next frame (the callback is one that
    does not pause the parser when it hears of the frame header).  A frame
    with an empty payload is announced and not handed out: the loop of
    [onFramedIngress] runs only while bytes remain, so [parseFrame] is not
    reached before more bytes arrive. *)

Section IngressRoundTrip.
Variable K : HQConstants.
Variable H : CodecHooks.
Hypothesis Hwire : wire_ok K = true.

Lemma ingressLoop_turn (fuel : nat) (s : HQFramedCodec) (cursor : Cursor)
      (bufLen tot : Z) (events : list Event) :
  connError_ s = None -> parserPaused_ s = false -> 0 < bufLen ->
  ingressLoop K H (S fuel) s cursor bufLen tot events
  = match ingressTurn K H s cursor bufLen with
    | Break s called => Returned tot s (events ++ called)
    | Parsed s cursor parsed called =>
        if bufLen <? parsed then CheckFailed
        else ingressLoop K H fuel (add_totalBytesParsed s parsed) cursor
                         (bufLen - parsed) (tot + parsed) (events ++ called)
    end.
Proof.
  intros He Hp Hb. cbn [ingressLoop]. rewrite He, Hp.
  destruct (Z.ltb_spec 0 bufLen); [reflexivity | lia].
Qed.

Lemma ingressLoop_end (fuel : nat) (s : HQFramedCodec) (cursor : Cursor)
      (tot : Z) (events : list Event) :
  ingressLoop K H fuel s cursor 0 tot events = Returned tot s events.
Proof.
  destruct fuel; cbn [ingressLoop]; change (0 <? 0) with false;
    rewrite andb_false_r; reflexivity.
Qed.

Lemma ingressTurn_type (s : HQFramedCodec) (cursor c' : Cursor) (bufLen v n : Z) :
  frameState_ s = FRAME_HEADER_TYPE ->
  quic.decodeQuicInteger1 cursor = (Some (v, n), c') ->
  checkFrameAllowed H v = None ->
  ingressTurn K H s cursor bufLen
  = Parsed (set_frame s FRAME_HEADER_LENGTH
                      (FrameHeader.mk v (FrameHeader.length (curHeader_ s)))
                      (pendingDataFrameBytes_ s) (connError_ s))
           c' n [].
Proof.
  intros Hst Hd Hok. unfold ingressTurn. now rewrite Hst, Hd, Hok.
Qed.

Lemma ingressTurn_length_data (s : HQFramedCodec) (cursor c' : Cursor)
      (bufLen v n : Z) :
  frameState_ s = FRAME_HEADER_LENGTH ->
  FrameHeader.type (curHeader_ s) = DATA K ->
  transportSupportsPartialReliability H && (v =? kUnframedDataFrameLen K) = false ->
  quic.decodeQuicInteger1 cursor = (Some (v, n), c') ->
  ingressTurn K H s cursor bufLen
  = Parsed (set_frame s FRAME_PAYLOAD_STREAMING
                      (FrameHeader.mk (FrameHeader.type (curHeader_ s)) v) v
                      (connError_ s))
           c' n
           (if callback_ s
            then [onFrameHeader (streamId_ s) 0 v (FrameHeader.type (curHeader_ s))]
            else []).
Proof.
  intros Hst Hty Hpr Hd. unfold ingressTurn. rewrite Hst, Hd.
  cbn [FrameHeader.type]. rewrite Hty, Z.eqb_refl, Hpr. reflexivity.
Qed.

Lemma ingressTurn_streaming (s : HQFramedCodec) (cursor : Cursor) (bufLen : Z) :
  frameState_ s = FRAME_PAYLOAD_STREAMING ->
  ingressTurn K H s cursor bufLen
  = let aux := FrameHeader.mk (DATA K) (Z.min (pendingDataFrameBytes_ s) bufLen) in
    let '(err, c', called) := codec_parseData s cursor aux in
    let pending := u64 (pendingDataFrameBytes_ s - FrameHeader.length aux) in
    Parsed (set_frame s (if pending =? 0 then FRAME_HEADER_TYPE else frameState_ s)
                      (curHeader_ s) pending err)
           c' (FrameHeader.length aux) called.
Proof. intros Hst. unfold ingressTurn. now rewrite Hst. Qed.

Lemma frameTypeOf_data (f : Frame) :
  frameTypeOf K f = DATA K -> exists data, f = FData data.
Proof.
  intros Hty. destruct f; cbn [frameTypeOf] in Hty; eauto; exfalso;
    change (DATA K) with (nth 0 (frame_types K) 0) in Hty;
    [ change (HEADERS K) with (nth 1 (frame_types K) 0) in Hty
    | change (PRIORITY K) with (nth 2 (frame_types K) 0) in Hty
    | change (CANCEL_PUSH K) with (nth 3 (frame_types K) 0) in Hty
    | change (SETTINGS K) with (nth 4 (frame_types K) 0) in Hty
    | change (PUSH_PROMISE K) with (nth 5 (frame_types K) 0) in Hty
    | change (GOAWAY K) with (nth 6 (frame_types K) 0) in Hty
    | change (MAX_PUSH_ID K) with (nth 7 (frame_types K) 0) in Hty ];
    apply Z.eqb_eq in Hty; rewrite (frame_type_eqb K Hwire) in Hty by lia;
    discriminate.
Qed.

Ltac simpl_state :=
  cbv beta iota zeta
      delta [add_totalBytesParsed set_frame newCodec streamId_ callback_
             frameState_ curHeader_ pendingDataFrameBytes_ totalBytesParsed_
             connError_ parserPaused_ FrameHeader.type FrameHeader.length
             checkConnectionError deliver setParserPaused fst snd].

Lemma ingress_after_write (f : Frame) (streamId n : Z) (bytes : list byte) :
  valid_frame K (freshPriority H) f ->
  writeFrame K [] f = (Ok n, bytes) ->
  checkFrameAllowed H (frameTypeOf K f) = None ->
  framePayload K f <> [] ->
  transportSupportsPartialReliability H = false \/ kUnframedDataFrameLen K = 0 ->
  exists s',
    onFramedIngress K H (newCodec streamId true) bytes
    = Returned (totalLength bytes) s'
        [onFrameHeader streamId 0 (computeChainDataLength (framePayload K f))
                       (frameTypeOf K f);
         onFrame streamId f]
    /\ frameState_ s' = FRAME_HEADER_TYPE /\ connError_ s' = None
    /\ parserPaused_ s' = false.
Proof.
  intros Hvalid Hw Hallowed Hne Hpr.
  apply (writeFrame_bytes K) in Hw. destruct Hw as (-> & Hlen & Hfit).
  cbn [app].
  pose proof (parseFrame_roundtrip K H Hwire) as Hparse.
  set (ty := frameTypeOf K f) in *.
  set (payload := framePayload K f) in *.
  set (len := computeChainDataLength payload) in *.
  assert (Hty : 0 <= ty <= quic.kEightByteLimit)
    by (apply (frame_type_fits K Hwire), frameTypeOf_in).
  assert (Hlen0 : 0 < len).
  { subst len. unfold computeChainDataLength. destruct payload; [contradiction|].
    cbn [List.length]. lia. }
  destruct (decode_frame_header ty len payload Hty ltac:(lia)) as [Hd1 Hd2].
  pose proof (varint_size_pos ty (proj2 Hty)) as Hs1.
  pose proof (varint_size_pos len Hlen) as Hs2.
  assert (Htot : totalLength (varint_bytes ty ++ varint_bytes len ++ payload)
                 = varint_size ty + varint_size len + len).
  { unfold totalLength. rewrite !length_app, !Nat2Z.inj_add.
    rewrite !length_varint_bytes by lia. subst len. unfold computeChainDataLength.
    lia. }
  unfold onFramedIngress. cbn [newCodec connError_]. fold (newCodec streamId true).
  rewrite Htot.
  assert (Hfuel : exists k, (2 * List.length (varint_bytes ty ++ varint_bytes len ++ payload)
                             + 2 = S (S (S (S k))))%nat).
  { exists (2 * List.length (varint_bytes ty ++ varint_bytes len ++ payload) - 2)%nat.
    unfold totalLength in Htot. lia. }
  destruct Hfuel as [k Hk]. rewrite Hk. clear Hk.
  (* the type *)
  rewrite ingressLoop_turn by (try reflexivity; lia).
  erewrite ingressTurn_type; [|reflexivity | exact Hd1 | exact Hallowed].
  destruct (Z.ltb_spec (varint_size ty + varint_size len + len) (varint_size ty));
    [lia|].
  simpl_state.
  replace (varint_size ty + varint_size len + len - varint_size ty)
    with (varint_size len + len) by lia.
  (* the length *)
  rewrite ingressLoop_turn by (try reflexivity; lia).
  destruct (Z.eqb_spec ty (DATA K)) as [Hdata|Hother].
  - (* a DATA frame is streamed *)
    assert (Hnopr : transportSupportsPartialReliability H
                    && (len =? kUnframedDataFrameLen K) = false).
    { destruct Hpr as [-> | ->]; [reflexivity|].
      destruct (Z.eqb_spec len 0); [lia | apply andb_false_r]. }
    erewrite ingressTurn_length_data;
      [|reflexivity | exact Hdata | exact Hnopr | exact Hd2].
    destruct (Z.ltb_spec (varint_size len + len) (varint_size len)); [lia|].
    simpl_state.
    replace (varint_size len + len - varint_size len) with len by lia.
    rewrite ingressLoop_turn by (try reflexivity; lia).
    rewrite ingressTurn_streaming by reflexivity. cbv zeta. simpl_state.
    rewrite Z.min_id.
    destruct (frameTypeOf_data f Hdata) as [data Hf].
    assert (Hpay : payload = data) by (subst payload; rewrite Hf; reflexivity).
    unfold codec_parseData.
    assert (Hpd : parseData payload (FrameHeader.mk (DATA K) len) []
                  = (None, data, [])).
    { subst len. rewrite Hpay in *. rewrite <- (app_nil_r data) at 1.
      apply parseData_roundtrip. exact Hne. }
    rewrite Hpd. simpl_state. rewrite Z.sub_diag. change (u64 0 =? 0) with true.
    cbv iota.
    destruct (Z.ltb_spec len len); [lia|].
    rewrite ingressLoop_end. simpl_state.
    eexists. split; [|repeat split].
    rewrite Hf, Hdata. cbn [app]. rewrite Z.add_0_l. reflexivity.
    all: reflexivity.
  - (* any other frame is parsed whole *)
    erewrite ingressTurn_length_other; [|reflexivity | exact Hother | exact Hd2].
    destruct (Z.ltb_spec (varint_size len + len) (varint_size len)); [lia|].
    simpl_state.
    replace (varint_size len + len - varint_size len) with len by lia.
    rewrite ingressLoop_turn by (try reflexivity; lia).
    rewrite ingressTurn_payload_whole by (try reflexivity; simpl_state; lia).
    simpl_state.
    match goal with
    | |- context [parseFrame K H ?s payload] =>
        pose proof (Hparse s f [] Hvalid Hfit Hlen eq_refl) as Hp
    end.
    fold payload in Hp. rewrite app_nil_r in Hp. rewrite Hp. cbn [fst snd].
    destruct (Z.ltb_spec len len); [lia|].
    rewrite Z.sub_diag, ingressLoop_end. simpl_state.
    eexists. split; [|repeat split].
    cbn [app]. rewrite Z.add_0_l. reflexivity.
    all: reflexivity.
Qed.

(** A valid frame with an empty payload (HEADERS on no bytes, SETTINGS
    without a setting): the call consumes the frame header and announces
    it, and the codec waits in [FRAME_PAYLOAD]; [parseFrame] is not run,
    in this call or in a later one that brings no byte. *)
Lemma ingress_after_write_empty (f : Frame) (streamId n : Z) (bytes : list byte) :
  valid_frame K (freshPriority H) f ->
  writeFrame K [] f = (Ok n, bytes) ->
  checkFrameAllowed H (frameTypeOf K f) = None ->
  framePayload K f = [] ->
  exists s',
    onFramedIngress K H (newCodec streamId true) bytes
    = Returned (totalLength bytes) s'
        [onFrameHeader streamId 0 0 (frameTypeOf K f)]
    /\ frameState_ s' = FRAME_PAYLOAD /\ connError_ s' = None
    /\ curHeader_ s' = FrameHeader.mk (frameTypeOf K f) 0
    /\ onFramedIngress K H s' [] = Returned 0 s' [].
Proof.
  intros Hvalid Hw Hallowed Hempty.
  apply (writeFrame_bytes K) in Hw. destruct Hw as (-> & Hlen & Hfit).
  cbn [app].
  assert (Hother : frameTypeOf K f <> DATA K).
  { intros Hd. destruct (frameTypeOf_data f Hd) as [data ->].
    cbn [valid_frame framePayload] in *. contradiction. }
  rewrite Hempty. change (computeChainDataLength []) with 0.
  set (ty := frameTypeOf K f) in *.
  assert (Hty : 0 <= ty <= quic.kEightByteLimit)
    by (apply (frame_type_fits K Hwire), frameTypeOf_in).
  assert (H0 : 0 <= 0 <= quic.kEightByteLimit) by (unfold quic.kEightByteLimit; lia).
  destruct (decode_frame_header ty 0 [] Hty H0) as [Hd1 Hd2].
  pose proof (varint_size_pos ty (proj2 Hty)) as Hs1.
  pose proof (varint_size_pos 0 (proj2 H0)) as Hs2.
  assert (Htot : totalLength (varint_bytes ty ++ varint_bytes 0 ++ [])
                 = varint_size ty + varint_size 0).
  { unfold totalLength. rewrite !length_app, !Nat2Z.inj_add.
    rewrite !length_varint_bytes by lia. cbn [List.length]. lia. }
  assert (Hfuel : exists k, (2 * List.length (varint_bytes ty ++ varint_bytes 0 ++ [])
                             + 2 = S (S (S k)))%nat).
  { exists (2 * List.length (varint_bytes ty ++ varint_bytes 0 ++ []) - 1)%nat.
    unfold totalLength in Htot. lia. }
  destruct Hfuel as [k Hk].
  eexists. split.
  { unfold onFramedIngress. cbn [newCodec connError_]. fold (newCodec streamId true).
    rewrite Htot, Hk.
    rewrite ingressLoop_turn by (try reflexivity; lia).
    erewrite ingressTurn_type; [|reflexivity | exact Hd1 | exact Hallowed].
    destruct (Z.ltb_spec (varint_size ty + varint_size 0) (varint_size ty)); [lia|].
    simpl_state.
    replace (varint_size ty + varint_size 0 - varint_size ty)
      with (varint_size 0) by lia.
    rewrite ingressLoop_turn by (try reflexivity; lia).
    erewrite ingressTurn_length_other; [|reflexivity | exact Hother | exact Hd2].
    destruct (Z.ltb_spec (varint_size 0) (varint_size 0)); [lia|].
    rewrite Z.sub_diag, ingressLoop_end. simpl_state.
    cbn [app]. rewrite Z.add_0_l. reflexivity. }
  split; [reflexivity|]. split; [reflexivity|]. split; [reflexivity|].
  unfold onFramedIngress. simpl_state.
  change (totalLength []) with 0. rewrite ingressLoop_end. reflexivity.
Qed.
End IngressRoundTrip.

(** C2 (the code at the failing input).  The round trip fails for a valid
    frame with an empty payload.
    [writeHeaders] on an empty block and [writeSettings] on no setting
    succeed and write a frame header with length 0.  A fresh codec fed
    these two bytes consumes them and announces the frame header, and no
    frame is handed out: further calls without bytes do nothing.  The
    frame that was written is handed out only by a later call that brings
    at least one byte (here the type of the next frame).  The callback is
    one that records what it is told. *)
Theorem empty_frame_is_announced_not_handed_out :
  valid_frame draft_constants (freshPriority stream_hooks) (FHeaders [])
  /\ valid_frame draft_constants (freshPriority stream_hooks) (FSettings [])
  /\ writeFrame draft_constants [] (FHeaders []) = (Ok 2, [Byte.x01; Byte.x00])
  /\ writeFrame draft_constants [] (FSettings []) = (Ok 2, [Byte.x04; Byte.x00])
  /\ run draft_constants stream_hooks (newCodec 0 true)
         [CallIngress [Byte.x01; Byte.x00]; CallIngress []; CallIngress []]
     = [(2, [onFrameHeader 0 0 0 1]); (0, []); (0, [])]
  /\ run draft_constants stream_hooks (newCodec 0 true)
         [CallIngress [Byte.x04; Byte.x00]; CallIngress []; CallIngress []]
     = [(2, [onFrameHeader 0 0 0 4]); (0, []); (0, [])]
  /\ run draft_constants stream_hooks (newCodec 0 true)
         [CallIngress [Byte.x01; Byte.x00]; CallIngress [Byte.x04]]
     = [(2, [onFrameHeader 0 0 0 1]); (1, [onFrame 0 (FHeaders [])])]
  /\ run draft_constants stream_hooks (newCodec 0 true)
         [CallIngress [Byte.x04; Byte.x00]; CallIngress [Byte.x01]]
     = [(2, [onFrameHeader 0 0 0 4]); (1, [onFrame 0 (FSettings [])])].
Proof.
  split; [exact I|]. split; [apply Forall_nil|].
  repeat split.
Qed.

(** * Worked examples *)

(** A SETTINGS frame with two known settings survives the round trip
    through the codec. *)
Lemma ingress_after_write_settings :
  exists s',
    onFramedIngress draft_constants stream_hooks (newCodec 0 true)
      [Byte.x04; Byte.x05; Byte.x01; Byte.x50; Byte.x00; Byte.x06; Byte.x10]
    = Returned 7 s'
        [onFrameHeader 0 0 5 4; onFrame 0 (FSettings [(1, 4096); (6, 16)])]
    /\ frameState_ s' = FRAME_HEADER_TYPE /\ connError_ s' = None
    /\ parserPaused_ s' = false.
Proof.
  assert (Hv : valid_frame draft_constants (freshPriority stream_hooks)
                           (FSettings [(1, 4096); (6, 16)])).
  { cbn [valid_frame].
    apply Forall_cons; [split; [reflexivity | split; discriminate]|].
    apply Forall_cons; [split; [reflexivity | split; discriminate]|].
    apply Forall_nil. }
  exact (ingress_after_write draft_constants stream_hooks eq_refl
           (FSettings [(1, 4096); (6, 16)]) 0 7 _ Hv eq_refl eq_refl
           ltac:(discriminate) (or_introl eq_refl)).
Qed.

(** So does a PUSH_PROMISE frame: the push id goes out without the
    sentinel, as the varint of 7, and comes back with it. *)
Lemma ingress_after_write_push_promise :
  writeFrame draft_constants [] (FPushPromise (2 ^ 63 + 7) [Byte.xaa; Byte.xbb])
  = (Ok 5, [Byte.x05; Byte.x03; Byte.x07; Byte.xaa; Byte.xbb])
  /\ exists s',
       onFramedIngress draft_constants stream_hooks (newCodec 0 true)
         [Byte.x05; Byte.x03; Byte.x07; Byte.xaa; Byte.xbb]
       = Returned 5 s'
           [onFrameHeader 0 0 3 5;
            onFrame 0 (FPushPromise (2 ^ 63 + 7) [Byte.xaa; Byte.xbb])]
       /\ frameState_ s' = FRAME_HEADER_TYPE /\ connError_ s' = None
       /\ parserPaused_ s' = false.
Proof.
  assert (Hv : valid_frame draft_constants (freshPriority stream_hooks)
                           (FPushPromise (2 ^ 63 + 7) [Byte.xaa; Byte.xbb])).
  { exists 7. split; [split; discriminate | reflexivity]. }
  split; [reflexivity|].
  exact (ingress_after_write draft_constants stream_hooks eq_refl
           (FPushPromise (2 ^ 63 + 7) [Byte.xaa; Byte.xbb]) 0 5 _ Hv eq_refl
           eq_refl ltac:(discriminate) (or_introl eq_refl)).
Qed.

(** A codec that has failed answers 0 and calls nothing; a fresh codec fed
    an empty DATA frame and then more bytes calls [onError] once. *)
Lemma connection_error_is_final_failed_codec :
  let s := mkCodec 0 true FRAME_PAYLOAD_STREAMING (FrameHeader.mk 0 0) 0 2
                   (Some HTTP_MALFORMED_FRAME_DATA) true in
  connError_ s <> None
  /\ onFramedIngress draft_constants stream_hooks s [Byte.x00; Byte.x01]
     = Returned 0 s []
  /\ connError_ (newCodec 0 true) = None
  /\ (count_onError
        (run_events draft_constants stream_hooks (newCodec 0 true)
           [CallIngress [Byte.x00; Byte.x00]; CallIngress [Byte.x07];
            CallSetParserPaused false; CallIngress [Byte.x07]]) <= 1)%nat.
Proof.
  cbv zeta.
  assert (He : connError_ (mkCodec 0 true FRAME_PAYLOAD_STREAMING
                             (FrameHeader.mk 0 0) 0 2
                             (Some HTTP_MALFORMED_FRAME_DATA) true) <> None)
    by discriminate.
  split; [exact He|].
  split; [exact (proj1 (connection_error_is_final draft_constants stream_hooks _)
                   [Byte.x00; Byte.x01] He)|].
  split; [reflexivity|].
  exact (proj2 (proj2 (proj2 (connection_error_is_final draft_constants
                                stream_hooks (newCodec 0 true))) _ eq_refl)).
Defined.

(** A PRIORITY frame cut before its weight is invalid: a field does not fit
    in the declared length. *)
Lemma parsePriority_malformed_iff_invalid_cut_short :
  let cursor := [Byte.x41; Byte.x05; Byte.x41; Byte.x2c] in
  let header := FrameHeader.mk 2 4 in
  0 <= FrameHeader.length header <= totalLength cursor
  /\ FrameHeader.length header < 2 ^ 64
  /\ priority_invalid draft_constants cursor 4.
Proof.
  cbv zeta.
  assert (Hfit : 0 <= FrameHeader.length (FrameHeader.mk 2 4)
                 <= totalLength [Byte.x41; Byte.x05; Byte.x41; Byte.x2c])
    by (cbn; lia).
  assert (H64 : FrameHeader.length (FrameHeader.mk 2 4) < 2 ^ 64)
    by (cbn; lia).
  split; [exact Hfit|]. split; [exact H64|].
  pose proof (parsePriority_malformed_iff_invalid draft_constants
                [Byte.x41; Byte.x05; Byte.x41; Byte.x2c] (FrameHeader.mk 2 4)
                (freshPriority stream_hooks) Hfit H64) as T.
  cbv zeta in T. destruct T as [[T _] _]. exact (T eq_refl).
Defined.

(** A SETTINGS payload with a known setting, one the receiver does not
    know (identifier 0x21) and another known one. *)
Lemma parseSettings_reports_known_pairs_skips_unknown :
  let cursor := [Byte.x01; Byte.x50; Byte.x00; Byte.x21; Byte.x03; Byte.x06;
                 Byte.x10] in
  let header := FrameHeader.mk 4 7 in
  0 <= FrameHeader.length header <= totalLength cursor
  /\ FrameHeader.length header < 2 ^ 64
  /\ settings_pairs cursor [(1, 4096); (33, 3); (6, 16)]
  /\ parseSettings draft_constants cursor header []
     = (None, [(1, 4096); (6, 16)], []).
Proof.
  cbv zeta.
  set (cursor := [Byte.x01; Byte.x50; Byte.x00; Byte.x21; Byte.x03; Byte.x06;
                  Byte.x10]).
  set (header := FrameHeader.mk 4 7).
  assert (Hfit : 0 <= FrameHeader.length header <= totalLength cursor)
    by (cbn; lia).
  assert (H64 : FrameHeader.length header < 2 ^ 64) by (cbn; lia).
  assert (Hps : settings_pairs cursor [(1, 4096); (33, 3); (6, 16)]).
  { apply (pairs_more [Byte.x01] [Byte.x50; Byte.x00]); [split; reflexivity ..|].
    apply (pairs_more [Byte.x21] [Byte.x03]); [split; reflexivity ..|].
    apply (pairs_more [Byte.x06] [Byte.x10] []); [split; reflexivity ..|].
    apply pairs_done. }
  split; [exact Hfit|]. split; [exact H64|]. split; [exact Hps|].
  pose proof (parseSettings_reports_known_pairs draft_constants cursor header []
                Hfit H64) as T.
  cbv zeta in T. destruct T as [T _]. exact (T _ Hps).
Defined.

(** The push id 7 of a CANCEL_PUSH frame is handed out with the sentinel
    set. *)
Lemma push_id_mask_stays_internal_cancel_push :
  kPushIdMask draft_constants <> 0
  /\ parseCancelPush draft_constants [Byte.x07] (FrameHeader.mk 3 1) 0
     = (None, 2 ^ 63 + 7, [])
  /\ isInternalPushId draft_constants (2 ^ 63 + 7) = true.
Proof.
  assert (Hm : kPushIdMask draft_constants <> 0) by discriminate.
  split; [exact Hm|]. split; [reflexivity|].
  exact (proj1 (push_id_mask_stays_internal draft_constants Hm)
           [Byte.x07] (FrameHeader.mk 3 1) 0 (2 ^ 63 + 7) [] eq_refl).
Defined.


(** The value "abc" is no number: the field is accepted and 0 recorded. *)
Lemma unparsable_content_length_reads_as_zero_abc :
  no_error (newInfo true)
  /\ is_content_length content_length
  /\ tryTo_uint32 example_lib "abc" = None
  /\ exists i',
       onHeader example_lib (newInfo true) content_length "abc" = (true, i')
       /\ no_error i' /\ contentLength_ i' = Some 0
       /\ headers (msg i')
          = headers (msg (newInfo true))
            ++ [(ByCode HTTP_HEADER_CONTENT_LENGTH, "abc"%string)].
Proof.
  assert (H0 : no_error (newInfo true)) by (split; reflexivity).
  assert (Hname : is_content_length content_length) by (split; reflexivity).
  split; [exact H0|]. split; [exact Hname|]. split; [reflexivity|].
  exact (proj1 (unparsable_content_length_reads_as_zero example_lib
                  (newInfo true) content_length "abc" H0 Hname eq_refl)
           (or_introl eq_refl) eq_refl).
Defined.

(** C9 (counterexample).  After a Content-Length of 42, a Content-Length
    whose value does not convert is refused, although the value passes the
    validation of header values: it reads as 0, which is not the 42
    recorded.  The error is that of two lengths that differ, and 42 stays
    recorded. *)
Lemma unparsable_content_length_after_another_length :
  tryTo_uint32 example_lib "abc" = None
  /\ validateHeaderValue_STRICT example_lib "abc" = true
  /\ no_error (newInfo true)
  /\ fst (onHeaders example_lib (newInfo true)
                    [(content_length, "42"%string); (content_length, "abc"%string)])
     = [true; false]
  /\ parsingError
       (snd (onHeaders example_lib (newInfo true)
                       [(content_length, "42"%string);
                        (content_length, "abc"%string)]))
     = "Multiple content-length headers"%string
  /\ contentLength_
       (snd (onHeaders example_lib (newInfo true)
                       [(content_length, "42"%string);
                        (content_length, "abc"%string)]))
     = Some 42.
Proof. repeat split. Qed.


(** * Further properties *)

(** ** A payload that is one varint *)

Lemma firstn_whole_prefix (bs rest : list byte) (len : Z) :
  Z.of_nat (List.length bs) = len ->
  firstn (Z.to_nat len) (bs ++ rest) = bs
  /\ skipn (Z.to_nat len) (bs ++ rest) = rest.
Proof.
  intros <-. rewrite Nat2Z.id. split.
  - rewrite firstn_app, Nat.sub_diag, firstn_all. cbn [firstn]. apply app_nil_r.
  - rewrite skipn_app, Nat.sub_diag, skipn_all. reflexivity.
Qed.

Lemma length_payload (cursor : Cursor) (len : Z) :
  0 <= len <= totalLength cursor ->
  Z.of_nat (List.length (firstn (Z.to_nat len) cursor)) = len.
Proof. unfold totalLength. intros Hl. rewrite length_firstn. lia. Qed.

(** What the first [decodeQuicInteger] of a payload says about the whole
    payload, when the parser goes on to ask that nothing is left. *)
Lemma decode_whole_payload (cursor : Cursor) (len : Z) :
  0 <= len <= totalLength cursor -> len < 2 ^ 64 ->
  let payload := firstn (Z.to_nat len) cursor in
  match quic.decodeQuicInteger cursor len with
  | (Some (v, n), c') =>
      (u64 (len - n) = 0 /\ is_varint payload v
       /\ c' = skipn (Z.to_nat len) cursor)
      \/ (u64 (len - n) <> 0 /\ forall w, ~ is_varint payload w)
  | (None, _) => forall w, ~ is_varint payload w
  end.
Proof.
  intros Hl H64 payload.
  pose proof (length_payload cursor len Hl) as Hpl. fold payload in Hpl.
  destruct (quic.decodeQuicInteger cursor len) as [[[v n]|] c'] eqn:Hd.
  - destruct (decodeQuicInteger_success _ _ _ _ _ Hd) as (bs & Hc & Hv & Hn & Hat).
    pose proof (is_varint_length _ _ Hv) as Hb.
    rewrite (u64_small (len - n)) by lia.
    destruct (Z.eq_dec (len - n) 0) as [Hz|Hnz].
    + left. split; [exact Hz|].
      assert (Hlen : Z.of_nat (List.length bs) = len) by lia.
      destruct (firstn_whole_prefix bs c' len Hlen) as [Hf Hs].
      subst payload. rewrite Hc, Hf, Hs. auto.
    + right. split; [exact Hnz|]. intros w Hw.
      assert (Hsplit : payload ++ skipn (Z.to_nat len) cursor = bs ++ c')
        by (subst payload; rewrite firstn_skipn; exact Hc).
      destruct (is_varint_prefix_unique _ _ _ _ _ _ Hw Hv Hsplit) as (Hp & _ & _).
      rewrite Hp in Hpl. lia.
  - intros w Hw.
    assert (Hsplit : cursor = payload ++ skipn (Z.to_nat len) cursor)
      by (subst payload; now rewrite firstn_skipn).
    rewrite Hsplit in Hd.
    pose proof (decodeQuicInteger_none_no_varint _ _ _ _ _ Hd Hw). lia.
Qed.

Section SingleVarintFrames.
Variable K : HQConstants.

Lemma parseGoaway_spec (cursor : Cursor) (header : FrameHeader.t) (out : Z) :
  0 <= FrameHeader.length header <= totalLength cursor ->
  FrameHeader.length header < 2 ^ 64 ->
  let len := FrameHeader.length header in
  let payload := firstn (Z.to_nat len) cursor in
  (exists v, is_varint payload v
             /\ parseGoaway cursor header out
                = (None, v, skipn (Z.to_nat len) cursor))
  \/ ((forall w, ~ is_varint payload w)
      /\ fst (fst (parseGoaway cursor header out))
         = Some HTTP_MALFORMED_FRAME_GOAWAY).
Proof.
  intros Hl H64 len payload.
  pose proof (decode_whole_payload cursor len Hl H64) as Hd. cbv zeta in Hd.
  unfold parseGoaway. fold len.
  destruct (quic.decodeQuicInteger cursor len) as [[[v n]|] c'].
  - destruct Hd as [(Hz & Hv & ->) | (Hnz & Hno)].
    + left. exists v. split; [exact Hv|]. rewrite Hz. reflexivity.
    + right. split; [exact Hno|].
      destruct (Z.eqb_spec (u64 (len - n)) 0); [contradiction | reflexivity].
  - right. split; [exact Hd | reflexivity].
Qed.

Lemma parseCancelPush_spec (cursor : Cursor) (header : FrameHeader.t) (out : Z) :
  0 <= FrameHeader.length header <= totalLength cursor ->
  FrameHeader.length header < 2 ^ 64 ->
  let len := FrameHeader.length header in
  let payload := firstn (Z.to_nat len) cursor in
  (exists v, is_varint payload v
             /\ parseCancelPush K cursor header out
                = (None, Z.lor v (kPushIdMask K), skipn (Z.to_nat len) cursor))
  \/ ((forall w, ~ is_varint payload w)
      /\ fst (fst (parseCancelPush K cursor header out))
         = Some HTTP_MALFORMED_FRAME_CANCEL_PUSH).
Proof.
  intros Hl H64 len payload.
  pose proof (decode_whole_payload cursor len Hl H64) as Hd. cbv zeta in Hd.
  unfold parseCancelPush. fold len.
  destruct (quic.decodeQuicInteger cursor len) as [[[v n]|] c'].
  - destruct Hd as [(Hz & Hv & ->) | (Hnz & Hno)].
    + left. exists v. split; [exact Hv|]. rewrite Hz. reflexivity.
    + right. split; [exact Hno|].
      destruct (Z.eqb_spec (u64 (len - n)) 0); [contradiction | reflexivity].
  - right. split; [exact Hd | reflexivity].
Qed.

Lemma parseMaxPushId_spec (cursor : Cursor) (header : FrameHeader.t) (out : Z) :
  0 <= FrameHeader.length header <= totalLength cursor ->
  FrameHeader.length header < 2 ^ 64 ->
  let len := FrameHeader.length header in
  let payload := firstn (Z.to_nat len) cursor in
  (exists v, is_varint payload v
             /\ parseMaxPushId K cursor header out
                = (None, Z.lor v (kPushIdMask K), skipn (Z.to_nat len) cursor))
  \/ ((forall w, ~ is_varint payload w)
      /\ fst (fst (parseMaxPushId K cursor header out))
         = Some HTTP_MALFORMED_FRAME_MAX_PUSH_ID).
Proof.
  intros Hl H64 len payload.
  pose proof (decode_whole_payload cursor len Hl H64) as Hd. cbv zeta in Hd.
  unfold parseMaxPushId. fold len.
  destruct (quic.decodeQuicInteger cursor len) as [[[v n]|] c'].
  - destruct Hd as [(Hz & Hv & ->) | (Hnz & Hno)].
    + left. exists v. split; [exact Hv|]. rewrite Hz. reflexivity.
    + right. split; [exact Hno|].
      destruct (Z.eqb_spec (u64 (len - n)) 0); [contradiction | reflexivity].
  - right. split; [exact Hd | reflexivity].
Qed.

(** PUSH_PROMISE: a push id and, behind it, the header block. *)
Lemma parsePushPromise_spec (cursor : Cursor) (header : FrameHeader.t)
      (out : Z) (outBuf : IOBuf) :
  0 <= FrameHeader.length header <= totalLength cursor ->
  FrameHeader.length header < 2 ^ 64 ->
  let len := FrameHeader.length header in
  let payload := firstn (Z.to_nat len) cursor in
  (exists bs v data,
      payload = bs ++ data /\ is_varint bs v
      /\ parsePushPromise K cursor header out outBuf
         = (None, Z.lor v (kPushIdMask K), data, skipn (Z.to_nat len) cursor))
  \/ ((forall bs v data, payload = bs ++ data -> ~ is_varint bs v)
      /\ parsePushPromise K cursor header out outBuf
         = (Some HTTP_MALFORMED_FRAME_PUSH_PROMISE, out, outBuf, cursor)).
Proof.
  intros Hl H64 len payload.
  pose proof (length_payload cursor len Hl) as Hpl. fold payload in Hpl.
  unfold parsePushPromise. fold len.
  destruct (quic.decodeQuicInteger cursor len) as [[[v n]|] c'] eqn:Hd.
  - left.
    destruct (decodeQuicInteger_success _ _ _ _ _ Hd) as (bs & Hc & Hv & Hn & Hat).
    pose proof (is_varint_length _ _ Hv) as Hb.
    rewrite (u64_small (len - n)) by lia. unfold clone.
    exists bs, v, (firstn (Z.to_nat (len - n)) c').
    assert (Hnat : Z.to_nat len = (List.length bs + Z.to_nat (len - n))%nat) by lia.
    split; [|split; [exact Hv|]].
    + subst payload. rewrite Hc, Hnat. apply firstn_app_exact.
    + rewrite Hc, Hnat, skipn_app_exact. reflexivity.
  - right. pose proof (decodeQuicInteger_none _ _ _ Hd) as ->.
    split; [|reflexivity].
    intros bs v data Hp Hv.
    assert (Hsplit : cursor = bs ++ (data ++ skipn (Z.to_nat len) cursor)).
    { rewrite app_assoc, <- Hp. subst payload. now rewrite firstn_skipn. }
    rewrite Hsplit in Hd.
    pose proof (decodeQuicInteger_none_no_varint _ _ _ _ _ Hd Hv) as Hlt.
    rewrite Hp, length_app in Hpl. lia.
Qed.

End SingleVarintFrames.

(** ** A parser that succeeds has read the declared length *)

Section Consumption.
Variable K : HQConstants.
Variable H : CodecHooks.

Lemma parseSettings_loop_consumes (fuel : nat) :
  forall cursor frameLength settings out c',
    0 <= frameLength <= totalLength cursor -> frameLength < 2 ^ 64 ->
    parseSettings_loop K fuel cursor frameLength settings = Some (None, out, c') ->
    c' = skipn (Z.to_nat frameLength) cursor.
Proof.
  induction fuel as [|fuel IH]; intros cursor frameLength settings out c' Hl H64;
    cbn [parseSettings_loop]; destruct (Z.ltb_spec 0 frameLength) as [Hpos|Hz];
    try discriminate.
  - intros [= _ <-]. replace frameLength with 0 by lia. reflexivity.
  - destruct (quic.decodeQuicInteger cursor frameLength) as [[[id n]|] c1] eqn:Hd1;
      [|discriminate].
    destruct (decodeQuicInteger_success _ _ _ _ _ Hd1) as (b1 & Hc1 & Hv1 & Hn1 & Ha1).
    pose proof (is_varint_length _ _ Hv1) as Hb1.
    rewrite (u64_small (frameLength - n)) by lia.
    unfold decodeSettingValue.
    assert (Hl1 : 0 <= frameLength - n <= totalLength c1).
    { subst cursor. unfold totalLength in *. rewrite length_app in Hl. lia. }
    destruct (quic.decodeQuicInteger c1 (frameLength - n)) as [[[v m]|] c2] eqn:Hd2;
      [|discriminate].
    destruct (decodeQuicInteger_success _ _ _ _ _ Hd2) as (b2 & Hc2 & Hv2 & Hn2 & Ha2).
    pose proof (is_varint_length _ _ Hv2) as Hb2.
    rewrite (u64_small (frameLength - n - m)) by lia.
    assert (Hl2 : 0 <= frameLength - n - m <= totalLength c2).
    { subst c1. unfold totalLength in *. rewrite length_app in Hl1. lia. }
    assert (Hskip : skipn (Z.to_nat frameLength) cursor
                    = skipn (Z.to_nat (frameLength - n - m)) c2).
    { rewrite Hc1, Hc2.
      replace (Z.to_nat frameLength)
        with (List.length b1 + (List.length b2 + Z.to_nat (frameLength - n - m)))%nat
        by lia.
      now rewrite !skipn_app_exact. }
    destruct (isKnownSetting K id); intros Hloop; rewrite Hskip;
      eapply IH; try eassumption; lia.
  - intros [= _ <-]. replace frameLength with 0 by lia. reflexivity.
Qed.

Lemma parseSettings_consumes (cursor c' : Cursor) (header : FrameHeader.t)
      (settings out : list SettingPair) :
  0 <= FrameHeader.length header <= totalLength cursor ->
  FrameHeader.length header < 2 ^ 64 ->
  parseSettings K cursor header settings = (None, out, c') ->
  c' = skipn (Z.to_nat (FrameHeader.length header)) cursor.
Proof.
  intros Hl H64 Hp.
  pose proof (parseSettings_loop_total K cursor header settings Hl H64) as Ht.
  rewrite Hp in Ht. eapply parseSettings_loop_consumes; eassumption.
Qed.

(** On success every parser of [parseFrame] leaves the cursor right behind
    the declared length. *)
Lemma parseFrame_consumes (s : HQFramedCodec) (cursor : Cursor) :
  0 <= FrameHeader.length (curHeader_ s) <= totalLength cursor ->
  FrameHeader.length (curHeader_ s) < 2 ^ 64 ->
  fst (fst (parseFrame K H s cursor)) = None ->
  snd (fst (parseFrame K H s cursor))
  = skipn (Z.to_nat (FrameHeader.length (curHeader_ s))) cursor.
Proof.
  intros Hl H64. unfold parseFrame.
  set (hdr := curHeader_ s) in *.
  destruct (FrameHeader.type hdr =? DATA K).
  { unfold codec_parseData, parseData, clone.
    destruct (FrameHeader.length hdr =? 0); [discriminate | reflexivity]. }
  destruct (FrameHeader.type hdr =? HEADERS K); [reflexivity|].
  destruct (FrameHeader.type hdr =? PRIORITY K).
  { unfold codec_parsePriority.
    destruct (parsePriority_spec K cursor hdr (freshPriority H) Hl H64)
      as [[_ He] | [_ ->]]; [|reflexivity].
    destruct (parsePriority K cursor hdr (freshPriority H)) as [[[e|] o] c];
      [discriminate | discriminate]. }
  destruct (FrameHeader.type hdr =? CANCEL_PUSH K).
  { unfold codec_parseCancelPush.
    destruct (parseCancelPush_spec K cursor hdr 0 Hl H64)
      as [(v & _ & ->) | [_ He]]; [reflexivity|].
    destruct (parseCancelPush K cursor hdr 0) as [[[e|] o] c];
      [discriminate | discriminate]. }
  destruct (FrameHeader.type hdr =? SETTINGS K).
  { unfold codec_parseSettings.
    destruct (parseSettings K cursor hdr []) as [[[e|] o] c] eqn:Hp;
      [discriminate|].
    intros _. cbn [fst snd]. eapply parseSettings_consumes; eassumption. }
  destruct (FrameHeader.type hdr =? PUSH_PROMISE K).
  { unfold codec_parsePushPromise.
    destruct (parsePushPromise_spec K cursor hdr 0 [] Hl H64)
      as [(bs & v & data & _ & _ & ->) | [_ ->]]; [reflexivity | discriminate]. }
  destruct (FrameHeader.type hdr =? GOAWAY K).
  { unfold codec_parseGoaway.
    destruct (parseGoaway_spec cursor hdr 0 Hl H64)
      as [(v & _ & ->) | [_ He]]; [reflexivity|].
    destruct (parseGoaway cursor hdr 0) as [[[e|] o] c];
      [discriminate | discriminate]. }
  destruct (FrameHeader.type hdr =? MAX_PUSH_ID K).
  { unfold codec_parseMaxPushId.
    destruct (parseMaxPushId_spec K cursor hdr 0 Hl H64)
      as [(v & _ & ->) | [_ He]]; [reflexivity|].
    destruct (parseMaxPushId K cursor hdr 0) as [[[e|] o] c];
      [discriminate | discriminate]. }
  reflexivity.
Qed.

End Consumption.

(** ** The loop of [onFramedIngress] ends, and its check holds *)

Section IngressReturns.
Variable K : HQConstants.
Variable H : CodecHooks.

Lemma decodeQuicInteger1_success (cursor c' : Cursor) (v n : Z) :
  quic.decodeQuicInteger1 cursor = (Some (v, n), c') ->
  0 <= v < 2 ^ 64 /\ 1 <= n /\ totalLength c' = totalLength cursor - n.
Proof.
  intros Hd. unfold quic.decodeQuicInteger1 in Hd.
  destruct (decodeQuicInteger_success _ _ _ _ _ Hd) as (bs & -> & Hv & Hn & _).
  pose proof (is_varint_length _ _ Hv). pose proof (is_varint_value _ _ Hv) as Hr.
  unfold quic.kEightByteLimit in Hr. unfold totalLength. rewrite length_app. lia.
Qed.

(** One turn: what it counts lies within the bytes offered, the counters
    stay in range, and unless it ends the loop with an error it leaves
    fewer turns and a cursor that agrees with the count. *)
Ltac codec_cbn :=
  cbn [set_frame add_totalBytesParsed frameState_ curHeader_
       pendingDataFrameBytes_ totalBytesParsed_ connError_ parserPaused_
       FrameHeader.length FrameHeader.type fst snd].

Lemma ingressTurn_progress (s : HQFramedCodec) (cursor : Cursor) (bufLen : Z) :
  codec_fields_ok s -> 0 < bufLen -> bufLen = totalLength cursor ->
  match ingressTurn K H s cursor bufLen with
  | Break s' _ =>
      totalBytesParsed_ s' = totalBytesParsed_ s /\ codec_fields_ok s'
  | Parsed s' c' parsed _ =>
      0 <= parsed <= bufLen
      /\ totalBytesParsed_ s' = totalBytesParsed_ s /\ codec_fields_ok s'
      /\ (connError_ s' <> None
          \/ (turns_left s' (bufLen - parsed) < turns_left s bufLen
              /\ (0 < bufLen - parsed -> bufLen - parsed = totalLength c')))
  end.
Proof.
  intros (Hlen & Hpend & Htot) Hpos Hbuf.
  unfold ingressTurn, turns_left, codec_fields_ok.
  destruct (frameState_ s) eqn:Hst.
  - (* the type *)
    destruct (quic.decodeQuicInteger1 cursor) as [[[v n]|] c'] eqn:Hd.
    + destruct (decodeQuicInteger1_success _ _ _ _ Hd) as (Hv & Hn & Hc).
      pose proof (totalLength_nonneg c').
      destruct (checkFrameAllowed H v); codec_cbn; repeat split; lia.
    + codec_cbn. repeat split; lia.
  - (* the length *)
    destruct (quic.decodeQuicInteger1 cursor) as [[[v n]|] c'] eqn:Hd.
    + destruct (decodeQuicInteger1_success _ _ _ _ Hd) as (Hv & Hn & Hc).
      pose proof (totalLength_nonneg c').
      cbn [FrameHeader.type].
      destruct (FrameHeader.type (curHeader_ s) =? DATA K);
        [destruct (transportSupportsPartialReliability H
                   && (v =? kUnframedDataFrameLen K))|];
        codec_cbn; repeat split; lia.
    + codec_cbn. repeat split; lia.
  - (* the payload, whole *)
    destruct (Z.leb_spec (FrameHeader.length (curHeader_ s)) bufLen) as [Hle|Hgt].
    + pose proof (parseFrame_consumes K H s cursor ltac:(lia) ltac:(lia)) as Hcons.
      destruct (parseFrame K H s cursor) as [[err c'] called].
      cbn [fst snd] in Hcons. codec_cbn. repeat split; try lia.
      destruct err as [e|]; [left; discriminate|]. right.
      split; [lia|]. intros _. rewrite (Hcons eq_refl).
      unfold totalLength in *. rewrite length_skipn. lia.
    + codec_cbn. repeat split; lia.
  - (* a piece of a DATA payload *)
    cbn [FrameHeader.length]. unfold codec_parseData, parseData, clone.
    cbn [FrameHeader.length].
    pose proof (u64_range (pendingDataFrameBytes_ s
                           - Z.min (pendingDataFrameBytes_ s) bufLen)) as Hu.
    destruct (Z.eqb_spec (Z.min (pendingDataFrameBytes_ s) bufLen) 0) as [Hz|Hnz].
    + codec_cbn. repeat split; try lia. left. discriminate.
    + codec_cbn. repeat split; try lia. right.
      destruct (u64 (pendingDataFrameBytes_ s
                     - Z.min (pendingDataFrameBytes_ s) bufLen) =? 0);
        (split; [lia|]; intros _; unfold totalLength in *;
         rewrite length_skipn; lia).
  - (* partially reliable data *)
    destruct (parsePartiallyReliableData H cursor) as [err c'].
    codec_cbn. repeat split; try lia.
Qed.

Lemma u64_add_u64 (a p q : Z) : u64 (u64 (a + p) + q) = u64 (a + (p + q)).
Proof. unfold u64. rewrite Z.add_mod_idemp_l by lia. f_equal. lia. Qed.

Lemma ingressLoop_returns (fuel : nat) :
  forall s cursor bufLen tot events,
    codec_fields_ok s -> 0 <= bufLen ->
    (connError_ s = None -> 0 < bufLen -> bufLen = totalLength cursor) ->
    (connError_ s = None -> turns_left s bufLen < Z.of_nat fuel) ->
    exists n s' events',
      ingressLoop K H fuel s cursor bufLen tot events = Returned n s' events'
      /\ tot <= n <= tot + bufLen
      /\ totalBytesParsed_ s' = u64 (totalBytesParsed_ s + (n - tot))
      /\ codec_fields_ok s'.
Proof.
  induction fuel as [|fuel IH]; intros s cursor bufLen tot events Hok Hb Hsync Hfuel.
  - cbn [ingressLoop].
    assert (Hstop : match connError_ s with None => true | Some _ => false end
                    && (0 <? bufLen) && negb (parserPaused_ s) = false).
    { destruct (connError_ s); [reflexivity|].
      assert (turns_left s bufLen < 0) by (apply Hfuel; reflexivity).
      destruct (Z.ltb_spec 0 bufLen); [|reflexivity].
      unfold turns_left in *. destruct (frameState_ s); lia. }
    rewrite Hstop. exists tot, s, events.
    rewrite Z.sub_diag, Z.add_0_r.
    destruct Hok as (? & ? & Ht). rewrite (u64_small _ Ht).
    repeat split; auto; lia.
  - cbn [ingressLoop].
    destruct (match connError_ s with None => true | Some _ => false end
              && (0 <? bufLen) && negb (parserPaused_ s)) eqn:Hgo.
    2:{ exists tot, s, events. rewrite Z.sub_diag, Z.add_0_r.
        destruct Hok as (? & ? & Ht). rewrite (u64_small _ Ht).
        repeat split; auto; lia. }
    apply andb_true_iff in Hgo. destruct Hgo as [Hgo _].
    apply andb_true_iff in Hgo. destruct Hgo as [He Hpos].
    assert (Hnone : connError_ s = None) by (destruct (connError_ s); congruence).
    apply Z.ltb_lt in Hpos.
    pose proof (ingressTurn_progress s cursor bufLen Hok Hpos (Hsync Hnone Hpos))
      as Hturn.
    specialize (Hfuel Hnone).
    destruct (ingressTurn K H s cursor bufLen) as [s1 called | s1 c1 parsed called].
    + destruct Hturn as [Ht Hok1].
      exists tot, s1, (events ++ called). rewrite Z.sub_diag, Z.add_0_r, Ht.
      destruct Hok as (? & ? & Hr). rewrite (u64_small _ Hr).
      split; [reflexivity|]. split; [lia|]. split; [reflexivity | exact Hok1].
    + destruct Hturn as (Hp & Ht & Hok1 & Hnext).
      destruct (Z.ltb_spec bufLen parsed) as [|_]; [lia|].
      assert (Hok2 : codec_fields_ok (add_totalBytesParsed s1 parsed)).
      { destruct Hok1 as (? & ? & ?). unfold codec_fields_ok. codec_cbn.
        repeat split; try lia; apply u64_range. }
      destruct (IH (add_totalBytesParsed s1 parsed) c1 (bufLen - parsed)
                   (tot + parsed) (events ++ called) Hok2 ltac:(lia))
        as (n & s' & ev & Hloop & Hn & Htot' & Hok').
      * cbn [add_totalBytesParsed connError_]. intros Hn1 Hb1.
        destruct Hnext as [Herr | [_ Hc]]; [contradiction | now apply Hc].
      * cbn [add_totalBytesParsed connError_]. intros Hn1.
        destruct Hnext as [Herr | [Hm _]]; [contradiction|].
        unfold turns_left in *. codec_cbn. lia.
      * exists n, s', ev. split; [exact Hloop|]. split; [lia|].
        split; [|exact Hok'].
        rewrite Htot'. cbn [add_totalBytesParsed totalBytesParsed_].
        rewrite Ht, u64_add_u64. f_equal. lia.
Qed.

End IngressReturns.

(** ** The codec, call by call *)

Section CodecCalls.
Variable K : HQConstants.
Variable H : CodecHooks.

Ltac unfold_state :=
  cbn [add_totalBytesParsed set_frame streamId_ callback_
       frameState_ curHeader_ pendingDataFrameBytes_ totalBytesParsed_
       connError_ parserPaused_ FrameHeader.type FrameHeader.length
       checkConnectionError setParserPaused fst snd].

(** X1.  Every call of [onFramedIngress] returns: the loop ends and its
    [CHECK_GE(bufLen, parsed)] never fails.  What it returns is at most the
    length of the input, and [totalBytesParsed_] has grown by it. *)
Theorem onFramedIngress_always_returns (s : HQFramedCodec) (buf : IOBuf) :
  codec_fields_ok s ->
  exists n s' events,
    onFramedIngress K H s buf = Returned n s' events
    /\ 0 <= n <= totalLength buf
    /\ totalBytesParsed_ s' = u64 (totalBytesParsed_ s + n)
    /\ codec_fields_ok s'.
Proof.
  intros Hok. unfold onFramedIngress.
  pose proof (totalLength_nonneg buf) as Hb.
  destruct (connError_ s) as [e|] eqn:He.
  - exists 0, s, []. rewrite Z.add_0_r.
    destruct Hok as (H1 & H2 & H3). rewrite (u64_small _ H3).
    repeat split; auto; lia.
  - destruct (ingressLoop_returns K H (2 * List.length buf + 2) s buf
                (totalLength buf) 0 [] Hok Hb ltac:(reflexivity))
      as (n & s' & ev & Hloop & Hn & Htot & Hok').
    { intros _. unfold turns_left, totalLength. destruct (frameState_ s); lia. }
    rewrite Hloop. rewrite Z.sub_0_r in Htot.
    destruct (connError_ s') as [e|]; cbn [checkConnectionError].
    + exists n, (setParserPaused s' true), (ev ++ error_report K s' e).
      split; [reflexivity|]. split; [lia|]. split; [exact Htot | exact Hok'].
    + exists n, s', (ev ++ []). split; [reflexivity|]. split; [lia|].
      split; [exact Htot | exact Hok'].
Qed.

(** The two other outcomes of the model do not occur. *)
Lemma onFramedIngress_total (s : HQFramedCodec) (buf : IOBuf) :
  codec_fields_ok s ->
  onFramedIngress K H s buf <> OutOfFuel
  /\ onFramedIngress K H s buf <> CheckFailed.
Proof.
  intros Hok.
  destruct (ingressLoop_returns K H (2 * List.length buf + 2) s buf
              (totalLength buf) 0 [] Hok (totalLength_nonneg buf)
              ltac:(reflexivity)) as (n & s' & ev & Hloop & _).
  { intros _. unfold turns_left, totalLength. destruct (frameState_ s); lia. }
  unfold onFramedIngress. destruct (connError_ s); [split; discriminate|].
  rewrite Hloop. destruct (checkConnectionError K s' (connError_ s')) as [[b s2] c].
  split; discriminate.
Qed.

(** X2.  A parser of [parseFrame] that succeeds leaves the cursor right behind
    the declared length: it has read the frame and nothing of the next. *)
Theorem parseFrame_reads_declared_length (s : HQFramedCodec) (cursor : Cursor) :
  0 <= FrameHeader.length (curHeader_ s) <= totalLength cursor ->
  FrameHeader.length (curHeader_ s) < 2 ^ 64 ->
  fst (fst (parseFrame K H s cursor)) = None ->
  snd (fst (parseFrame K H s cursor))
  = skipn (Z.to_nat (FrameHeader.length (curHeader_ s))) cursor
  /\ totalLength (snd (fst (parseFrame K H s cursor)))
     = totalLength cursor - FrameHeader.length (curHeader_ s).
Proof.
  intros Hl H64 Hok. rewrite (parseFrame_consumes K H s cursor Hl H64 Hok).
  split; [reflexivity|]. unfold totalLength in *. rewrite length_skipn. lia.
Qed.

Lemma parsePriority_error (cursor : Cursor) (header : FrameHeader.t)
      (out : PriorityUpdate) (e : ErrorCode) :
  fst (fst (parsePriority K cursor header out)) = Some e ->
  e = HTTP_MALFORMED_FRAME_PRIORITY.
Proof.
  unfold parsePriority.
  repeat match goal with
         | |- context [match ?x with _ => _ end] => destruct x
         | |- context [if ?x then _ else _] => destruct x
         end; cbn [fst]; congruence.
Qed.

Lemma parseSettings_loop_error (fuel : nat) :
  forall cursor frameLength settings e out c',
    parseSettings_loop K fuel cursor frameLength settings = Some (Some e, out, c') ->
    e = HTTP_MALFORMED_FRAME_SETTINGS.
Proof.
  induction fuel as [|fuel IH]; intros cursor frameLength settings e out c';
    cbn [parseSettings_loop]; destruct (0 <? frameLength); try discriminate.
  unfold decodeSettingValue.
  destruct (quic.decodeQuicInteger cursor frameLength) as [[[id n]|] c1];
    [|congruence].
  destruct (quic.decodeQuicInteger c1 (u64 (frameLength - n))) as [[[v m]|] c2];
    [|congruence].
  destruct (isKnownSetting K id); apply IH.
Qed.

(** X3.  The error of [parseFrame] names the frame: each typed parser answers
    only with the malformed-frame code of its own type, and HEADERS frames
    and frames of an unknown type are never refused. *)
Theorem parseFrame_error_names_the_frame
        (s : HQFramedCodec) (cursor : Cursor) (e : ErrorCode) :
  fst (fst (parseFrame K H s cursor)) = Some e ->
  In (FrameHeader.type (curHeader_ s), e) (frame_errors K).
Proof.
  unfold parseFrame, frame_errors.
  set (hdr := curHeader_ s).
  destruct (Z.eqb_spec (FrameHeader.type hdr) (DATA K)) as [->|_].
  { unfold codec_parseData, parseData, clone.
    destruct (FrameHeader.length hdr =? 0); cbn [fst]; [|discriminate].
    intros [= <-]. cbn. auto. }
  destruct (Z.eqb_spec (FrameHeader.type hdr) (HEADERS K)) as [_|_];
    [discriminate|].
  destruct (Z.eqb_spec (FrameHeader.type hdr) (PRIORITY K)) as [->|_].
  { unfold codec_parsePriority.
    pose proof (parsePriority_error cursor hdr (freshPriority H)) as He.
    destruct (parsePriority K cursor hdr (freshPriority H)) as [[[e'|] o] c];
      cbn [fst] in *; [|discriminate].
    intros [= <-]. rewrite (He e' eq_refl). cbn. auto. }
  destruct (Z.eqb_spec (FrameHeader.type hdr) (CANCEL_PUSH K)) as [->|_].
  { unfold codec_parseCancelPush, parseCancelPush.
    destruct (quic.decodeQuicInteger cursor (FrameHeader.length hdr))
      as [[[v n]|] c]; [destruct (negb _)|]; cbn [fst]; try discriminate;
      intros [= <-]; cbn; auto. }
  destruct (Z.eqb_spec (FrameHeader.type hdr) (SETTINGS K)) as [->|_].
  { unfold codec_parseSettings, parseSettings.
    destruct (parseSettings_loop K (S (List.length cursor)) cursor
                (FrameHeader.length hdr) []) as [[[[e'|] o] c]|] eqn:Hloop;
      cbn [fst]; try discriminate; intros [= <-].
    - rewrite (parseSettings_loop_error _ _ _ _ _ _ _ Hloop). cbn. auto 6.
    - cbn. auto 6. }
  destruct (Z.eqb_spec (FrameHeader.type hdr) (PUSH_PROMISE K)) as [->|_].
  { unfold codec_parsePushPromise, parsePushPromise, clone.
    destruct (quic.decodeQuicInteger cursor (FrameHeader.length hdr))
      as [[[v n]|] c]; cbn [fst]; try discriminate.
    intros [= <-]. cbn. auto 7. }
  destruct (Z.eqb_spec (FrameHeader.type hdr) (GOAWAY K)) as [->|_].
  { unfold codec_parseGoaway, parseGoaway.
    destruct (quic.decodeQuicInteger cursor (FrameHeader.length hdr))
      as [[[v n]|] c]; [destruct (negb _)|]; cbn [fst]; try discriminate;
      intros [= <-]; cbn; auto 8. }
  destruct (Z.eqb_spec (FrameHeader.type hdr) (MAX_PUSH_ID K)) as [->|_].
  { unfold codec_parseMaxPushId, parseMaxPushId.
    destruct (quic.decodeQuicInteger cursor (FrameHeader.length hdr))
      as [[[v n]|] c]; [destruct (negb _)|]; cbn [fst]; try discriminate;
      intros [= <-]; cbn; auto 9. }
  discriminate.
Qed.

(** X4.  A paused codec, and a codec offered nothing, reads nothing. *)
Theorem paused_codec_reads_nothing (s : HQFramedCodec) (buf : IOBuf) :
  parserPaused_ s = true \/ buf = [] ->
  onFramedIngress K H s buf = Returned 0 s [].
Proof.
  intros Hwhy. unfold onFramedIngress.
  destruct (connError_ s) as [e|] eqn:He; [reflexivity|].
  assert (Hstop : forall fuel,
             ingressLoop K H fuel s buf (totalLength buf) 0 [] = Returned 0 s []).
  { intros fuel. destruct fuel; cbn [ingressLoop]; rewrite He;
      (destruct Hwhy as [-> | ->];
       [rewrite andb_false_r; reflexivity | reflexivity]). }
  rewrite Hstop, He. reflexivity.
Qed.

(** X5.  The varints of a frame header are read whole or not at all: when the
    input ends inside the type or the length, nothing is counted and the
    codec stays as it was. *)
Theorem frame_header_is_read_whole (s : HQFramedCodec) (buf : IOBuf) :
  frameState_ s = FRAME_HEADER_TYPE \/ frameState_ s = FRAME_HEADER_LENGTH ->
  fst (quic.decodeQuicInteger1 buf) = None ->
  onFramedIngress K H s buf = Returned 0 s [].
Proof.
  intros Hst Hd. unfold onFramedIngress.
  destruct (connError_ s) as [e|] eqn:He; [reflexivity|].
  assert (Hturn : ingressTurn K H s buf (totalLength buf) = Break s []).
  { unfold ingressTurn.
    destruct (quic.decodeQuicInteger1 buf) as [[[v n]|] c]; [discriminate|].
    destruct Hst as [-> | ->]; reflexivity. }
  replace (2 * List.length buf + 2)%nat with (S (2 * List.length buf + 1)) by lia.
  cbn [ingressLoop]. rewrite He, Hturn.
  destruct (true && (0 <? totalLength buf) && negb (parserPaused_ s));
    rewrite He; reflexivity.
Qed.

(** X6.  A frame type that [checkFrameAllowed] refuses ends the call with that
    connection error: the parser is paused, the error is reported, and the
    bytes of the type are not counted. *)
Theorem disallowed_frame_type_is_an_error
        (s : HQFramedCodec) (buf rest : IOBuf) (ty n : Z) (e : ErrorCode) :
  frameState_ s = FRAME_HEADER_TYPE ->
  connError_ s = None -> parserPaused_ s = false ->
  quic.decodeQuicInteger1 buf = (Some (ty, n), rest) ->
  checkFrameAllowed H ty = Some e ->
  onFramedIngress K H s buf
  = Returned 0
      (setParserPaused
         (set_frame s FRAME_HEADER_TYPE
                    (FrameHeader.mk ty (FrameHeader.length (curHeader_ s)))
                    (pendingDataFrameBytes_ s) (Some e)) true)
      (error_report K s e).
Proof.
  intros Hst He Hp Hd Hno. unfold onFramedIngress. rewrite He.
  destruct (decodeQuicInteger1_success _ _ _ _ Hd) as (_ & Hn & Hlen).
  pose proof (totalLength_nonneg rest).
  replace (2 * List.length buf + 2)%nat with (S (2 * List.length buf + 1)) by lia.
  rewrite ingressLoop_turn by (assumption || lia).
  unfold ingressTurn. rewrite Hst, Hd, Hno. reflexivity.
Qed.

(** X7.  A frame of an unknown type is announced and then skipped.  The call
    that brings its header consumes it and calls [onFrameHeader], nothing
    else, and leaves the codec in [FRAME_PAYLOAD] without an error.  The
    call that brings its payload, to a codec that is not paused, consumes
    exactly the payload, calls nothing, sets no error, and leaves the codec
    ready for the next frame. *)
Theorem unknown_frame_is_skipped
        (s : HQFramedCodec) (b1 b2 payload : list byte) (ty len : Z) :
  connError_ s = None -> parserPaused_ s = false ->
  ~ In ty (frame_types K) ->
  (frameState_ s = FRAME_HEADER_TYPE ->
   is_varint b1 ty -> is_varint b2 len -> checkFrameAllowed H ty = None ->
   exists s',
     onFramedIngress K H s (b1 ++ b2)
     = Returned (totalLength (b1 ++ b2)) s' (header_report s ty len)
     /\ frameState_ s' = FRAME_PAYLOAD /\ connError_ s' = None
     /\ curHeader_ s' = FrameHeader.mk ty len)
  /\ (frameState_ s = FRAME_PAYLOAD ->
      curHeader_ s = FrameHeader.mk ty (totalLength payload) ->
      payload <> [] ->
      exists s',
        onFramedIngress K H s payload
        = Returned (totalLength payload) s' []
        /\ frameState_ s' = FRAME_HEADER_TYPE /\ connError_ s' = None
        /\ curHeader_ s' = curHeader_ s).
Proof.
  intros He Hp Hunk. split.
  - intros Hst Hv1 Hv2 Hallowed.
    pose proof (is_varint_length _ _ Hv1) as Hb1.
    pose proof (is_varint_length _ _ Hv2) as Hb2.
    assert (Hd1 : quic.decodeQuicInteger1 (b1 ++ b2)
                  = (Some (ty, Z.of_nat (List.length b1)), b2))
      by (apply decodeQuicInteger_varint; [exact Hv1 | lia]).
    assert (Hd2 : quic.decodeQuicInteger1 b2
                  = (Some (len, Z.of_nat (List.length b2)), [])).
    { rewrite <- (app_nil_r b2) at 1.
      apply decodeQuicInteger_varint; [exact Hv2 | lia]. }
    set (n1 := Z.of_nat (List.length b1)) in *.
    set (n2 := Z.of_nat (List.length b2)) in *.
    assert (Htot : totalLength (b1 ++ b2) = n1 + n2).
    { unfold totalLength, n1, n2. rewrite length_app. lia. }
    assert (Hnd : ty <> DATA K) by (intros ->; apply Hunk; cbn; auto).
    unfold onFramedIngress. rewrite He, Htot.
    assert (Hfuel : exists k, (2 * List.length (b1 ++ b2) + 2 = S (S (S k)))%nat).
    { exists (2 * List.length (b1 ++ b2) - 1)%nat.
      unfold totalLength in Htot. lia. }
    destruct Hfuel as [k ->].
    rewrite ingressLoop_turn by (assumption || lia).
    erewrite ingressTurn_type; [|exact Hst | exact Hd1 | exact Hallowed].
    destruct (Z.ltb_spec (n1 + n2) n1); [lia|].
    rewrite ingressLoop_turn by (unfold_state; assumption || lia).
    erewrite ingressTurn_length_other; [|reflexivity | exact Hnd | exact Hd2].
    destruct (Z.ltb_spec (n1 + n2 - n1) n2); [lia|].
    replace (n1 + n2 - n1 - n2) with 0 by lia.
    rewrite ingressLoop_end. unfold_state.
    eexists. split.
    { unfold header_report. rewrite He. cbn [checkConnectionError].
      rewrite !app_nil_r. cbn [app]. rewrite Z.add_0_l. reflexivity. }
    unfold_state. repeat split.
  - intros Hst Hhdr Hne.
    assert (Hlen : 0 < totalLength payload).
    { unfold totalLength. destruct payload; [contradiction|].
      cbn [List.length]. lia. }
    unfold onFramedIngress. rewrite He.
    replace (2 * List.length payload + 2)%nat
      with (S (2 * List.length payload + 1)) by lia.
    rewrite ingressLoop_turn by (assumption || lia).
    rewrite ingressTurn_payload_whole
      by (try exact Hst; rewrite Hhdr; cbn [FrameHeader.length]; lia).
    rewrite parseFrame_unknown
      by (rewrite Hhdr; cbn [FrameHeader.type]; exact Hunk).
    rewrite Hhdr. unfold_state.
    destruct (Z.ltb_spec (totalLength payload) (totalLength payload)); [lia|].
    rewrite Z.sub_diag, ingressLoop_end. unfold_state.
    eexists. split.
    { cbn [app]. rewrite Z.add_0_l. reflexivity. }
    unfold_state. repeat split.
Qed.

(** X8.  A piece of the payload of a DATA frame: the codec hands on what has
    arrived, counts it, and goes back to frame headers when the last piece
    is in. *)
Theorem data_payload_is_streamed (s : HQFramedCodec) (buf : IOBuf) :
  frameState_ s = FRAME_PAYLOAD_STREAMING ->
  connError_ s = None -> parserPaused_ s = false ->
  0 < totalLength buf <= pendingDataFrameBytes_ s ->
  pendingDataFrameBytes_ s < 2 ^ 64 ->
  exists s',
    onFramedIngress K H s buf
    = Returned (totalLength buf) s' (deliver s (FData buf))
    /\ pendingDataFrameBytes_ s' = pendingDataFrameBytes_ s - totalLength buf
    /\ frameState_ s'
       = (if pendingDataFrameBytes_ s =? totalLength buf
          then FRAME_HEADER_TYPE else FRAME_PAYLOAD_STREAMING)
    /\ connError_ s' = None.
Proof.
  intros Hst He Hp Hlen H64. unfold onFramedIngress. rewrite He.
  replace (2 * List.length buf + 2)%nat with (S (2 * List.length buf + 1)) by lia.
  rewrite ingressLoop_turn by (assumption || lia).
  rewrite ingressTurn_streaming by exact Hst. cbv zeta.
  rewrite Z.min_r by lia. cbn [FrameHeader.length].
  unfold codec_parseData.
  destruct (parseData_clones buf (FrameHeader.mk (DATA K) (totalLength buf)) [])
    as [Hpd _]; [cbn [FrameHeader.length]; lia|].
  cbn [FrameHeader.length] in Hpd.
  assert (Hn : Z.to_nat (totalLength buf) = List.length buf)
    by (unfold totalLength; apply Nat2Z.id).
  rewrite Hn, firstn_all, skipn_all in Hpd. rewrite Hpd.
  destruct (Z.ltb_spec (totalLength buf) (totalLength buf)); [lia|].
  rewrite Z.sub_diag, ingressLoop_end.
  rewrite (u64_small (pendingDataFrameBytes_ s - totalLength buf)) by lia.
  unfold_state.
  eexists. split.
  { rewrite app_nil_r. cbn [app]. rewrite Z.add_0_l. reflexivity. }
  unfold_state. split; [reflexivity|]. split; [|reflexivity].
  - rewrite Hst.
    destruct (Z.eqb_spec (pendingDataFrameBytes_ s - totalLength buf) 0);
      destruct (Z.eqb_spec (pendingDataFrameBytes_ s) (totalLength buf));
      try reflexivity; lia.
Qed.

(** X9.  In the partially reliable mode every byte goes to
    [parsePartiallyReliableData]: the call counts the whole input, stays in
    that mode, and ends with whatever error the hook answered. *)
Theorem partially_reliable_data_takes_all (s : HQFramedCodec) (buf : IOBuf) :
  frameState_ s = FRAME_PAYLOAD_PARTIALLY_RELIABLE_STREAMING ->
  connError_ s = None -> parserPaused_ s = false ->
  buf <> [] ->
  exists s',
    onFramedIngress K H s buf
    = Returned (totalLength buf) s'
        (match fst (parsePartiallyReliableData H buf) with
         | Some e => error_report K s e
         | None => []
         end)
    /\ frameState_ s' = FRAME_PAYLOAD_PARTIALLY_RELIABLE_STREAMING
    /\ connError_ s' = fst (parsePartiallyReliableData H buf)
    /\ pendingDataFrameBytes_ s' = pendingDataFrameBytes_ s.
Proof.
  intros Hst He Hp Hne. unfold onFramedIngress. rewrite He.
  assert (Hlen : 0 < totalLength buf).
  { unfold totalLength. destruct buf; [contradiction | cbn [List.length]; lia]. }
  replace (2 * List.length buf + 2)%nat with (S (2 * List.length buf + 1)) by lia.
  rewrite ingressLoop_turn by (assumption || lia).
  unfold ingressTurn. rewrite Hst.
  destruct (parsePartiallyReliableData H buf) as [err c'].
  destruct (Z.ltb_spec (totalLength buf) (totalLength buf)); [lia|].
  rewrite Z.sub_diag, ingressLoop_end. cbn [fst]. unfold_state.
  destruct err as [e|]; eexists; (split; [rewrite Z.add_0_l; reflexivity|]);
    unfold_state; repeat split; assumption.
Qed.

Lemma ingressTurn_keeps (s : HQFramedCodec) (cursor : Cursor) (bufLen : Z) :
  match ingressTurn K H s cursor bufLen with
  | Break s' _ | Parsed s' _ _ _ =>
      callback_ s' = callback_ s /\ parserPaused_ s' = parserPaused_ s
      /\ streamId_ s' = streamId_ s
  end.
Proof.
  unfold ingressTurn. destruct (frameState_ s) eqn:Hst.
  - destruct (quic.decodeQuicInteger1 cursor) as [[[v n]|] c]; [|auto].
    destruct (checkFrameAllowed H v); cbn; auto.
  - destruct (quic.decodeQuicInteger1 cursor) as [[[v n]|] c]; [|auto].
    cbn [FrameHeader.type].
    destruct (FrameHeader.type (curHeader_ s) =? DATA K);
      [destruct (transportSupportsPartialReliability H
                 && (v =? kUnframedDataFrameLen K))|]; cbn; auto.
  - destruct (FrameHeader.length (curHeader_ s) <=? bufLen); [|auto].
    destruct (parseFrame K H s cursor) as [[err c] called]. cbn. auto.
  - destruct (codec_parseData s cursor _) as [[err c] called]. cbn. auto.
  - destruct (parsePartiallyReliableData H cursor) as [err c]. cbn. auto.
Qed.

Lemma ingressLoop_keeps (fuel : nat) :
  forall s cursor bufLen tot events n s' events',
    ingressLoop K H fuel s cursor bufLen tot events = Returned n s' events' ->
    callback_ s' = callback_ s /\ parserPaused_ s' = parserPaused_ s
    /\ streamId_ s' = streamId_ s.
Proof.
  induction fuel as [|fuel IH]; intros s cursor bufLen tot events n s' events';
    cbn [ingressLoop];
    destruct (match connError_ s with None => true | Some _ => false end
              && (0 <? bufLen) && negb (parserPaused_ s));
    try discriminate; try (intros [= _ <- _]; auto).
  pose proof (ingressTurn_keeps s cursor bufLen) as Hk.
  destruct (ingressTurn K H s cursor bufLen) as [s1 called | s1 c1 parsed called].
  - intros [= _ <- _]. exact Hk.
  - destruct (bufLen <? parsed); [discriminate|]. intros Hloop.
    apply IH in Hloop. cbn [add_totalBytesParsed callback_ parserPaused_ streamId_]
      in Hloop.
    destruct Hloop as (A & B & C). destruct Hk as (A' & B' & C').
    repeat split; congruence.
Qed.

(** X10.  How a call ends.  When it leaves a connection error behind, the parser
    is paused and the error is the last thing the callback hears, through
    [onError] on the session with the code of the error; when it leaves
    none, [onError] was not called. *)
Theorem connection_error_is_reported_last
        (s s' : HQFramedCodec) (buf : IOBuf) (n : Z) (events : list Event) :
  connError_ s = None ->
  onFramedIngress K H s buf = Returned n s' events ->
  match connError_ s' with
  | Some e =>
      parserPaused_ s' = true
      /\ exists called, events = called ++ error_report K s e
                        /\ filter is_onError called = []
  | None => filter is_onError events = []
  end.
Proof.
  intros He. unfold onFramedIngress. rewrite He.
  destruct (ingressLoop K H (2 * List.length buf + 2) s buf (totalLength buf) 0 [])
    as [m s1 ev| |] eqn:Hloop; try discriminate.
  destruct (ingressLoop_no_onError _ _ _ _ _ _ _ _ _ _ _ Hloop)
    as (called & -> & Hq).
  destruct (ingressLoop_keeps _ _ _ _ _ _ _ _ _ Hloop) as (Hcb & Hpa & _).
  cbn [app] in *.
  destruct (connError_ s1) as [e|] eqn:He1; cbn [checkConnectionError];
    intros [= _ <- <-].
  - cbn [setParserPaused connError_ parserPaused_]. rewrite He1.
    split; [reflexivity|]. exists called. split; [|exact Hq].
    unfold error_report. cbn [setParserPaused callback_]. now rewrite Hcb.
  - rewrite He1. now rewrite app_nil_r.
Qed.

End CodecCalls.

(** ** The writers: when they succeed, and what they count *)

Section Writers.
Variable K : HQConstants.

Lemma writeSimpleFrame_fits (q : IOBufQueue) (ty : Z) (data : IOBuf) :
  ty <= quic.kEightByteLimit ->
  computeChainDataLength data <= quic.kEightByteLimit ->
  writeSimpleFrame q ty data
  = (Ok (varint_size ty + varint_size (computeChainDataLength data)
         + computeChainDataLength data),
     q ++ varint_bytes ty ++ varint_bytes (computeChainDataLength data) ++ data).
Proof.
  intros Hty Hlen. unfold writeSimpleFrame.
  rewrite writeFrameHeader_fits by assumption.
  now rewrite <- !app_assoc.
Qed.

Lemma writeSettings_size_fits (settings : list SettingPair) (acc : Z) :
  Forall (fun pr : SettingPair => fst pr <= quic.kEightByteLimit
                                  /\ snd pr <= quic.kEightByteLimit) settings ->
  writeSettings_size settings acc
  = Ok (acc + computeChainDataLength (settings_payload settings)).
Proof.
  intros Hall. revert acc.
  induction Hall as [|pr rest [H1 H2] _ IH]; intros acc.
  - cbn. now rewrite Z.add_0_r.
  - cbn [writeSettings_size].
    rewrite (proj1 (getQuicIntegerSize_fits _ H1)).
    rewrite (proj1 (getQuicIntegerSize_fits _ H2)).
    rewrite IH. f_equal.
    unfold settings_payload. cbn [map concat].
    rewrite !computeChainDataLength_app, !chain_length_varint_bytes by assumption.
    fold (settings_payload rest). lia.
Qed.

(** A frame whose type, fields and payload length have a varint encoding
    is written: this is the result and this is the queue. *)
Lemma writeFrame_fits (q : IOBufQueue) (f : Frame) :
  frameTypeOf K f <= quic.kEightByteLimit ->
  fields_fit K f ->
  computeChainDataLength (framePayload K f) <= quic.kEightByteLimit ->
  writeFrame K q f
  = (Ok (varint_size (frameTypeOf K f)
         + varint_size (computeChainDataLength (framePayload K f))
         + computeChainDataLength (framePayload K f)),
     q ++ varint_bytes (frameTypeOf K f)
       ++ varint_bytes (computeChainDataLength (framePayload K f))
       ++ framePayload K f).
Proof.
  intros Hty Hfit Hlen.
  destruct f as [data|data|p|pushId|settings|pushId data|lastStreamId|maxPushId];
    cbn [writeFrame frameTypeOf framePayload fields_fit] in *.
  - now apply writeSimpleFrame_fits.
  - now apply writeSimpleFrame_fits.
  - destruct Hfit as [H1 H2]. unfold writePriority.
    rewrite (proj1 (getQuicIntegerSize_fits _ H1)).
    rewrite priority_payload_length in * by assumption.
    unfold priority_payload, writeBE_uint8.
    destruct (PriorityElementType_eqb (dependencyType p) TREE_ROOT) eqn:Hdt;
      cbn [negb].
    + replace (varint_size (prioritizedElementId p) + 2 * 1)
        with (1 + varint_size (prioritizedElementId p) + 0 + 1) by lia.
      rewrite writeFrameHeader_fits by assumption.
      rewrite encodeQuicInteger_fits by exact H1.
      f_equal; try (f_equal; lia). cbn [app]. now rewrite <- !app_assoc.
    + assert (H2' : elementDependencyId p <= quic.kEightByteLimit).
      { apply H2. intros Hroot. rewrite Hroot in Hdt. discriminate. }
      rewrite (proj1 (getQuicIntegerSize_fits _ H2')).
      replace (varint_size (prioritizedElementId p) + 2 * 1
               + varint_size (elementDependencyId p))
        with (1 + varint_size (prioritizedElementId p)
              + varint_size (elementDependencyId p) + 1) by lia.
      rewrite writeFrameHeader_fits by assumption.
      rewrite encodeQuicInteger_fits by exact H1.
      rewrite encodeQuicInteger_fits by exact H2'. cbn [snd].
      f_equal; try (f_equal; lia). cbn [app]. now rewrite <- !app_assoc.
  - unfold writeCancelPush.
    rewrite (proj1 (getQuicIntegerSize_fits _ Hfit)).
    rewrite encodeQuicInteger_fits by exact Hfit. cbn [app].
    now apply writeSimpleFrame_fits.
  - unfold writeSettings.
    rewrite writeSettings_size_fits by exact Hfit. rewrite Z.add_0_l.
    rewrite writeFrameHeader_fits by assumption.
    rewrite writeSettings_payload_bytes by exact Hfit.
    now rewrite <- !app_assoc.
  - unfold writePushPromise.
    rewrite (proj1 (getQuicIntegerSize_fits _ Hfit)).
    rewrite computeChainDataLength_app, chain_length_varint_bytes in * by exact Hfit.
    rewrite writeFrameHeader_fits by assumption.
    rewrite encodeQuicInteger_fits by exact Hfit.
    now rewrite <- !app_assoc.
  - unfold writeGoaway.
    rewrite (proj1 (getQuicIntegerSize_fits _ Hfit)).
    rewrite encodeQuicInteger_fits by exact Hfit. cbn [app].
    now apply writeSimpleFrame_fits.
  - unfold writeMaxPushId.
    rewrite (proj1 (getQuicIntegerSize_fits _ Hfit)).
    rewrite encodeQuicInteger_fits by exact Hfit. cbn [app].
    now apply writeSimpleFrame_fits.
Qed.

Lemma writeFrame_type_fits (q q' : IOBufQueue) (f : Frame) (n : Z) :
  writeFrame K q f = (Ok n, q') -> frameTypeOf K f <= quic.kEightByteLimit.
Proof.
  destruct f as [data|data|p|pushId|settings|pushId data|lastStreamId|maxPushId];
    cbn [writeFrame frameTypeOf]; intros Hw.
  - now apply writeSimpleFrame_inv in Hw.
  - now apply writeSimpleFrame_inv in Hw.
  - unfold writePriority in Hw.
    destruct (quic.getQuicIntegerSize (prioritizedElementId p)); [|discriminate].
    match type of Hw with
    | context [match ?sized with Ok _ => _ | Unexpected _ => _ end] =>
        destruct sized; [|discriminate]
    end.
    destruct (writeFrameHeader q (PRIORITY K) _) as [[hs|] q1] eqn:Hh;
      [|discriminate].
    now apply writeFrameHeader_inv in Hh.
  - now apply writeCancelPush_bytes in Hw.
  - now apply writeSettings_bytes in Hw.
  - now apply writePushPromise_bytes in Hw.
  - now apply writeGoaway_bytes in Hw.
  - now apply writeMaxPushId_bytes in Hw.
Qed.

(** X11.  A writer succeeds exactly when the frame type, every identifier and
    value of the frame, and the length of its payload have a varint
    encoding, that is lie below 2^62. *)
Theorem writers_succeed_iff_encodable (q : IOBufQueue) (f : Frame) :
  (exists n q', writeFrame K q f = (Ok n, q'))
  <-> frameTypeOf K f <= quic.kEightByteLimit
      /\ fields_fit K f
      /\ computeChainDataLength (framePayload K f) <= quic.kEightByteLimit.
Proof.
  split.
  - intros (n & q' & Hw). split; [eapply writeFrame_type_fits; eassumption|].
    apply writeFrame_bytes in Hw. tauto.
  - intros (Hty & Hfit & Hlen). rewrite writeFrame_fits by assumption. eauto.
Qed.

(** X12.  What a writer returns is the number of bytes it has appended to the
    queue, and the queue it was given is a prefix of the one it leaves;
    [writeUnframedBytes] appends the data alone and never fails. *)
Theorem writers_return_the_bytes_appended :
  (forall q q' f n,
      writeFrame K q f = (Ok n, q') ->
      exists bytes, q' = q ++ bytes /\ n = computeChainDataLength bytes)
  /\ (forall q data,
         writeUnframedBytes q data = (Ok (computeChainDataLength data), q ++ data)).
Proof.
  split; [|reflexivity].
  intros q q' f n Hw.
  pose proof (writeFrame_type_fits _ _ _ _ Hw) as Hty.
  pose proof (writeFrame_bytes K _ _ _ _ Hw) as (_ & Hlen & Hfit).
  rewrite (writeFrame_fits q f Hty Hfit Hlen) in Hw. injection Hw as <- <-.
  eexists. split; [reflexivity|].
  rewrite !computeChainDataLength_app, !chain_length_varint_bytes by assumption.
  lia.
Qed.

End Writers.

(** ** Grease identifiers and the names of frame types *)

(** X13.  [isGreaseId] accepts exactly the identifiers [getGreaseId] hands out,
    and [getGreaseId] gives different identifiers for different indexes. *)
Theorem grease_ids_are_the_indexed_ones :
  (forall id,
      isGreaseId id = true <-> exists n, 0 <= n /\ getGreaseId n = Some id)
  /\ (forall n m id,
         0 <= n -> 0 <= m ->
         getGreaseId n = Some id -> getGreaseId m = Some id -> n = m).
Proof.
  assert (Hget : forall n, 0 <= n <= kMaxGreaseIdIndex ->
                           getGreaseId n = Some (0x1F * n + 0x21)).
  { intros n Hn. unfold getGreaseId.
    destruct (Z.ltb_spec kMaxGreaseIdIndex n); [lia|].
    unfold kMaxGreaseIdIndex in Hn.
    rewrite (u64_small (0x1F * n)) by lia.
    rewrite (u64_small (0x1F * n + 0x21)) by lia. reflexivity. }
  assert (Hinv : forall n id, 0 <= n -> getGreaseId n = Some id ->
                              n <= kMaxGreaseIdIndex /\ id = 0x1F * n + 0x21).
  { intros n id Hn Hg. unfold getGreaseId in Hg.
    destruct (Z.ltb_spec kMaxGreaseIdIndex n) as [|Hle]; [discriminate|].
    pose proof Hle as Hle'. unfold kMaxGreaseIdIndex in Hle'.
    rewrite (u64_small (0x1F * n)) in Hg by lia.
    rewrite (u64_small (0x1F * n + 0x21)) in Hg by lia.
    injection Hg as <-. split; [exact Hle | reflexivity]. }
  split.
  - intros id. unfold isGreaseId, quic.kEightByteLimit. split.
    + destruct (Z.ltb_spec id 0x21); [discriminate|].
      destruct (Z.ltb_spec 0x3FFFFFFFFFFFFFFF id); [discriminate|].
      cbn [orb]. intros Hm. apply Z.eqb_eq in Hm.
      exists ((id - 0x21) / 0x1F).
      assert (Hid : id = 0x1F * ((id - 0x21) / 0x1F) + 0x21)
        by (Z.div_mod_to_equations; lia).
      split; [Z.div_mod_to_equations; lia|].
      rewrite Hget; [now rewrite <- Hid|].
      unfold kMaxGreaseIdIndex. Z.div_mod_to_equations. lia.
    + intros (n & Hn & Hg). destruct (Hinv n id Hn Hg) as [Hle ->].
      unfold kMaxGreaseIdIndex in Hle.
      destruct (Z.ltb_spec (0x1F * n + 0x21) 0x21); [lia|].
      destruct (Z.ltb_spec 0x3FFFFFFFFFFFFFFF (0x1F * n + 0x21)); [lia|].
      cbn [orb]. apply Z.eqb_eq.
      replace (0x1F * n + 0x21 - 0x21) with (n * 0x1F) by lia.
      apply Z.mod_mul. lia.
  - intros n m id Hn Hm Hgn Hgm.
    destruct (Hinv n id Hn Hgn) as [_ ->].
    destruct (Hinv m _ Hm Hgm) as [_ Heq]. lia.
Qed.

Lemma frame_types_differ (K : HQConstants) (i j : nat) :
  distinctb (frame_types K) = true -> (i < 8)%nat -> (j < 8)%nat ->
  (nth i (frame_types K) 0 =? nth j (frame_types K) 0) = Nat.eqb i j.
Proof.
  intros Hd Hi Hj. apply distinctb_NoDup in Hd.
  destruct (Z.eqb_spec (nth i (frame_types K) 0) (nth j (frame_types K) 0))
    as [He|Hne]; destruct (Nat.eqb_spec i j) as [Hij|Hij]; try reflexivity.
  - exfalso. apply Hij. eapply NoDup_nth; eauto.
  - subst j. contradiction.
Qed.

Ltac frame_types_by_index K :=
  change (DATA K) with (nth 0 (frame_types K) 0);
  change (HEADERS K) with (nth 1 (frame_types K) 0);
  change (PRIORITY K) with (nth 2 (frame_types K) 0);
  change (CANCEL_PUSH K) with (nth 3 (frame_types K) 0);
  change (SETTINGS K) with (nth 4 (frame_types K) 0);
  change (PUSH_PROMISE K) with (nth 5 (frame_types K) 0);
  change (GOAWAY K) with (nth 6 (frame_types K) 0);
  change (MAX_PUSH_ID K) with (nth 7 (frame_types K) 0).

Lemma getFrameTypeString_known (K : HQConstants) (i : nat) :
  distinctb (frame_types K) = true -> (i < 8)%nat ->
  getFrameTypeString K (nth i (frame_types K) 0)
  = nth i frame_type_names_list EmptyString.
Proof.
  intros Hd Hi. unfold getFrameTypeString. frame_types_by_index K.
  rewrite !(frame_types_differ K) by (assumption || lia).
  do 8 (destruct i as [|i]; [reflexivity|]). lia.
Qed.

Lemma frame_type_names_differ (i j : nat) :
  (i < 8)%nat -> (j < 8)%nat ->
  nth i frame_type_names_list EmptyString = nth j frame_type_names_list EmptyString ->
  i = j.
Proof.
  intros Hi Hj.
  do 8 (destruct i as [|i]; [do 8 (destruct j as [|j];
                                   [reflexivity || discriminate|]); lia|]).
  lia.
Qed.

(** X14.  The name [getFrameTypeString] gives a type: the eight frame types have
    eight names of their own, "GREASE" is the name of the grease
    identifiers that are no frame type and of nothing else, and "Unknown"
    that of every other value. *)
Theorem frame_type_names (K : HQConstants) :
  distinctb (frame_types K) = true ->
  (forall t u,
      In t (frame_types K) -> In u (frame_types K) ->
      getFrameTypeString K t = getFrameTypeString K u -> t = u)
  /\ (forall t,
         In t (frame_types K) -> In (getFrameTypeString K t) frame_type_names_list)
  /\ (forall t,
         getFrameTypeString K t = "GREASE"%string
         <-> ~ In t (frame_types K) /\ isGreaseId t = true)
  /\ (forall t,
         getFrameTypeString K t = "Unknown"%string
         <-> ~ In t (frame_types K) /\ isGreaseId t = false).
Proof.
  intros Hdist.
  assert (Hin : forall t, In t (frame_types K) <->
                          t = DATA K \/ t = HEADERS K \/ t = PRIORITY K
                          \/ t = CANCEL_PUSH K \/ t = SETTINGS K
                          \/ t = PUSH_PROMISE K \/ t = GOAWAY K
                          \/ t = MAX_PUSH_ID K).
  { intros t. unfold frame_types. cbn [In]. intuition congruence. }
  assert (Hnth : forall t, In t (frame_types K) ->
                           exists i, (i < 8)%nat /\ t = nth i (frame_types K) 0).
  { intros t Ht. destruct (In_nth _ _ 0 Ht) as (i & Hi & <-). eauto. }
  assert (Hother : forall t, ~ In t (frame_types K) ->
             getFrameTypeString K t
             = if isGreaseId t then "GREASE"%string else "Unknown"%string).
  { intros t Hno. rewrite Hin in Hno. unfold getFrameTypeString.
    repeat match goal with
           | |- context [Z.eqb ?a ?b] =>
               destruct (Z.eqb_spec a b); [exfalso; apply Hno; auto 10|]
           end.
    reflexivity. }
  assert (Hname : forall t, In t (frame_types K) ->
                            In (getFrameTypeString K t) frame_type_names_list).
  { intros t Ht. destruct (Hnth t Ht) as (i & Hi & ->).
    rewrite getFrameTypeString_known by assumption.
    apply nth_In. exact Hi. }
  assert (Hknown : forall t, In t (frame_types K) ->
             getFrameTypeString K t <> "GREASE"%string
             /\ getFrameTypeString K t <> "Unknown"%string).
  { intros t Ht. specialize (Hname t Ht).
    split; intros He; rewrite He in Hname; cbn in Hname;
      intuition discriminate. }
  split; [|split; [exact Hname | split]].
  - intros t u Ht Hu.
    destruct (Hnth t Ht) as (i & Hi & ->). destruct (Hnth u Hu) as (j & Hj & ->).
    rewrite !getFrameTypeString_known by assumption.
    intros He. now rewrite (frame_type_names_differ i j Hi Hj He).
  - intros t. split.
    + intros Hg.
      assert (Hno : ~ In t (frame_types K))
        by (intros Ht; destruct (Hknown t Ht) as [Hk1 Hk2]; auto).
      split; [exact Hno|]. rewrite (Hother t Hno) in Hg.
      destruct (isGreaseId t); [reflexivity | discriminate].
    + intros [Hno Hg]. now rewrite (Hother t Hno), Hg.
  - intros t. split.
    + intros Hg.
      assert (Hno : ~ In t (frame_types K))
        by (intros Ht; destruct (Hknown t Ht) as [Hk1 Hk2]; auto).
      split; [exact Hno|]. rewrite (Hother t Hno) in Hg.
      destruct (isGreaseId t); [discriminate | reflexivity].
    + intros [Hno Hg]. now rewrite (Hother t Hno), Hg.
Qed.

(** ** Payloads of one varint, and PUSH_PROMISE *)

Section VarintPayloads.
Variable K : HQConstants.

(** X15.  GOAWAY, CANCEL_PUSH and MAX_PUSH_ID: the frame is accepted exactly when
    its payload is one varint and nothing else; the stream id is that
    value, a push id that value with the sentinel set.  A payload that is
    empty, cut short or longer than its varint is malformed. *)
Theorem one_varint_frames (cursor : Cursor) (header : FrameHeader.t) (out : Z) :
  0 <= FrameHeader.length header <= totalLength cursor ->
  FrameHeader.length header < 2 ^ 64 ->
  let len := Z.to_nat (FrameHeader.length header) in
  one_varint_payload (firstn len cursor) (parseGoaway cursor header out)
                     HTTP_MALFORMED_FRAME_GOAWAY (fun v => v) (skipn len cursor)
  /\ one_varint_payload (firstn len cursor) (parseCancelPush K cursor header out)
                        HTTP_MALFORMED_FRAME_CANCEL_PUSH
                        (fun v => Z.lor v (kPushIdMask K)) (skipn len cursor)
  /\ one_varint_payload (firstn len cursor) (parseMaxPushId K cursor header out)
                        HTTP_MALFORMED_FRAME_MAX_PUSH_ID
                        (fun v => Z.lor v (kPushIdMask K)) (skipn len cursor).
Proof.
  intros Hl H64 len. unfold one_varint_payload. split; [|split].
  - exact (parseGoaway_spec cursor header out Hl H64).
  - exact (parseCancelPush_spec K cursor header out Hl H64).
  - exact (parseMaxPushId_spec K cursor header out Hl H64).
Qed.

(** X16.  PUSH_PROMISE: the frame is accepted exactly when its payload starts
    with a whole varint; the push id is that value with the sentinel set
    and the header block is the rest of the payload, which may be empty.
    Otherwise it is malformed, and nothing has been read or written. *)
Theorem push_promise_payload
        (cursor : Cursor) (header : FrameHeader.t) (out : Z) (outBuf : IOBuf) :
  0 <= FrameHeader.length header <= totalLength cursor ->
  FrameHeader.length header < 2 ^ 64 ->
  let len := Z.to_nat (FrameHeader.length header) in
  (exists bs v data,
      firstn len cursor = bs ++ data /\ is_varint bs v
      /\ parsePushPromise K cursor header out outBuf
         = (None, Z.lor v (kPushIdMask K), data, skipn len cursor))
  \/ ((forall bs v data, firstn len cursor = bs ++ data -> ~ is_varint bs v)
      /\ parsePushPromise K cursor header out outBuf
         = (Some HTTP_MALFORMED_FRAME_PUSH_PROMISE, out, outBuf, cursor)).
Proof.
  intros Hl H64 len. exact (parsePushPromise_spec K cursor header out outBuf Hl H64).
Qed.

End VarintPayloads.

(** ** The flag byte of a PRIORITY frame, both ways *)

Lemma all_layouts_checked_back :
  forallb (fun pos_pt =>
    forallb (fun pos_dt =>
      forallb (fun pos_empty =>
        forallb (fun mask_ex => layout_check_back pos_pt pos_dt pos_empty mask_ex)
                (zrange 1 255))
              (zrange 0 6))
            (zrange 0 7))
          (zrange 0 7)
  = true.
Proof. vm_compute. reflexivity. Qed.

Lemma flags_write_back_ok (K : HQConstants) (flags : Z) :
  flags_layout_ok K = true -> 0 <= flags < 256 ->
  flags_write_back K flags = true.
Proof.
  intros Hok Hf.
  destruct (flags_layout_ok_ranges K Hok) as (Hp & Hd & He & Hm).
  pose proof (forallb_zrange _ 1 255 _
                (forallb_zrange _ 0 6 _
                   (forallb_zrange _ 0 7 _
                      (forallb_zrange _ 0 7 _ all_layouts_checked_back Hp) Hd) He)
                Hm) as Hall.
  unfold layout_check_back in Hall. cbv zeta in Hall.
  rewrite flags_layout_ok_layout, Hok in Hall.
  exact (forallb_zrange _ 0 256 flags Hall Hf).
Qed.

(** X17.  [decodePriorityFlags] and [encodePriorityFlags] undo each other: the
    byte built from a [PriorityUpdate] decodes to its two types and its
    exclusive flag, and a byte that decodes is the byte built from what was
    decoded. *)
Theorem priority_flags_both_ways (K : HQConstants) :
  flags_layout_ok K = true ->
  (forall p out,
      0 <= encodePriorityFlags K p < 256
      /\ decodePriorityFlags K (encodePriorityFlags K p) out
         = (true, mkPriorityUpdate (prioritizedType p) (dependencyType p)
                                   (exclusive p) (prioritizedElementId out)
                                   (elementDependencyId out) (weight out)))
  /\ (forall flags out p,
         0 <= flags < 256 ->
         decodePriorityFlags K flags out = (true, p) ->
         encodePriorityFlags K p = flags).
Proof.
  intros Hok. split.
  - intros p out. now apply decodePriorityFlags_encode.
  - intros flags out p Hf Hdec.
    pose proof (flags_write_back_ok K flags Hok Hf) as Hwb.
    unfold flags_write_back, decodePriorityFlags in Hwb, Hdec.
    cbv zeta in Hwb, Hdec.
    destruct (negb (u8 (Z.land flags (Z.shiftl 7 (PRIORITY_EMPTY_POS K))) =? 0));
      [discriminate|].
    injection Hdec as <-. apply Z.eqb_eq in Hwb. exact Hwb.
Qed.

(** ** The header-decode verifier, field by field *)

Section HeaderFields.
Context {V : Type}.
Variable L : HeaderLib V.

Lemma no_error_dec (i : HeaderDecodeInfo V) :
  no_error i
  \/ negb (is_NONE (decodeError i))
     || negb (String.eqb (parsingError i) EmptyString) = true.
Proof.
  unfold no_error.
  destruct (decodeError i); [|right; reflexivity].
  destruct (String.eqb_spec (parsingError i) EmptyString) as [->|Hne].
  - left. split; reflexivity.
  - right. reflexivity.
Qed.

Lemma no_error_test (i : HeaderDecodeInfo V) :
  no_error i ->
  negb (is_NONE (decodeError i))
  || negb (String.eqb (parsingError i) EmptyString) = false.
Proof. intros [-> ->]. reflexivity. Qed.

Lemma test_no_error (i : HeaderDecodeInfo V) :
  negb (is_NONE (decodeError i))
  || negb (String.eqb (parsingError i) EmptyString) = true ->
  ~ no_error i.
Proof. intros Ht Hn. rewrite (no_error_test i Hn) in Ht. discriminate. Qed.

Lemma onHeader_after_error (i : HeaderDecodeInfo V) (name : HPACKHeaderName)
      (value : string) :
  ~ no_error i -> onHeader L i name value = (true, i).
Proof.
  intros Herr. unfold onHeader.
  destruct (no_error_dec i) as [Hok | ->]; [contradiction | reflexivity].
Qed.

Lemma onHeaders_after_error
      (i : HeaderDecodeInfo V) (fields : list (HPACKHeaderName * string)) :
  ~ no_error i ->
  onHeaders L i fields = (map (fun _ => true) fields, i).
Proof.
  intros Herr. induction fields as [|[name value] rest IH]; [reflexivity|].
  cbn [onHeaders map]. now rewrite onHeader_after_error, IH.
Qed.

(** X18.  Once an error is recorded the verifier refuses to decode: every further
    field is answered with [true] and changes nothing, so a whole sequence
    of fields leaves the verifier as it was, with the error first
    recorded. *)
Theorem recorded_error_stops_decoding
        (i : HeaderDecodeInfo V) (fields : list (HPACKHeaderName * string)) :
  ~ no_error i ->
  onHeaders L i fields = (map (fun _ => true) fields, i).
Proof.
  intros Herr.
  assert (Hone : forall name value, onHeader L i name value = (true, i)).
  { intros name value. unfold onHeader.
    destruct (decodeError i) eqn:Hd; [|reflexivity].
    destruct (String.eqb_spec (parsingError i) EmptyString) as [Hp|Hp];
      [|reflexivity].
    exfalso. apply Herr. split; assumption. }
  induction fields as [|[name value] rest IH]; cbn [onHeaders map].
  - reflexivity.
  - rewrite Hone, IH. reflexivity.
Qed.

Ltac onHeader_leaves :=
  repeat match goal with
         | |- context [if ?c then _ else _] => destruct c eqn:?
         | |- context [match ?x with Some _ => _ | None => _ end] =>
             destruct x eqn:?
         | |- context [let (_, _) := ?x in _] => destruct x eqn:?
         end.

(** What one field does to a verifier that has recorded no error. *)
Lemma onHeader_step (i i' : HeaderDecodeInfo V) (name : HPACKHeaderName)
      (value : string) (r : bool) :
  no_error i ->
  onHeader L i name value = (r, i') ->
  isRequest_ i' = isRequest_ i
  /\ isRequestTrailers_ i' = isRequestTrailers_ i
  /\ decodeError i' = decodeError i
  /\ (pseudoHeaderSeen_ i = true -> pseudoHeaderSeen_ i' = true)
  /\ (hasStatus_ i = true -> hasStatus_ i' = true)
  /\ (r = false -> msg i' = msg i)
  /\ (is_pseudo (name, value) = true ->
      pseudoHeaderSeen_ i' = true
      /\ headers (msg i') = headers (msg i)
      /\ regularHeaderSeen_ i' = regularHeaderSeen_ i
      /\ (no_error i' ->
          regularHeaderSeen_ i = false
          /\ (isRequest_ i = false -> r = true /\ hasStatus_ i' = true)))
  /\ (is_pseudo (name, value) = false ->
      regularHeaderSeen_ i' = true
      /\ pseudoHeaderSeen_ i' = pseudoHeaderSeen_ i
      /\ hasStatus_ i' = hasStatus_ i
      /\ (no_error i' ->
          r = true
          /\ headers (msg i')
             = headers (msg i) ++ [header_entry (name, value)])).
Proof.
  intros Hne. pose proof (no_error_test i Hne) as Ht.
  unfold onHeader, is_pseudo, header_entry, no_error.
  cbn [fst snd]. rewrite Ht.
  destruct (startsWith (get name) ":") eqn:Hps.
  - cbn [set_pseudoHeaderSeen regularHeaderSeen_ isRequest_ hasStatus_ verifier msg].
    onHeader_leaves; intros [= <- <-]; cbn;
      repeat split; try congruence; try discriminate;
      try match goal with
          | Hbad : _ /\ _ = EmptyString |- _ =>
              destruct Hbad as [_ Hbad]; discriminate Hbad
          end.
  - cbn [set_regularHeaderSeen contentLength_ msg].
    onHeader_leaves; try discriminate;
      repeat match goal with
             | Hp : (_, _) = (_, _) |- _ => injection Hp as <- <-
             end;
      intros [= <- <-]; cbn;
      repeat split; try congruence; try discriminate;
      try match goal with
          | Hbad : _ /\ _ = EmptyString |- _ =>
              destruct Hbad as [_ Hbad]; discriminate Hbad
          end.
Qed.

Lemma onHeader_keeps (i i' : HeaderDecodeInfo V) (name : HPACKHeaderName)
      (value : string) (r : bool) :
  onHeader L i name value = (r, i') ->
  isRequest_ i' = isRequest_ i
  /\ isRequestTrailers_ i' = isRequestTrailers_ i
  /\ decodeError i' = decodeError i.
Proof.
  intros Hstep. destruct (no_error_dec i) as [Hne|Herr].
  - destruct (onHeader_step i i' name value r Hne Hstep) as (? & ? & ? & _). auto.
  - unfold onHeader in Hstep. rewrite Herr in Hstep. injection Hstep as _ <-. auto.
Qed.

Lemma onHeaders_keeps (fields : list (HPACKHeaderName * string)) :
  forall i i' rs,
    onHeaders L i fields = (rs, i') ->
    isRequest_ i' = isRequest_ i
    /\ isRequestTrailers_ i' = isRequestTrailers_ i
    /\ decodeError i' = decodeError i.
Proof.
  induction fields as [|[name value] rest IH]; intros i i' rs; cbn [onHeaders].
  - intros [= _ <-]. auto.
  - destruct (onHeader L i name value) as [r i1] eqn:Hstep.
    destruct (onHeaders L i1 rest) as [rs' i2] eqn:Hrest.
    intros [= _ <-].
    destruct (onHeader_keeps _ _ _ _ _ Hstep) as (A & B & D).
    destruct (IH _ _ _ Hrest) as (A' & B' & D').
    repeat split; congruence.
Qed.

(** A block that ends without an error was decoded field by field. *)
Lemma onHeaders_cons_no_error (i i' : HeaderDecodeInfo V)
      (name : HPACKHeaderName) (value : string)
      (rest : list (HPACKHeaderName * string)) (rs : list bool) :
  onHeaders L i ((name, value) :: rest) = (rs, i') -> no_error i' ->
  exists r i1 rs',
    onHeader L i name value = (r, i1) /\ onHeaders L i1 rest = (rs', i')
    /\ rs = r :: rs' /\ no_error i1.
Proof.
  cbn [onHeaders].
  destruct (onHeader L i name value) as [r i1] eqn:Hstep.
  destruct (onHeaders L i1 rest) as [rs' i2] eqn:Hrest.
  intros [= <- <-] Hne. exists r, i1, rs'.
  split; [reflexivity|]. split; [exact Hrest|]. split; [reflexivity|].
  destruct (no_error_dec i1) as [Hok|Herr]; [exact Hok|].
  apply test_no_error in Herr.
  rewrite (onHeaders_after_error i1 rest Herr) in Hrest.
  injection Hrest as _ <-. contradiction.
Qed.

(** X19.  In a block that is decoded without an error the pseudo-header fields
    come first: no field whose name starts with a colon follows a regular
    field, in this block or after a regular field of an earlier one. *)
Theorem pseudo_headers_come_first (fields : list (HPACKHeaderName * string)) :
  forall i i' rs,
    no_error i -> onHeaders L i fields = (rs, i') -> no_error i' ->
    exists pre post,
      fields = pre ++ post
      /\ Forall (fun f => is_pseudo f = true) pre
      /\ Forall (fun f => is_pseudo f = false) post
      /\ (regularHeaderSeen_ i = true -> pre = []).
Proof.
  induction fields as [|[name value] rest IH]; intros i i' rs Hne Hrun Hne'.
  - exists [], []. repeat split; auto.
  - destruct (onHeaders_cons_no_error _ _ _ _ _ _ Hrun Hne')
      as (r & i1 & rs' & Hstep & Hrest & _ & Hne1).
    destruct (onHeader_step i i1 name value r Hne Hstep)
      as (_ & _ & _ & _ & _ & _ & Hps & Hreg).
    destruct (IH i1 i' rs' Hne1 Hrest Hne') as (pre & post & -> & Hpre & Hpost & Hno).
    destruct (is_pseudo (name, value)) eqn:Hk.
    + destruct (Hps eq_refl) as (_ & _ & _ & Hfirst).
      destruct (Hfirst Hne1) as [Hseen _].
      exists ((name, value) :: pre), post. repeat split; auto.
      congruence.
    + destruct (Hreg eq_refl) as (Hseen & _).
      rewrite (Hno Hseen) in *. exists [], ((name, value) :: post).
      repeat split; auto.
Qed.

(** X20.  A block of a response that is decoded without an error leaves its
    regular fields in the header list of the message, each once and in
    order, and nothing else: the [:status] of a response sets the status of
    the message and adds no header. *)
Theorem accepted_block_adds_regular_fields
        (fields : list (HPACKHeaderName * string)) :
  forall i i' rs,
    no_error i -> isRequest_ i = false ->
    onHeaders L i fields = (rs, i') -> no_error i' ->
    headers (msg i')
    = headers (msg i)
      ++ map header_entry (filter (fun f => negb (is_pseudo f)) fields).
Proof.
  induction fields as [|[name value] rest IH]; intros i i' rs Hne Hresp Hrun Hne'.
  - cbn in *. injection Hrun as _ <-. now rewrite app_nil_r.
  - destruct (onHeaders_cons_no_error _ _ _ _ _ _ Hrun Hne')
      as (r & i1 & rs' & Hstep & Hrest & _ & Hne1).
    destruct (onHeader_keeps _ _ _ _ _ Hstep) as (Hresp1 & _ & _).
    rewrite Hresp in Hresp1.
    destruct (onHeader_step i i1 name value r Hne Hstep)
      as (_ & _ & _ & _ & _ & _ & Hps & Hreg).
    rewrite (IH i1 i' rs' Hne1 Hresp1 Hrest Hne'). cbn [filter].
    destruct (is_pseudo (name, value)) eqn:Hk; cbn [negb].
    + destruct (Hps eq_refl) as (_ & -> & _). reflexivity.
    + destruct (Hreg eq_refl) as (_ & _ & _ & Hadd).
      destruct (Hadd Hne1) as [_ ->]. cbn [map]. now rewrite <- app_assoc.
Qed.

(** X21.  A field that is refused does not touch the message, and the refusal
    is explained in [parsingError], with one exception: a request
    pseudo-header that the verifier's setter refuses is answered with
    [false] while [parsingError] stays empty. *)
Theorem refused_field_leaves_the_message
        (i i' : HeaderDecodeInfo V) (name : HPACKHeaderName) (value : string) :
  no_error i ->
  onHeader L i name value = (false, i') ->
  msg i' = msg i
  /\ (parsingError i' <> EmptyString
      \/ (isRequest_ i = true /\ is_pseudo (name, value) = true
          /\ regularHeaderSeen_ i = false
          /\ (exists setter,
                 requestSetter L (getHeaderCode name) = Some setter
                 /\ setter (verifier i) value = (false, verifier i'))
          /\ no_error i')).
Proof.
  intros Hne. pose proof (no_error_test i Hne) as Ht.
  destruct Hne as [Hd Hp].
  unfold onHeader, is_pseudo, no_error. cbn [fst snd]. rewrite Ht.
  destruct (startsWith (get name) ":") eqn:Hps.
  - cbn [set_pseudoHeaderSeen regularHeaderSeen_ isRequest_ hasStatus_ verifier msg].
    destruct (regularHeaderSeen_ i) eqn:Hreg.
    { intros [= <-]. split; [reflexivity|]. left. discriminate. }
    destruct (isRequest_ i) eqn:Hreq.
    + destruct (requestSetter L (getHeaderCode name)) as [setter|] eqn:Hset.
      * destruct (setter (verifier i) value) as [ok v] eqn:Hcall.
        destruct ok; cbn [negb]; intros [= <-].
        split; [reflexivity|]. right. cbn.
        repeat split; auto. exists setter. auto.
      * intros [= <-]. split; [reflexivity|]. left. discriminate.
    + onHeader_leaves; intros [= <-]; (split; [reflexivity|]); left; discriminate.
  - cbn [set_regularHeaderSeen contentLength_ msg].
    onHeader_leaves; try discriminate;
      repeat match goal with
             | Hpair : (_, _) = (_, _) |- _ => injection Hpair as <- <-
             end;
      intros [= <-]; (split; [reflexivity|]); left; discriminate.
Qed.

(** X22.  The status of a response.  On a response that has seen no regular
    field, a pseudo-header field is accepted exactly when it is the first
    [:status] and its value reads as a number from 100 to 999; the number
    and its default reason are then the status of the message.  Every
    other pseudo-header field is refused with an error. *)
Theorem status_of_a_response
        (i : HeaderDecodeInfo V) (name : HPACKHeaderName) (value : string) :
  no_error i -> isRequest_ i = false ->
  is_pseudo (name, value) = true -> regularHeaderSeen_ i = false ->
  let r := onHeader L i name value in
  (fst r = true
   <-> getHeaderCode name = HTTP_HEADER_COLON_STATUS /\ hasStatus_ i = false
       /\ exists code, tryTo_int32 L value = Some code /\ 100 <= code <= 999)
  /\ (forall code,
         fst r = true -> tryTo_int32 L value = Some code ->
         statusCode (msg (snd r)) = code
         /\ statusMessage (msg (snd r)) = getDefaultReason L code
         /\ hasStatus (snd r) = true /\ no_error (snd r))
  /\ (fst r = false -> parsingError (snd r) <> EmptyString).
Proof.
  intros Hne Hresp Hps Hreg. pose proof (no_error_test i Hne) as Ht.
  destruct Hne as [Hd Hp].
  unfold is_pseudo in Hps. cbn [fst] in Hps.
  unfold onHeader, hasStatus, no_error. rewrite Ht, Hps.
  cbn [set_pseudoHeaderSeen regularHeaderSeen_ isRequest_ hasStatus_ verifier msg].
  rewrite Hreg, Hresp. cbv zeta.
  destruct (getHeaderCode name) eqn:Hcode; cbn [HTTPHeaderCode_eqb fst snd];
    try (split; [split; [discriminate | intros [Hbad _]; discriminate Hbad]
                |split; [discriminate | intros _; discriminate]]).
  destruct (hasStatus_ i) eqn:Hst; cbn [fst snd].
  { split; [split; [discriminate | intros (_ & Hbad & _); discriminate Hbad]
           |split; [discriminate | intros _; discriminate]]. }
  destruct (tryTo_int32 L value) as [code|] eqn:Hto.
  - destruct ((100 <=? code) && (code <=? 999)) eqn:Hrange; cbn [fst snd].
    + apply andb_true_iff in Hrange. rewrite Z.leb_le, Z.leb_le in Hrange.
      split; [split; [intros _; repeat split; eauto | reflexivity]|].
      split; [|discriminate].
      intros code' _ [= <-]. cbn. auto.
    + split; [split; [discriminate|]|split; [discriminate | intros _; discriminate]].
      intros (_ & _ & code' & [= <-] & Hr).
      apply andb_false_iff in Hrange. rewrite Z.leb_gt, Z.leb_gt in Hrange. lia.
  - cbn [fst snd].
    split; [split; [discriminate|]|split; [discriminate | intros _; discriminate]].
    intros (_ & _ & code' & Hbad & _). discriminate Hbad.
Qed.

End HeaderFields.

(** ** The end of a header block *)

Section BlockEnd.
Context {V Size : Type}.
Variable L : HeaderLib V.
Variable C : CompleteLib V.

Lemma response_has_status (fields : list (HPACKHeaderName * string)) :
  forall i i' rs,
    no_error i -> isRequest_ i = false ->
    (pseudoHeaderSeen_ i = true -> hasStatus_ i = true) ->
    onHeaders L i fields = (rs, i') -> no_error i' ->
    pseudoHeaderSeen_ i' = true -> hasStatus_ i' = true.
Proof.
  induction fields as [|[name value] rest IH]; intros i i' rs Hne Hresp Hinv Hrun Hne'.
  - cbn in Hrun. injection Hrun as _ <-. exact Hinv.
  - destruct (onHeaders_cons_no_error L _ _ _ _ _ _ Hrun Hne')
      as (r & i1 & rs' & Hstep & Hrest & _ & Hne1).
    destruct (onHeader_step L i i1 name value r Hne Hstep)
      as (Hreq & _ & _ & _ & _ & _ & Hps & Hreg).
    apply (IH i1 i' rs' Hne1); try assumption; [congruence|].
    destruct (is_pseudo (name, value)) eqn:Hk.
    + destruct (Hps eq_refl) as (_ & _ & _ & Hfirst).
      destruct (Hfirst Hne1) as [_ Hst]. intros _. now apply Hst.
    + destruct (Hreg eq_refl) as (_ & -> & -> & _). exact Hinv.
Qed.

(** X23.  The block of a response that was decoded without an error always
    completes: a response block with a pseudo-header has its status, so the
    check for pseudo-headers in trailers cannot fire, no error is recorded
    and the message is stamped with version 1.1 and the decoded size. *)
Theorem response_block_completes
        (i0 i : HeaderDecodeInfo V) (fields : list (HPACKHeaderName * string))
        (rs : list bool) (decodedSize : Size) :
  no_error i0 -> isRequest_ i0 = false -> isRequestTrailers_ i0 = false ->
  (pseudoHeaderSeen_ i0 = true -> hasStatus_ i0 = true) ->
  onHeaders L i0 fields = (rs, i) -> no_error i ->
  onHeadersComplete C i decodedSize = (i, Some (1, 1, decodedSize)).
Proof.
  intros Hne Hresp Htr Hinv Hrun Hne'.
  pose proof (response_has_status fields i0 i rs Hne Hresp Hinv Hrun Hne') as Hst.
  destruct (onHeaders_keeps L fields _ _ _ Hrun) as (Hreq & Htrail & _).
  rewrite Hresp in Hreq. rewrite Htr in Htrail.
  unfold onHeadersComplete. rewrite Hreq. cbn [andb negb].
  rewrite Hreq, Htrail. cbn [andb negb orb].
  destruct (pseudoHeaderSeen_ i); [|now rewrite andb_false_r].
  rewrite (Hst eq_refl). reflexivity.
Qed.

Lemma pseudo_field_is_seen (fields : list (HPACKHeaderName * string)) :
  forall i i' rs,
    no_error i -> onHeaders L i fields = (rs, i') -> no_error i' ->
    pseudoHeaderSeen_ i = true \/ Exists (fun f => is_pseudo f = true) fields ->
    pseudoHeaderSeen_ i' = true.
Proof.
  induction fields as [|[name value] rest IH]; intros i i' rs Hne Hrun Hne' Hex.
  - cbn in Hrun. injection Hrun as _ <-.
    destruct Hex as [Hs|Hex]; [exact Hs | inversion Hex].
  - destruct (onHeaders_cons_no_error L _ _ _ _ _ _ Hrun Hne')
      as (r & i1 & rs' & Hstep & Hrest & _ & Hne1).
    destruct (onHeader_step L i i1 name value r Hne Hstep)
      as (_ & _ & _ & Hkeep & _ & _ & Hps & _).
    apply (IH i1 i' rs' Hne1 Hrest Hne').
    destruct Hex as [Hs|Hex]; [left; now apply Hkeep|].
    inversion Hex as [? ? Hhd | ? ? Htl]; subst.
    + left. now apply Hps.
    + right. exact Htl.
Qed.

(** X24.  Trailers of a request with a pseudo-header field always end in an
    error, even when the verifier accepted the field: if nothing was wrong
    before, [onHeadersComplete] records that pseudo-headers are forbidden
    in trailers and leaves the message unstamped. *)
Theorem request_trailers_refuse_pseudo_headers
        (i0 i : HeaderDecodeInfo V) (fields : list (HPACKHeaderName * string))
        (rs : list bool) (decodedSize : Size) :
  no_error i0 -> isRequestTrailers_ i0 = true ->
  Exists (fun f => is_pseudo f = true) fields ->
  onHeaders L i0 fields = (rs, i) ->
  parsingError (fst (onHeadersComplete C i decodedSize)) <> EmptyString
  /\ (no_error i ->
      onHeadersComplete C i decodedSize
      = (set_parsingError i "Pseudo headers forbidden in trailers.", None)).
Proof.
  intros Hne Htr Hex Hrun.
  destruct (onHeaders_keeps L fields _ _ _ Hrun) as (_ & Htrail & Hdec).
  assert (Hcomplete : no_error i ->
            onHeadersComplete C i decodedSize
            = (set_parsingError i "Pseudo headers forbidden in trailers.", None)).
  { intros Hne'.
    pose proof (pseudo_field_is_seen fields i0 i rs Hne Hrun Hne' (or_intror Hex))
      as Hseen.
    rewrite Htr in Htrail.
    unfold onHeadersComplete. rewrite Htrail.
    cbn [negb andb]. rewrite andb_false_r. cbn [negb].
    rewrite Htrail, Hseen. reflexivity. }
  split; [|exact Hcomplete].
  destruct (no_error_dec i) as [Hne'|Herr].
  - rewrite (Hcomplete Hne'). discriminate.
  - assert (Hpe : parsingError i <> EmptyString).
    { destruct Hne as [Hd0 _]. rewrite Hd0 in Hdec. rewrite Hdec in Herr.
      cbn in Herr. destruct (String.eqb_spec (parsingError i) EmptyString);
        [discriminate | assumption]. }
    rewrite Htr in Htrail.
    unfold onHeadersComplete. rewrite Htrail.
    cbn [negb andb]. rewrite andb_false_r. cbn [negb].
    rewrite Htrail. cbn [orb andb].
    destruct (pseudoHeaderSeen_ i); cbn [fst]; [discriminate | exact Hpe].
Qed.

End BlockEnd.

(** ** Table statistics *)

Lemma CompressionInfo_eqb_shape (a b : CompressionInfo) :
  CompressionInfo_eqb a b = true
  <-> table_shape (egress a) = table_shape (egress b)
      /\ table_shape (ingress a) = table_shape (ingress b).
Proof.
  unfold CompressionInfo_eqb, table_shape.
  rewrite !andb_true_iff, !Z.eqb_eq. split.
  - intros (((((-> & ->) & ->) & ->) & ->) & ->). split; reflexivity.
  - intros [[= -> -> ->] [= -> -> ->]]. repeat split.
Qed.

(** X25.  [operator==] of [CompressionInfo] compares the table size, the bytes
    stored and the headers stored of both tables and nothing else: it is an
    equivalence, but not equality, since the counters of inserts, blocked
    inserts, duplications and static references are not looked at.  The
    [CompressionInfo] of a QPACK codec reports no blocked inserts for the
    decoder, and two of them compare equal exactly when the three compared
    statistics of the encoders and of the decoders agree. *)
Theorem compression_info_equality :
  (forall a b,
      CompressionInfo_eqb a b = true
      <-> table_shape (egress a) = table_shape (egress b)
          /\ table_shape (ingress a) = table_shape (ingress b))
  /\ (exists a b, CompressionInfo_eqb a b = true /\ a <> b)
  /\ (forall a, CompressionInfo_eqb a a = true)
  /\ (forall a b, CompressionInfo_eqb a b = CompressionInfo_eqb b a)
  /\ (forall a b c,
         CompressionInfo_eqb a b = true -> CompressionInfo_eqb b c = true ->
         CompressionInfo_eqb a c = true)
  /\ (forall e d,
         blockedInserts_ (ingress (getCompressionInfo e d)) = 0
         /\ inserts_ (egress (getCompressionInfo e d)) = getInsertCount e)
  /\ (forall e d e' d',
         CompressionInfo_eqb (getCompressionInfo e d) (getCompressionInfo e' d')
         = true
         <-> (getTableSize e, getBytesStored e, getHeadersStored e)
             = (getTableSize e', getBytesStored e', getHeadersStored e')
             /\ (getTableSize d, getBytesStored d, getHeadersStored d)
                = (getTableSize d', getBytesStored d', getHeadersStored d')).
Proof.
  split; [exact CompressionInfo_eqb_shape|].
  split.
  { exists (CompressionInfo_of 0 0 0 0 0 0 0 0 0 0 0 0 0 0),
           (CompressionInfo_of 0 0 0 1 0 0 0 0 0 0 0 0 0 0).
    split; [reflexivity | discriminate]. }
  split; [intros a; apply CompressionInfo_eqb_shape; split; reflexivity|].
  split.
  { intros a b.
    destruct (CompressionInfo_eqb a b) eqn:Hab, (CompressionInfo_eqb b a) eqn:Hba;
      try reflexivity.
    - apply CompressionInfo_eqb_shape in Hab. destruct Hab as [H1 H2].
      assert (Hb : CompressionInfo_eqb b a = true)
        by (apply CompressionInfo_eqb_shape; split; congruence).
      congruence.
    - apply CompressionInfo_eqb_shape in Hba. destruct Hba as [H1 H2].
      assert (Hb : CompressionInfo_eqb a b = true)
        by (apply CompressionInfo_eqb_shape; split; congruence).
      congruence. }
  split.
  { intros a b c Hab Hbc. apply CompressionInfo_eqb_shape in Hab, Hbc.
    apply CompressionInfo_eqb_shape. destruct Hab, Hbc. split; congruence. }
  split; [intros e d; split; reflexivity|].
  intros e d e' d'. rewrite CompressionInfo_eqb_shape. reflexivity.
Qed.

(** ** Worked examples of the further properties *)

(** A fresh codec fed a SETTINGS frame returns. *)
Lemma onFramedIngress_always_returns_settings :
  codec_fields_ok (newCodec 0 true)
  /\ exists n s' events,
       onFramedIngress draft_constants stream_hooks (newCodec 0 true)
         [Byte.x04; Byte.x05; Byte.x01; Byte.x50; Byte.x00; Byte.x06; Byte.x10]
       = Returned n s' events
       /\ 0 <= n <= 7
       /\ totalBytesParsed_ s' = u64 (0 + n)
       /\ codec_fields_ok s'.
Proof.
  assert (Hok : codec_fields_ok (newCodec 0 true))
    by (unfold codec_fields_ok; cbn [newCodec curHeader_ pendingDataFrameBytes_
                                     totalBytesParsed_ FrameHeader.length]; lia).
  split; [exact Hok|].
  exact (onFramedIngress_always_returns draft_constants stream_hooks
           (newCodec 0 true)
           [Byte.x04; Byte.x05; Byte.x01; Byte.x50; Byte.x00; Byte.x06; Byte.x10]
           Hok).
Defined.

(** A GOAWAY frame of one byte followed by the next frame: the parser stops
    at the boundary. *)
Lemma parseFrame_reads_declared_length_goaway :
  let s := mkCodec 0 true FRAME_PAYLOAD (FrameHeader.mk 7 1) 1 2 None false in
  let cursor := [Byte.x05; Byte.x07; Byte.x01; Byte.x00] in
  0 <= FrameHeader.length (curHeader_ s) <= totalLength cursor
  /\ FrameHeader.length (curHeader_ s) < 2 ^ 64
  /\ fst (fst (parseFrame draft_constants stream_hooks s cursor)) = None
  /\ snd (fst (parseFrame draft_constants stream_hooks s cursor))
     = [Byte.x07; Byte.x01; Byte.x00].
Proof.
  cbv zeta.
  set (s := mkCodec 0 true FRAME_PAYLOAD (FrameHeader.mk 7 1) 1 2 None false).
  set (cursor := [Byte.x05; Byte.x07; Byte.x01; Byte.x00]).
  assert (Hl : 0 <= FrameHeader.length (curHeader_ s) <= totalLength cursor)
    by (cbn; lia).
  assert (H64 : FrameHeader.length (curHeader_ s) < 2 ^ 64) by (cbn; lia).
  assert (Hok : fst (fst (parseFrame draft_constants stream_hooks s cursor)) = None)
    by reflexivity.
  split; [exact Hl|]. split; [exact H64|]. split; [exact Hok|].
  exact (proj1 (parseFrame_reads_declared_length draft_constants stream_hooks
                  s cursor Hl H64 Hok)).
Defined.

(** A PRIORITY frame cut before its weight fails with the code of PRIORITY
    frames. *)
Lemma parseFrame_error_names_the_frame_priority :
  let s := mkCodec 0 true FRAME_PAYLOAD (FrameHeader.mk 2 4) 4 2 None false in
  let cursor := [Byte.x41; Byte.x05; Byte.x41; Byte.x2c] in
  fst (fst (parseFrame draft_constants stream_hooks s cursor))
  = Some HTTP_MALFORMED_FRAME_PRIORITY
  /\ In (2, HTTP_MALFORMED_FRAME_PRIORITY) (frame_errors draft_constants).
Proof.
  cbv zeta. split; [reflexivity|].
  exact (parseFrame_error_names_the_frame draft_constants stream_hooks
           (mkCodec 0 true FRAME_PAYLOAD (FrameHeader.mk 2 4) 4 2 None false)
           [Byte.x41; Byte.x05; Byte.x41; Byte.x2c]
           HTTP_MALFORMED_FRAME_PRIORITY eq_refl).
Defined.

(** A paused codec offered a whole frame. *)
Lemma paused_codec_reads_nothing_frame :
  let s := mkCodec 0 true FRAME_HEADER_TYPE (FrameHeader.mk 0 0) 0 0 None true in
  (parserPaused_ s = true \/ [Byte.x07; Byte.x01; Byte.x05] = [])
  /\ onFramedIngress draft_constants stream_hooks s [Byte.x07; Byte.x01; Byte.x05]
     = Returned 0 s [].
Proof.
  cbv zeta. split; [left; reflexivity|].
  exact (paused_codec_reads_nothing draft_constants stream_hooks
           (mkCodec 0 true FRAME_HEADER_TYPE (FrameHeader.mk 0 0) 0 0 None true)
           [Byte.x07; Byte.x01; Byte.x05] (or_introl eq_refl)).
Defined.

(** The first byte of a two-byte frame type, alone. *)
Lemma frame_header_is_read_whole_half_a_type :
  (frameState_ (newCodec 0 true) = FRAME_HEADER_TYPE
   \/ frameState_ (newCodec 0 true) = FRAME_HEADER_LENGTH)
  /\ fst (quic.decodeQuicInteger1 [Byte.x40]) = None
  /\ onFramedIngress draft_constants stream_hooks (newCodec 0 true) [Byte.x40]
     = Returned 0 (newCodec 0 true) [].
Proof.
  split; [left; reflexivity|]. split; [reflexivity|].
  exact (frame_header_is_read_whole draft_constants stream_hooks (newCodec 0 true)
           [Byte.x40] (or_introl eq_refl) eq_refl).
Defined.

(** A SETTINGS frame on a request stream. *)
Lemma disallowed_frame_type_is_an_error_settings :
  quic.decodeQuicInteger1 [Byte.x04; Byte.x00] = (Some (4, 1), [Byte.x00])
  /\ checkFrameAllowed request_stream_hooks 4 = Some (HTTP_ERROR 10)
  /\ onFramedIngress draft_constants request_stream_hooks (newCodec 0 true)
       [Byte.x04; Byte.x00]
     = Returned 0
         (mkCodec 0 true FRAME_HEADER_TYPE (FrameHeader.mk 4 0) 0 0
                  (Some (HTTP_ERROR 10)) true)
         [onError (2 ^ 64 - 1) (HTTP_ERROR 10) false].
Proof.
  split; [reflexivity|]. split; [reflexivity|].
  exact (disallowed_frame_type_is_an_error draft_constants request_stream_hooks
           (newCodec 0 true) [Byte.x04; Byte.x00] [Byte.x00] 4 1 (HTTP_ERROR 10)
           eq_refl eq_refl eq_refl eq_refl eq_refl).
Defined.

(** A frame of the grease type 0x21 with two bytes of payload: its header
    first, then its payload. *)
Lemma unknown_frame_is_skipped_grease :
  let s := mkCodec 0 true FRAME_PAYLOAD (FrameHeader.mk 0x21 2) 2 2 None false in
  is_varint [Byte.x21] 0x21 /\ is_varint [Byte.x02] 2
  /\ ~ In 0x21 (frame_types draft_constants)
  /\ (exists s',
         onFramedIngress draft_constants stream_hooks (newCodec 0 true)
           [Byte.x21; Byte.x02]
         = Returned 2 s' [onFrameHeader 0 0 2 0x21]
         /\ frameState_ s' = FRAME_PAYLOAD /\ connError_ s' = None
         /\ curHeader_ s' = FrameHeader.mk 0x21 2)
  /\ (exists s',
         onFramedIngress draft_constants stream_hooks s [Byte.xaa; Byte.xbb]
         = Returned 2 s' []
         /\ frameState_ s' = FRAME_HEADER_TYPE /\ connError_ s' = None
         /\ curHeader_ s' = curHeader_ s).
Proof.
  cbv zeta.
  assert (Hv1 : is_varint [Byte.x21] 0x21) by (split; reflexivity).
  assert (Hv2 : is_varint [Byte.x02] 2) by (split; reflexivity).
  assert (Hunk : ~ In 0x21 (frame_types draft_constants))
    by (cbn; intuition discriminate).
  split; [exact Hv1|]. split; [exact Hv2|]. split; [exact Hunk|]. split.
  - exact (proj1 (unknown_frame_is_skipped draft_constants stream_hooks
                    (newCodec 0 true) [Byte.x21] [Byte.x02] [] 0x21 2
                    eq_refl eq_refl Hunk)
             eq_refl Hv1 Hv2 eq_refl).
  - exact (proj2 (unknown_frame_is_skipped draft_constants stream_hooks
                    (mkCodec 0 true FRAME_PAYLOAD (FrameHeader.mk 0x21 2) 2 2
                             None false)
                    [] [] [Byte.xaa; Byte.xbb] 0x21 2
                    eq_refl eq_refl Hunk)
             eq_refl eq_refl ltac:(discriminate)).
Defined.

(** Two of the five bytes of a DATA payload. *)
Lemma data_payload_is_streamed_piece :
  let s := mkCodec 0 true FRAME_PAYLOAD_STREAMING (FrameHeader.mk 0 5) 5 2
                   None false in
  0 < totalLength [Byte.x68; Byte.x69] <= pendingDataFrameBytes_ s
  /\ pendingDataFrameBytes_ s < 2 ^ 64
  /\ exists s',
       onFramedIngress draft_constants stream_hooks s [Byte.x68; Byte.x69]
       = Returned 2 s' [onFrame 0 (FData [Byte.x68; Byte.x69])]
       /\ pendingDataFrameBytes_ s' = 5 - 2
       /\ frameState_ s' = FRAME_PAYLOAD_STREAMING
       /\ connError_ s' = None.
Proof.
  cbv zeta.
  set (s := mkCodec 0 true FRAME_PAYLOAD_STREAMING (FrameHeader.mk 0 5) 5 2
                    None false).
  assert (Hl : 0 < totalLength [Byte.x68; Byte.x69] <= pendingDataFrameBytes_ s)
    by (cbn; lia).
  assert (H64 : pendingDataFrameBytes_ s < 2 ^ 64) by (cbn; lia).
  split; [exact Hl|]. split; [exact H64|].
  exact (data_payload_is_streamed draft_constants stream_hooks s
           [Byte.x68; Byte.x69] eq_refl eq_refl eq_refl Hl H64).
Defined.

(** Bytes of a partially reliable body. *)
Lemma partially_reliable_data_takes_all_bytes :
  let s := mkCodec 0 true FRAME_PAYLOAD_PARTIALLY_RELIABLE_STREAMING
                   (FrameHeader.mk 0 0) 0 2 None false in
  [Byte.x68; Byte.x69; Byte.x21] <> []
  /\ exists s',
       onFramedIngress draft_constants pr_hooks s [Byte.x68; Byte.x69; Byte.x21]
       = Returned 3 s' []
       /\ frameState_ s' = FRAME_PAYLOAD_PARTIALLY_RELIABLE_STREAMING
       /\ connError_ s' = None
       /\ pendingDataFrameBytes_ s' = 0.
Proof.
  cbv zeta. split; [discriminate|].
  exact (partially_reliable_data_takes_all draft_constants pr_hooks
           (mkCodec 0 true FRAME_PAYLOAD_PARTIALLY_RELIABLE_STREAMING
                    (FrameHeader.mk 0 0) 0 2 None false)
           [Byte.x68; Byte.x69; Byte.x21] eq_refl eq_refl eq_refl
           ltac:(discriminate)).
Defined.

(** The payload of a GOAWAY frame with a byte too many: the error is what
    the callback hears. *)
Lemma connection_error_is_reported_last_goaway :
  let s := mkCodec 0 true FRAME_PAYLOAD (FrameHeader.mk 7 2) 2 2 None false in
  let s' := mkCodec 0 true FRAME_HEADER_TYPE (FrameHeader.mk 7 2) 2 4
                    (Some HTTP_MALFORMED_FRAME_GOAWAY) true in
  let events := [onError (2 ^ 64 - 1) HTTP_MALFORMED_FRAME_GOAWAY false] in
  connError_ s = None
  /\ onFramedIngress draft_constants stream_hooks s [Byte.x05; Byte.x00]
     = Returned 2 s' events
  /\ parserPaused_ s' = true
  /\ exists called,
       events = called ++ error_report draft_constants s
                            HTTP_MALFORMED_FRAME_GOAWAY
       /\ filter is_onError called = [].
Proof.
  cbv zeta. split; [reflexivity|]. split; [reflexivity|].
  exact (connection_error_is_reported_last draft_constants stream_hooks
           (mkCodec 0 true FRAME_PAYLOAD (FrameHeader.mk 7 2) 2 2 None false)
           _ [Byte.x05; Byte.x00] 2 _ eq_refl eq_refl).
Defined.

(** A PRIORITY frame that depends on the root is written in six bytes. *)
Lemma writers_return_the_bytes_appended_priority :
  let p := mkPriorityUpdate PUSH_STREAM TREE_ROOT false 5 0 16 in
  writeFrame draft_constants [Byte.xff] (FPriority p)
  = (Ok 5, [Byte.xff; Byte.x02; Byte.x03; Byte.x70; Byte.x05; Byte.x10])
  /\ exists bytes,
       [Byte.xff; Byte.x02; Byte.x03; Byte.x70; Byte.x05; Byte.x10]
       = [Byte.xff] ++ bytes
       /\ 5 = computeChainDataLength bytes.
Proof.
  cbv zeta. split; [reflexivity|].
  exact (proj1 (writers_return_the_bytes_appended draft_constants)
           [Byte.xff] _ (FPriority (mkPriorityUpdate PUSH_STREAM TREE_ROOT false
                                                     5 0 16)) 5 eq_refl).
Defined.

(** A GOAWAY frame for stream 2^62 is not written. *)
Lemma writers_succeed_iff_encodable_goaway :
  ~ fields_fit draft_constants (FGoaway (2 ^ 62))
  /\ ~ exists n q', writeFrame draft_constants [] (FGoaway (2 ^ 62)) = (Ok n, q').
Proof.
  assert (Hno : ~ fields_fit draft_constants (FGoaway (2 ^ 62)))
    by (cbn; unfold quic.kEightByteLimit; lia).
  split; [exact Hno|].
  intros Hw.
  exact (Hno (proj1 (proj2 (proj1 (writers_succeed_iff_encodable draft_constants
                                     [] (FGoaway (2 ^ 62))) Hw)))).
Defined.

(** The frame types of the draft. *)
Lemma frame_type_names_draft :
  distinctb (frame_types draft_constants) = true
  /\ getFrameTypeString draft_constants 0x0D = "MAX_PUSH_ID"%string
  /\ (getFrameTypeString draft_constants 0x40 = "GREASE"%string
      <-> ~ In 0x40 (frame_types draft_constants) /\ isGreaseId 0x40 = true)
  /\ (getFrameTypeString draft_constants 0x06 = "Unknown"%string
      <-> ~ In 0x06 (frame_types draft_constants) /\ isGreaseId 0x06 = false).
Proof.
  split; [reflexivity|]. split; [reflexivity|].
  split.
  - exact (proj1 (proj2 (proj2 (frame_type_names draft_constants eq_refl))) 0x40).
  - exact (proj2 (proj2 (proj2 (frame_type_names draft_constants eq_refl))) 0x06).
Defined.

(** A GOAWAY payload of two bytes that starts with a one-byte varint. *)
Lemma one_varint_frames_residue :
  let cursor := [Byte.x05; Byte.x00] in
  let header := FrameHeader.mk 7 2 in
  0 <= FrameHeader.length header <= totalLength cursor
  /\ FrameHeader.length header < 2 ^ 64
  /\ one_varint_payload cursor (parseGoaway cursor header 0)
                        HTTP_MALFORMED_FRAME_GOAWAY (fun v => v) [].
Proof.
  cbv zeta.
  assert (Hl : 0 <= FrameHeader.length (FrameHeader.mk 7 2)
               <= totalLength [Byte.x05; Byte.x00]) by (cbn; lia).
  assert (H64 : FrameHeader.length (FrameHeader.mk 7 2) < 2 ^ 64) by (cbn; lia).
  split; [exact Hl|]. split; [exact H64|].
  exact (proj1 (one_varint_frames draft_constants [Byte.x05; Byte.x00]
                  (FrameHeader.mk 7 2) 0 Hl H64)).
Defined.

(** A PUSH_PROMISE frame for push id 7 with two bytes of header block. *)
Lemma push_promise_payload_example :
  let cursor := [Byte.x07; Byte.xaa; Byte.xbb] in
  let header := FrameHeader.mk 5 3 in
  0 <= FrameHeader.length header <= totalLength cursor
  /\ FrameHeader.length header < 2 ^ 64
  /\ parsePushPromise draft_constants cursor header 0 []
     = (None, 2 ^ 63 + 7, [Byte.xaa; Byte.xbb], [])
  /\ ((exists bs v data,
          cursor = bs ++ data /\ is_varint bs v
          /\ parsePushPromise draft_constants cursor header 0 []
             = (None, Z.lor v (2 ^ 63), data, []))
      \/ ((forall bs v data, cursor = bs ++ data -> ~ is_varint bs v)
          /\ parsePushPromise draft_constants cursor header 0 []
             = (Some HTTP_MALFORMED_FRAME_PUSH_PROMISE, 0, [], cursor))).
Proof.
  cbv zeta.
  assert (Hl : 0 <= FrameHeader.length (FrameHeader.mk 5 3)
               <= totalLength [Byte.x07; Byte.xaa; Byte.xbb]) by (cbn; lia).
  assert (H64 : FrameHeader.length (FrameHeader.mk 5 3) < 2 ^ 64) by (cbn; lia).
  split; [exact Hl|]. split; [exact H64|]. split; [reflexivity|].
  exact (push_promise_payload draft_constants [Byte.x07; Byte.xaa; Byte.xbb]
           (FrameHeader.mk 5 3) 0 [] Hl H64).
Defined.

(** The flag byte 0x51 of the draft layout: a push stream that depends on a
    push stream, exclusive. *)
Lemma priority_flags_both_ways_draft :
  flags_layout_ok draft_constants = true
  /\ decodePriorityFlags draft_constants 0x51
       (mkPriorityUpdate REQUEST_STREAM REQUEST_STREAM false 0 0 0)
     = (true, mkPriorityUpdate PUSH_STREAM PUSH_STREAM true 0 0 0)
  /\ encodePriorityFlags draft_constants
       (mkPriorityUpdate PUSH_STREAM PUSH_STREAM true 0 0 0) = 0x51.
Proof.
  split; [reflexivity|]. split; [reflexivity|].
  exact (proj2 (priority_flags_both_ways draft_constants eq_refl) 0x51
           (mkPriorityUpdate REQUEST_STREAM REQUEST_STREAM false 0 0 0)
           (mkPriorityUpdate PUSH_STREAM PUSH_STREAM true 0 0 0)
           ltac:(lia) eq_refl).
Defined.

(** After a Connection header the verifier ignores a second status. *)
Lemma recorded_error_stops_decoding_after_connection :
  let i := snd (onHeader example_lib (newInfo false) connection "close") in
  ~ no_error i
  /\ onHeaders example_lib i [(colon_status, "200"%string); (x_custom, "1"%string)]
     = ([true; true], i).
Proof.
  cbv zeta.
  assert (Herr : ~ no_error (snd (onHeader example_lib (newInfo false)
                                           connection "close")))
    by (intros [_ Hbad]; discriminate Hbad).
  split; [exact Herr|].
  exact (recorded_error_stops_decoding example_lib _
           [(colon_status, "200"%string); (x_custom, "1"%string)] Herr).
Defined.

(** A response block: the status, then two regular fields. *)
Lemma pseudo_headers_come_first_response :
  let fields := [(colon_status, "200"%string); (content_length, "42"%string);
                 (x_custom, "1"%string)] in
  no_error (newInfo false)
  /\ no_error (snd (onHeaders example_lib (newInfo false) fields))
  /\ exists pre post,
       fields = pre ++ post
       /\ Forall (fun f => is_pseudo f = true) pre
       /\ Forall (fun f => is_pseudo f = false) post
       /\ (regularHeaderSeen_ (newInfo false) = true -> pre = []).
Proof.
  cbv zeta.
  assert (H0 : no_error (newInfo false)) by (split; reflexivity).
  assert (H1 : no_error (snd (onHeaders example_lib (newInfo false)
                     [(colon_status, "200"%string); (content_length, "42"%string);
                      (x_custom, "1"%string)]))) by (split; reflexivity).
  split; [exact H0|]. split; [exact H1|].
  exact (pseudo_headers_come_first example_lib
           [(colon_status, "200"%string); (content_length, "42"%string);
            (x_custom, "1"%string)]
           (newInfo false)
           (snd (onHeaders example_lib (newInfo false)
                   [(colon_status, "200"%string); (content_length, "42"%string);
                    (x_custom, "1"%string)]))
           (fst (onHeaders example_lib (newInfo false)
                   [(colon_status, "200"%string); (content_length, "42"%string);
                    (x_custom, "1"%string)]))
           H0 eq_refl H1).
Defined.

Lemma accepted_block_adds_regular_fields_response :
  let fields := [(colon_status, "200"%string); (content_length, "42"%string);
                 (x_custom, "1"%string)] in
  no_error (newInfo false)
  /\ isRequest_ (newInfo false) = false
  /\ no_error (snd (onHeaders example_lib (newInfo false) fields))
  /\ headers (msg (snd (onHeaders example_lib (newInfo false) fields)))
     = [] ++ [(ByCode HTTP_HEADER_CONTENT_LENGTH, "42"%string);
              (ByName "x-custom", "1"%string)].
Proof.
  cbv zeta.
  assert (H0 : no_error (newInfo false)) by (split; reflexivity).
  assert (H1 : no_error (snd (onHeaders example_lib (newInfo false)
                     [(colon_status, "200"%string); (content_length, "42"%string);
                      (x_custom, "1"%string)]))) by (split; reflexivity).
  split; [exact H0|]. split; [reflexivity|]. split; [exact H1|].
  exact (accepted_block_adds_regular_fields example_lib
           [(colon_status, "200"%string); (content_length, "42"%string);
            (x_custom, "1"%string)]
           (newInfo false)
           (snd (onHeaders example_lib (newInfo false)
                   [(colon_status, "200"%string); (content_length, "42"%string);
                    (x_custom, "1"%string)]))
           (fst (onHeaders example_lib (newInfo false)
                   [(colon_status, "200"%string); (content_length, "42"%string);
                    (x_custom, "1"%string)]))
           H0 eq_refl eq_refl H1).
Defined.

(** A Connection header is refused and the message stays empty. *)
Lemma refused_field_leaves_the_message_connection :
  no_error (newInfo true)
  /\ fst (onHeader example_lib (newInfo true) connection "close") = false
  /\ msg (snd (onHeader example_lib (newInfo true) connection "close"))
     = msg (newInfo true).
Proof.
  assert (H0 : no_error (newInfo true)) by (split; reflexivity).
  split; [exact H0|]. split; [reflexivity|].
  exact (proj1 (refused_field_leaves_the_message example_lib (newInfo true)
                  (snd (onHeader example_lib (newInfo true) connection "close"))
                  connection "close" H0 eq_refl)).
Defined.

(** The status 200 of a response. *)
Lemma status_of_a_response_200 :
  no_error (newInfo false) /\ isRequest_ (newInfo false) = false
  /\ is_pseudo (colon_status, "200"%string) = true
  /\ regularHeaderSeen_ (newInfo false) = false
  /\ fst (onHeader example_lib (newInfo false) colon_status "200") = true
  /\ statusCode (msg (snd (onHeader example_lib (newInfo false) colon_status "200")))
     = 200.
Proof.
  assert (H0 : no_error (newInfo false)) by (split; reflexivity).
  split; [exact H0|]. split; [reflexivity|]. split; [reflexivity|].
  split; [reflexivity|]. split; [reflexivity|].
  exact (proj1 (proj1 (proj2 (status_of_a_response example_lib (newInfo false)
                                colon_status "200" H0 eq_refl eq_refl eq_refl))
                  200 eq_refl eq_refl)).
Defined.

(** A response with its status and one field completes. *)
Lemma response_block_completes_example :
  let fields := [(colon_status, "200"%string); (x_custom, "1"%string)] in
  let i := snd (onHeaders example_lib (newInfo false) fields) in
  no_error (newInfo false) /\ no_error i
  /\ onHeadersComplete example_complete i 12
     = (i, Some (1, 1, 12)).
Proof.
  cbv zeta.
  assert (H0 : no_error (newInfo false)) by (split; reflexivity).
  assert (H1 : no_error (snd (onHeaders example_lib (newInfo false)
                     [(colon_status, "200"%string); (x_custom, "1"%string)])))
    by (split; reflexivity).
  split; [exact H0|]. split; [exact H1|].
  exact (response_block_completes example_lib example_complete (newInfo false)
           (snd (onHeaders example_lib (newInfo false)
                   [(colon_status, "200"%string); (x_custom, "1"%string)]))
           [(colon_status, "200"%string); (x_custom, "1"%string)]
           (fst (onHeaders example_lib (newInfo false)
                   [(colon_status, "200"%string); (x_custom, "1"%string)]))
           12 H0 eq_refl eq_refl ltac:(discriminate) eq_refl H1).
Defined.

(** Request trailers with a [:method] field. *)
Lemma request_trailers_refuse_pseudo_headers_method :
  let fields := [(colon_method, "GET"%string)] in
  let i := snd (onHeaders example_lib newTrailers fields) in
  no_error newTrailers /\ isRequestTrailers_ newTrailers = true
  /\ Exists (fun f => is_pseudo f = true) fields
  /\ fst (onHeaders example_lib newTrailers fields) = [true]
  /\ parsingError (fst (onHeadersComplete example_complete i 12)) <> EmptyString.
Proof.
  cbv zeta.
  assert (H0 : no_error newTrailers) by (split; reflexivity).
  assert (Hex : Exists (fun f => is_pseudo f = true) [(colon_method, "GET"%string)])
    by (apply Exists_cons_hd; reflexivity).
  split; [exact H0|]. split; [reflexivity|]. split; [exact Hex|].
  split; [reflexivity|].
  exact (proj1 (request_trailers_refuse_pseudo_headers example_lib example_complete
                  newTrailers
                  (snd (onHeaders example_lib newTrailers
                          [(colon_method, "GET"%string)]))
                  [(colon_method, "GET"%string)]
                  (fst (onHeaders example_lib newTrailers
                          [(colon_method, "GET"%string)]))
                  12 H0 eq_refl Hex eq_refl)).
Defined.
